(* ===== verification/_CoqProject ===== *)
-Q . S2P
Prelude.v
Url.v
Net.v
HostPort.v
Base64.v
Proxy.v
Worlds.v
Handshake.v
Search.v
Reach.v
Socks5.v
Dial.v
Routes.v
Session.v
Concurrent.v
Goroutines.v
