(* ===== verification/Net.v ===== *)
(** * Net: the outside world of the dialer

    The dialer talks to four collaborators: the Go [net] package (addresses
    and TCP connections), the SOCKS5 dialer of [x/net/proxy], the
    repository's [dns] package (candidate addresses of a host and the
    remembered first address) and the connection it obtains (write, read,
    close).  This file gives each call a primitive in the monad [M World]:

    - [net.Lib] is the interface of the pure functions of [net]
      ([SplitHostPort], [ParseIP], [IP.To4], [IP.String]);
    - [Env] is a record of oracles, one per call whose answer the program
      cannot compute; an oracle reads the trace of earlier events, so the
      world may answer the same question differently over time;
    - [World] is the state threaded through a run: the trace, the
      resolver's remembered addresses and the set of open connections;
    - [EnvOK] is the contract of the dialers: a connection or an error.

    [FormatIP] and the dialer [direct] are the definitions of Proxy.go.
    [stub_lib] and [stub_env] are executable instances used to run the
    model on concrete inputs. *)

From stdpp Require Import pretty.
From S2P Require Import Prelude.

Module net.

(** [net.IP] is a byte slice; [None] is the nil slice. *)
Definition IP : Type := option (list byte).
#[global] Typeclasses Transparent IP.

(** A [net.Conn]: an identity and the remote address it reports. *)
Record Conn : Type := mkConn {
  conn_id : nat;
  RemoteAddr : string
}.

#[global] Instance Conn_eq_dec : EqDecision Conn.
Proof. solve_decision. Defined.

(** The pure functions of package [net] that the dialer calls. *)
Class Lib : Type := {
  SplitHostPort : string -> string * string * option error;
  ParseIP : string -> IP;
  To4 : IP -> IP;
  IP_String : IP -> string
}.

End net.

Module proxy.

(** [proxy.Auth]: user name and password of a SOCKS5 proxy. *)
Record Auth : Type := mkAuth {
  User : string;
  Password : string
}.

#[global] Instance Auth_eq_dec : EqDecision Auth.
Proof. solve_decision. Defined.

End proxy.

(** The dialer [direct] of Proxy.go: a TCP dial bounded by a timeout. *)
Record direct : Type := mkDirect {
  direct_timeout : time.Duration
}.

#[export] Instance direct_eq_dec : EqDecision direct.
Proof. solve_decision. Defined.

(** The value [proxy.SOCKS5] returns: what it was constructed with. *)
Record Socks5Dialer : Type := mkSocks5 {
  s5_network : string;
  s5_address : string;
  s5_auth : option proxy.Auth;
  s5_forward : direct
}.

#[export] Instance Socks5Dialer_eq_dec : EqDecision Socks5Dialer.
Proof. solve_decision. Defined.

(** One event per call that leaves the program, with the answer it got. *)
Inductive Event : Type :=
| EvDial (d : direct) (network addr : string) (r : GoRes net.Conn)
| EvSocksDial (d : Socks5Dialer) (network addr : string) (r : GoRes net.Conn)
| EvLookupIP (host tag : string) (ips : list net.IP)
| EvGetFirstIP (host tag : string) (ip : net.IP)
| EvSetFirstIP (host tag : string) (ip : net.IP)
| EvWrite (c : net.Conn) (data : list byte) (err : option error)
| EvRead (c : net.Conn) (data : list byte) (err : option error)
| EvClose (c : net.Conn).

#[export] Instance Event_eq_dec : EqDecision Event.
Proof. solve_decision. Defined.

(** The answers of the outside world, each a function of the history. *)
Class Env : Type := {
  env_dial : list Event -> direct -> string -> string -> GoRes net.Conn;
  env_socks5_new : string -> string -> option proxy.Auth -> option error;
  env_socks5_dial :
    list Event -> Socks5Dialer -> string -> string -> GoRes net.Conn;
  env_lookup : list Event -> string -> string -> list net.IP * option error;
  env_write : list Event -> net.Conn -> list byte -> option error;
  env_read : list Event -> net.Conn -> list byte * option error;
  env_close : list Event -> net.Conn -> option error
}.

(** The contract of [net.Dialer.Dial] and of the SOCKS5 dialer. *)
Class EnvOK `{Env} : Prop := {
  env_dial_exclusive tr d n a : exclusive (env_dial tr d n a);
  env_socks5_dial_exclusive tr d n a : exclusive (env_socks5_dial tr d n a)
}.

(** The state of a run. *)
Record World : Type := mkWorld {
  trace : list Event;
  firstIP : gmap (string * string) (list byte);
  opened : gset nat
}.

Definition log (e : Event) (w : World) : World :=
  mkWorld (trace w ++ [e]) (firstIP w) (opened w).

Definition set_firstIP (m : gmap (string * string) (list byte)) (w : World) : World :=
  mkWorld (trace w) m (opened w).

Definition set_opened (o : gset nat) (w : World) : World :=
  mkWorld (trace w) (firstIP w) o.

(** A dial that returned a connection leaves it open. *)
Definition note_open (r : GoRes net.Conn) (w : World) : World :=
  match fst r with
  | Some c => set_opened ({[ net.conn_id c ]} ∪ opened w) w
  | None => w
  end.

Section primitives.
Context `{net.Lib} `{Env}.

(** Proxy.go [direct.Dial]: [net.Dialer{Timeout: ps.timeout}.Dial]. *)
Definition direct_Dial (ps : direct) (network addr : string)
  : M World (GoRes net.Conn) :=
  fun w =>
    let r := env_dial (trace w) ps network addr in
    Returns r (note_open r (log (EvDial ps network addr r) w)).

(** Proxy.go [direct.DialContext]: the same dial; the context only lets the
    caller abandon it, which no function of the file does. *)
Definition direct_DialContext (ps : direct) (network addr : string)
  : M World (GoRes net.Conn) :=
  direct_Dial ps network addr.

(** [proxy.SOCKS5(network, address, auth, forward)]. *)
Definition SOCKS5 (network address : string) (auth : option proxy.Auth)
    (forward : direct) : GoRes Socks5Dialer :=
  match env_socks5_new network address auth with
  | Some e => (None, Some e)
  | None => (Some (mkSocks5 network address auth forward), None)
  end.

(** [d.Dial(network, addr)] of a SOCKS5 dialer [d]. *)
Definition socks5_Dial (d : Socks5Dialer) (network addr : string)
  : M World (GoRes net.Conn) :=
  fun w =>
    let r := env_socks5_dial (trace w) d network addr in
    Returns r (note_open r (log (EvSocksDial d network addr r) w)).

(** [dns.LookupIP(host, tag, nil)]: the candidates; the caller drops the
    error. *)
Definition dns_LookupIP (host tag : string) : M World (list net.IP * option error) :=
  fun w =>
    let r := env_lookup (trace w) host tag in
    Returns r (log (EvLookupIP host tag (fst r)) w).

(** [dns.GetFirstIP(host, tag)]: the remembered address, or nil. *)
Definition dns_GetFirstIP (host tag : string) : M World net.IP :=
  fun w =>
    let ip := firstIP w !! (host, tag) in
    Returns ip (log (EvGetFirstIP host tag ip) w).

(** [dns.SetFirstIP(host, tag, ip)]: overwrite the remembered address. *)
Definition dns_SetFirstIP (host tag : string) (ip : net.IP) : M World unit :=
  fun w =>
    let m := match ip with
             | Some b => <[(host, tag) := b]> (firstIP w)
             | None => delete (host, tag) (firstIP w)
             end in
    Returns tt (set_firstIP m (log (EvSetFirstIP host tag ip) w)).

(** [conn.Write(data)]; the byte count is dropped by the caller. *)
Definition conn_Write (c : net.Conn) (data : list byte) : M World (option error) :=
  fun w =>
    let e := env_write (trace w) c data in
    Returns e (log (EvWrite c data e) w).

(** [conn.Read(b)] into a buffer of [cap] bytes: the count, the buffer after
    the read and the error.  At most [cap] bytes are taken. *)
Definition conn_Read (c : net.Conn) (cap : nat)
  : M World (Z * list byte * option error) :=
  fun w =>
    let '(raw, e) := env_read (trace w) c in
    let data := take cap raw in
    Returns (Z.of_nat (length data), fill_buffer cap data, e)
            (log (EvRead c data e) w).

(** [conn.Close()]; the error is dropped by the caller. *)
Definition conn_Close (c : net.Conn) : M World unit :=
  fun w =>
    Returns tt (set_opened (opened w ∖ {[ net.conn_id c ]}) (log (EvClose c) w)).

(** Proxy.go [FormatIP]: [host:port], the host in brackets unless it is an
    IPv4 address. *)
Definition FormatIP (ip : net.IP) (port : string) : string :=
  if decide (net.To4 ip <> None)
  then net.IP_String ip +:+ ":" +:+ port
  else "[" +:+ net.IP_String ip +:+ "]:" +:+ port.

End primitives.

(** ** Executable instances *)

(** Decimal digits of a string as a number below 256. *)
Fixpoint parse_dec (acc : N) (s : string) : option N :=
  match s with
  | EmptyString => Some acc
  | String c s' =>
      let n := N_of_ascii c in
      if ((48 <=? n) && (n <=? 57))%N
      then parse_dec (acc * 10 + (n - 48)) s'
      else None
  end.

Definition parse_octet (s : string) : option byte :=
  match s with
  | EmptyString => None
  | _ => n ← parse_dec 0 s; Byte.of_N n
  end.

Fixpoint split_on (sep : ascii) (cur : string) (s : string) : list string :=
  match s with
  | EmptyString => [cur]
  | String c s' =>
      if decide (c = sep) then cur :: split_on sep "" s'
      else split_on sep (cur +:+ String c EmptyString) s'
  end.

Definition v4_prefix : list byte :=
  replicate 10 x00 ++ [xff; xff].

Definition stub_ParseIP (s : string) : net.IP :=
  match mapM parse_octet (split_on "." "" s) with
  | Some [a; b; c; d] => Some (v4_prefix ++ [a; b; c; d])
  | _ => None
  end.

Definition stub_To4 (ip : net.IP) : net.IP :=
  match ip with
  | Some [a; b; c; d] => ip
  | Some l =>
      if decide (length l = 16%nat /\ take 12 l = v4_prefix)
      then Some (drop 12 l) else None
  | None => None
  end.

Definition dotted (l : list byte) : string :=
  String.concat "." ((fun b => pretty (Byte.to_N b)) <$> l).

Definition stub_IP_String (ip : net.IP) : string :=
  match ip with
  | None => "<nil>"
  | Some l =>
      match stub_To4 ip with
      | Some q => dotted q
      | None => "?" +:+ dotted l
      end
  end.

Definition last_colon (s : string) : option (string * string) :=
  match reverse (split_on ":" "" s) with
  | port :: (_ :: _) as rest => Some (String.concat ":" (reverse rest), port)
  | _ => None
  end.

Definition stub_SplitHostPort (s : string) : string * string * option error :=
  match last_colon s with
  | None => ("", "", Some (LibError "net" "missing port in address"))
  | Some (host, port) =>
      if decide (index 0 ":" host = None) then (host, port, None)
      else ("", "", Some (LibError "net" "too many colons in address"))
  end.

(** Addresses, ports and IPv4 text as Go prints them; other addresses are
    printed in a form of this file's own. *)
Definition stub_lib : net.Lib := {|
  net.SplitHostPort := stub_SplitHostPort;
  net.ParseIP := stub_ParseIP;
  net.To4 := stub_To4;
  net.IP_String := stub_IP_String
|}.

Definition refused : error := LibError "net" "connection refused".

(** A world in which exactly the addresses of [accept] take connections,
    SOCKS5 tunnels open to the targets of [tunnel], the resolver answers
    from [hosts] and every connection answers a read with [response]. *)
Definition stub_env (accept tunnel : list string)
    (hosts : list (string * list net.IP))
    (response : list byte * option error) : Env := {|
  env_dial tr d n a :=
    if decide (a ∈ accept) then (Some (net.mkConn (length tr) a), None)
    else (None, Some refused);
  env_socks5_new _ _ _ := None;
  env_socks5_dial tr d n a :=
    if decide (s5_address d ∈ accept /\ a ∈ tunnel)
    then (Some (net.mkConn (length tr) (s5_address d)), None)
    else (None, Some refused);
  env_lookup tr h t :=
    match list_find (fun p => p.1 = h) hosts with
    | Some (_, (_, ips)) => (ips, None)
    | None => ([], Some (LibError "dns" "no such host"))
    end;
  env_write _ _ _ := None;
  env_read _ _ := response;
  env_close _ _ := None
|}.

Definition empty_world : World := mkWorld [] ∅ ∅.

(** The effect of one event on the resolver's memory and on the set of
    open connections. *)
Definition apply_event (ev : Event)
    (st : gmap (string * string) (list byte) * gset nat)
  : gmap (string * string) (list byte) * gset nat :=
  match ev with
  | EvDial _ _ _ (Some c, _) | EvSocksDial _ _ _ (Some c, _) =>
      (fst st, {[ net.conn_id c ]} ∪ snd st)
  | EvSetFirstIP h t (Some b) => (<[(h, t) := b]> (fst st), snd st)
  | EvSetFirstIP h t None => (delete (h, t) (fst st), snd st)
  | EvClose c => (fst st, snd st ∖ {[ net.conn_id c ]})
  | _ => st
  end.

Definition replay (evs : list Event)
    (st : gmap (string * string) (list byte) * gset nat)
  : gmap (string * string) (list byte) * gset nat :=
  foldl (fun st ev => apply_event ev st) st evs.

(** [w'] is [w] after some more events, each of which satisfies [P]: the
    trace has grown, and the resolver's memory and the open set changed as
    the new events say. *)
Definition extends (P : Event -> Prop) (w w' : World) : Prop :=
  exists evs, trace w' = trace w ++ evs /\ Forall P evs /\
    replay evs (firstIP w, opened w) = (firstIP w', opened w').

(** Every dial of an event goes through the dialer [dd]: a direct dial is
    made by it, a SOCKS5 dial forwards to it. *)
Definition dialer_is (dd : direct) (ev : Event) : Prop :=
  match ev with
  | EvDial d _ _ _ => d = dd
  | EvSocksDial d _ _ _ => s5_forward d = dd
  | _ => True
  end.

(** Every dial of an event is a SOCKS5 dial through the dialer [d]: no
    direct dial, no other SOCKS5 dialer. *)
Definition socks_via (d : Socks5Dialer) (ev : Event) : Prop :=
  match ev with
  | EvDial _ _ _ _ => False
  | EvSocksDial d' _ _ _ => d' = d
  | _ => True
  end.

(** A world whose state is what its whole trace says. *)
Definition world_ok (w : World) : Prop :=
  replay (trace w) (∅, ∅) = (firstIP w, opened w).

Arguments log : simpl never.
Arguments note_open : simpl never.
Arguments set_firstIP : simpl never.
Arguments set_opened : simpl never.
Arguments FormatIP : simpl never.

(** ** Runs of the primitives *)

Section runs.
Context `{Env} {B : Type}.
Implicit Types (k : unit -> M World B) (w : World).

Lemma bind_direct_Dial ps n a (k : GoRes net.Conn -> M World B) w :
  bind (direct_Dial ps n a) k w =
  k (env_dial (trace w) ps n a)
    (note_open (env_dial (trace w) ps n a)
       (log (EvDial ps n a (env_dial (trace w) ps n a)) w)).
Proof. reflexivity. Qed.

Lemma bind_socks5_Dial d n a (k : GoRes net.Conn -> M World B) w :
  bind (socks5_Dial d n a) k w =
  k (env_socks5_dial (trace w) d n a)
    (note_open (env_socks5_dial (trace w) d n a)
       (log (EvSocksDial d n a (env_socks5_dial (trace w) d n a)) w)).
Proof. reflexivity. Qed.

Lemma bind_dns_LookupIP h t (k : list net.IP * option error -> M World B) w :
  bind (dns_LookupIP h t) k w =
  k (env_lookup (trace w) h t)
    (log (EvLookupIP h t (fst (env_lookup (trace w) h t))) w).
Proof. reflexivity. Qed.

Lemma bind_dns_GetFirstIP h t (k : net.IP -> M World B) w :
  bind (dns_GetFirstIP h t) k w =
  k (firstIP w !! (h, t)) (log (EvGetFirstIP h t (firstIP w !! (h, t))) w).
Proof. reflexivity. Qed.

Lemma bind_dns_SetFirstIP h t b k w :
  bind (dns_SetFirstIP h t (Some b)) k w =
  k tt (set_firstIP (<[(h, t) := b]> (firstIP w)) (log (EvSetFirstIP h t (Some b)) w)).
Proof. reflexivity. Qed.

Lemma bind_conn_Write c data (k : option error -> M World B) w :
  bind (conn_Write c data) k w =
  k (env_write (trace w) c data)
    (log (EvWrite c data (env_write (trace w) c data)) w).
Proof. reflexivity. Qed.

Lemma bind_conn_Read c cap (k : Z * list byte * option error -> M World B) w :
  bind (conn_Read c cap) k w =
  k (Z.of_nat (length (take cap (fst (env_read (trace w) c)))),
     fill_buffer cap (take cap (fst (env_read (trace w) c))),
     snd (env_read (trace w) c))
    (log (EvRead c (take cap (fst (env_read (trace w) c)))
            (snd (env_read (trace w) c))) w).
Proof. unfold bind, conn_Read. by destruct (env_read _ _). Qed.

Lemma bind_conn_Close c k w :
  bind (conn_Close c) k w =
  k tt (set_opened (opened w ∖ {[ net.conn_id c ]}) (log (EvClose c) w)).
Proof. reflexivity. Qed.

End runs.

(** Step a run: reassociate binds, run the primitive at the head and
    reduce the continuation. *)
Ltac run_step :=
  first
    [ rewrite bind_assoc | rewrite bind_ret_l | rewrite ret_run
    | rewrite panic_run
    | rewrite bind_direct_Dial | rewrite bind_socks5_Dial
    | rewrite bind_dns_LookupIP | rewrite bind_dns_GetFirstIP
    | rewrite bind_dns_SetFirstIP | rewrite bind_conn_Write
    | rewrite bind_conn_Read | rewrite bind_conn_Close
    | progress cbn beta iota zeta delta [fst snd] ].

(** The dials of a list of events: address and answer, in order. *)
Definition dials (evs : list Event) : list (string * GoRes net.Conn) :=
  omap (fun ev => match ev with
                  | EvDial _ _ a r => Some (a, r)
                  | _ => None
                  end) evs.

(** The SOCKS5 dials of a list of events: target and answer, in order. *)
Definition socks_dials (evs : list Event) : list (string * GoRes net.Conn) :=
  omap (fun ev => match ev with
                  | EvSocksDial _ _ a r => Some (a, r)
                  | _ => None
                  end) evs.

Ltac run := repeat run_step.

(** ** Lemmas *)

Lemma trace_log e w : trace (log e w) = trace w ++ [e].
Proof. reflexivity. Qed.

Lemma firstIP_log e w : firstIP (log e w) = firstIP w.
Proof. reflexivity. Qed.

Lemma opened_log e w : opened (log e w) = opened w.
Proof. reflexivity. Qed.

Lemma trace_set_firstIP m w : trace (set_firstIP m w) = trace w.
Proof. reflexivity. Qed.

Lemma trace_set_opened o w : trace (set_opened o w) = trace w.
Proof. reflexivity. Qed.

Lemma firstIP_set_firstIP m w : firstIP (set_firstIP m w) = m.
Proof. reflexivity. Qed.

Lemma firstIP_set_opened o w : firstIP (set_opened o w) = firstIP w.
Proof. reflexivity. Qed.

Lemma opened_set_firstIP m w : opened (set_firstIP m w) = opened w.
Proof. reflexivity. Qed.

Lemma opened_set_opened o w : opened (set_opened o w) = o.
Proof. reflexivity. Qed.

Lemma trace_note_open r w : trace (note_open r w) = trace w.
Proof. unfold note_open. by destruct (fst r). Qed.

Lemma firstIP_note_open r w : firstIP (note_open r w) = firstIP w.
Proof. unfold note_open. by destruct (fst r). Qed.

Lemma opened_note_open r w :
  opened (note_open r w) =
  match fst r with
  | Some c => {[ net.conn_id c ]} ∪ opened w
  | None => opened w
  end.
Proof. unfold note_open. by destruct (fst r). Qed.

#[export] Hint Rewrite trace_log firstIP_log opened_log trace_note_open
  firstIP_note_open trace_set_firstIP trace_set_opened firstIP_set_firstIP
  firstIP_set_opened opened_set_firstIP opened_set_opened : go.

Lemma stub_env_ok accept tunnel hosts response :
  @EnvOK (stub_env accept tunnel hosts response).
Proof. split; intros; simpl; by case_decide. Qed.

Lemma dials_app evs1 evs2 : dials (evs1 ++ evs2) = dials evs1 ++ dials evs2.
Proof. apply omap_app. Qed.

Lemma dials_EvDial d n a r evs : dials (EvDial d n a r :: evs) = (a, r) :: dials evs.
Proof. reflexivity. Qed.

Lemma dials_EvSetFirstIP h t ip : dials [EvSetFirstIP h t ip] = [].
Proof. reflexivity. Qed.

#[export] Hint Rewrite dials_app dials_EvDial dials_EvSetFirstIP : go.

Lemma socks_dials_app evs1 evs2 :
  socks_dials (evs1 ++ evs2) = socks_dials evs1 ++ socks_dials evs2.
Proof. apply omap_app. Qed.

Lemma socks_dials_EvSocksDial d n a r evs :
  socks_dials (EvSocksDial d n a r :: evs) = (a, r) :: socks_dials evs.
Proof. reflexivity. Qed.

Lemma socks_dials_EvSetFirstIP h t ip : socks_dials [EvSetFirstIP h t ip] = [].
Proof. reflexivity. Qed.

#[export] Hint Rewrite socks_dials_app socks_dials_EvSocksDial
  socks_dials_EvSetFirstIP : go.

(** ** Worlds only grow *)

Lemma replay_app evs1 evs2 st : replay (evs1 ++ evs2) st = replay evs2 (replay evs1 st).
Proof. apply foldl_app. Qed.

Section extends.
Context (P : Event -> Prop).

#[export] Instance extends_refl : Reflexive (extends P).
Proof. intros w. exists []. by rewrite app_nil_r. Qed.

#[export] Instance extends_trans : Transitive (extends P).
Proof.
  intros w1 w2 w3 (evs1 & Ht1 & HP1 & Hr1) (evs2 & Ht2 & HP2 & Hr2).
  exists (evs1 ++ evs2). rewrite Ht2, Ht1, app_assoc. split; [done|].
  split; [by apply Forall_app|]. by rewrite replay_app, Hr1.
Qed.

(** One more event. *)
Lemma extends_step ev w w1 w2 :
  extends P w w1 -> P ev -> trace w2 = trace w1 ++ [ev] ->
  apply_event ev (firstIP w1, opened w1) = (firstIP w2, opened w2) ->
  extends P w w2.
Proof.
  intros Hw HP Ht Ha. etrans; [done|]. exists [ev]. repeat split; auto.
Qed.

Lemma extends_dial d n a r w w1 :
  extends P w w1 -> P (EvDial d n a r) ->
  extends P w (note_open r (log (EvDial d n a r) w1)).
Proof.
  intros Hw HP. eapply extends_step; [done|done|by autorewrite with go|].
  by destruct r as [[c|] e].
Qed.

Lemma extends_socks_dial d n a r w w1 :
  extends P w w1 -> P (EvSocksDial d n a r) ->
  extends P w (note_open r (log (EvSocksDial d n a r) w1)).
Proof.
  intros Hw HP. eapply extends_step; [done|done|by autorewrite with go|].
  by destruct r as [[c|] e].
Qed.

Lemma extends_set_first h t b w w1 :
  extends P w w1 -> P (EvSetFirstIP h t (Some b)) ->
  extends P w (set_firstIP (<[(h, t) := b]> (firstIP w1))
                 (log (EvSetFirstIP h t (Some b)) w1)).
Proof. intros Hw HP. by eapply extends_step. Qed.

Lemma extends_close c w w1 :
  extends P w w1 -> P (EvClose c) ->
  extends P w (set_opened (opened w1 ∖ {[ net.conn_id c ]}) (log (EvClose c) w1)).
Proof. intros Hw HP. by eapply extends_step. Qed.

(** An event that changes neither the resolver nor the open set. *)
Lemma extends_log ev w w1 :
  extends P w w1 -> P ev -> (forall st, apply_event ev st = st) ->
  extends P w (log ev w1).
Proof. intros Hw HP Hn. eapply extends_step; [done|done|done|apply Hn]. Qed.

Lemma extends_prefix w w' : extends P w w' -> trace w `prefix_of` trace w'.
Proof. intros (evs & -> & _). by exists evs. Qed.

Lemma extends_world_ok w w' : extends P w w' -> world_ok w -> world_ok w'.
Proof.
  unfold world_ok. intros (evs & -> & _ & Hr) Hw. by rewrite replay_app, Hw.
Qed.

Lemma extends_events w w' :
  extends P w w' -> exists evs, trace w' = trace w ++ evs /\ Forall P evs.
Proof. intros (evs & ? & ? & _). eauto. Qed.

Lemma extends_mono (Q : Event -> Prop) w w' :
  (forall ev, P ev -> Q ev) -> extends P w w' -> extends Q w w'.
Proof.
  intros HPQ (evs & ? & HP & ?). exists evs. split_and!; [done| |done].
  by eapply Forall_impl.
Qed.

End extends.

Lemma socks_via_dialer_is d ev : socks_via d ev -> dialer_is (s5_forward d) ev.
Proof. destruct ev; simpl; by try intros ->. Qed.

#[export] Hint Resolve extends_dial extends_socks_dial extends_set_first
  extends_close : go.
#[export] Hint Extern 0 (extends _ ?w ?w) => reflexivity : go.
#[export] Hint Extern 2 (extends _ _ (log _ _)) =>
  apply extends_log; [| |by intros []] : go.
#[export] Hint Extern 0 (dialer_is _ _) => done : go.
#[export] Hint Extern 0 (socks_via _ _) => done : go.

Section format.
Context `{net.Lib}.

Lemma FormatIP_v4 ip port :
  net.To4 ip <> None -> FormatIP ip port = net.IP_String ip +:+ ":" +:+ port.
Proof. intros. unfold FormatIP. by rewrite decide_True. Qed.

Lemma FormatIP_v6 ip port :
  net.To4 ip = None ->
  FormatIP ip port = "[" +:+ net.IP_String ip +:+ "]:" +:+ port.
Proof. intros Hn. unfold FormatIP. rewrite decide_False; [done|]. by rewrite Hn; intros []. Qed.

End format.

Example stub_FormatIP_v4 :
  @FormatIP stub_lib (stub_ParseIP "10.0.0.1") "1080" = "10.0.0.1:1080".
Proof. vm_compute. reflexivity. Qed.

Example stub_SplitHostPort_ok :
  stub_SplitHostPort "proxy.example:8080" = ("proxy.example", "8080", None).
Proof. vm_compute. reflexivity. Qed.
