(* ===== verification/HostPort.v ===== *)
(** * HostPort: the text of network addresses

    [Dial] splits its two addresses with [net.SplitHostPort] and builds the
    addresses it dials with [FormatIP].  This file gives Go's
    [net.SplitHostPort] and [net.JoinHostPort] as executable functions on
    strings, with the scanning functions they are written with
    ([IndexByte], [LastIndexByte], slices), and proves that what [FormatIP]
    builds splits back into the address and the port: the brackets
    [FormatIP] puts around an address that is not IPv4 are what makes the
    text splittable.  [go_lib] is [stub_lib] with this [SplitHostPort]. *)

From S2P Require Import Prelude Net.

(** ** Scanning a string *)

(** [strings.IndexByte(s, c)]: the position of the first [c], [None] for
    Go's [-1]. *)
Fixpoint IndexByte (s : string) (c : ascii) : option nat :=
  match s with
  | EmptyString => None
  | String x s' => if decide (x = c) then Some 0%nat else S <$> IndexByte s' c
  end.

(** [strings.LastIndexByte(s, c)]: the position of the last [c]. *)
Fixpoint LastIndexByte (s : string) (c : ascii) : option nat :=
  match s with
  | EmptyString => None
  | String x s' =>
      match LastIndexByte s' c with
      | Some i => Some (S i)
      | None => if decide (x = c) then Some 0%nat else None
      end
  end.

(** [s[n:]]; the slices of [SplitHostPort] are in range, out of range the
    result is the empty string where Go panics. *)
Fixpoint str_drop (n : nat) (s : string) : string :=
  match n, s with
  | O, _ => s
  | S n', String _ s' => str_drop n' s'
  | S _, EmptyString => EmptyString
  end.

(** [s[:n]]. *)
Fixpoint str_take (n : nat) (s : string) : string :=
  match n, s with
  | S n', String x s' => String x (str_take n' s')
  | _, _ => EmptyString
  end.

(** [s[i:j]]. *)
Definition slice (i j : nat) (s : string) : string :=
  str_take (j - i) (str_drop i s).

(** [c] does not occur in [s]. *)
Definition absent (c : ascii) (s : string) : Prop := IndexByte s c = None.

(** A text without colon and without bracket: a port, a host name or a
    dotted IPv4 address. *)
Definition clean (s : string) : Prop :=
  absent ":" s /\ absent "[" s /\ absent "]" s.

(** ** The functions of package net *)

Definition missingPort : string := "missing port in address".
Definition tooManyColons : string := "too many colons in address".

(** [&AddrError{Err: why, Addr: addr}], by its text. *)
Definition AddrError (why addr : string) : error :=
  LibError "net" ("address " +:+ addr +:+ ": " +:+ why).

(** [net.SplitHostPort]: the port starts after the last colon; a host in
    brackets ends at the first closing bracket, which comes just before
    that colon; a host without brackets has no colon; no other bracket
    anywhere. *)
Definition SplitHostPort (hostport : string) : string * string * option error :=
  let addrErr why := (EmptyString, EmptyString, Some (AddrError why hostport)) in
  match LastIndexByte hostport ":" with
  | None => addrErr missingPort
  | Some i =>
      let checked host (j k : nat) :=
        if bool_decide (IndexByte (str_drop j hostport) "[" <> None)
        then addrErr "unexpected '[' in address"
        else if bool_decide (IndexByte (str_drop k hostport) "]" <> None)
        then addrErr "unexpected ']' in address"
        else (host, str_drop (i + 1) hostport, None) in
      if bool_decide (String.get 0 hostport = Some "["%char)
      then
        match IndexByte hostport "]" with
        | None => addrErr "missing ']' in address"
        | Some end_ =>
            if bool_decide (end_ + 1 = String.length hostport)%nat
            then addrErr missingPort
            else if bool_decide (end_ + 1 = i)%nat
            then checked (slice 1 end_ hostport) 1%nat (end_ + 1)%nat
            else if bool_decide (String.get (end_ + 1) hostport = Some ":"%char)
            then addrErr tooManyColons
            else addrErr missingPort
        end
      else
        let host := str_take i hostport in
        if bool_decide (IndexByte host ":" <> None)
        then addrErr tooManyColons
        else checked host 0%nat 0%nat
  end.

(** [net.JoinHostPort]: brackets around a host that has a colon. *)
Definition JoinHostPort (host port : string) : string :=
  if bool_decide (IndexByte host ":" <> None)
  then "[" +:+ host +:+ "]:" +:+ port
  else host +:+ ":" +:+ port.

(** [addr] is an address on [port]: it splits, without error, into a host
    and that port. *)
Definition on_port (port addr : string) : Prop :=
  exists host, SplitHostPort addr = (host, port, None).

(** An address whose text can stand in [host:port]: no bracket in it, and
    no colon when it is IPv4. *)
Definition well_printed `{!net.Lib} (ip : net.IP) : Prop :=
  absent "[" (net.IP_String ip) /\ absent "]" (net.IP_String ip) /\
  (net.To4 ip <> None -> absent ":" (net.IP_String ip)).

(** [stub_lib] with Go's [SplitHostPort]. *)
Definition go_lib : net.Lib := {|
  net.SplitHostPort := SplitHostPort;
  net.ParseIP := stub_ParseIP;
  net.To4 := stub_To4;
  net.IP_String := stub_IP_String
|}.

(** ** Lemmas on scanning *)

Lemma length_append (s t : string) :
  String.length (s +:+ t) = (String.length s + String.length t)%nat.
Proof. induction s as [|x s IH]; simpl; [done|]. by rewrite <- IH. Qed.

Lemma str_take_app s t : str_take (String.length s) (s +:+ t) = s.
Proof. induction s as [|x s IH]; simpl; [done|]. by rewrite IH. Qed.

Lemma str_drop_app s t : str_drop (String.length s) (s +:+ t) = t.
Proof. induction s as [|x s IH]; simpl; done. Qed.

Lemma str_drop_app_add s t k :
  str_drop (String.length s + k) (s +:+ t) = str_drop k t.
Proof. induction s as [|x s IH]; simpl; done. Qed.

Lemma absent_cons c x s : absent c (String x s) <-> x <> c /\ absent c s.
Proof.
  unfold absent. simpl. case_decide; [split; [done|tauto]|].
  destruct (IndexByte s c); simpl; [split; [done|by intros [_ ?]]|done].
Qed.

Lemma absent_app c s t : absent c (s +:+ t) <-> absent c s /\ absent c t.
Proof.
  induction s as [|x s IH]; [unfold absent at 2; simpl; tauto|].
  change (String x s +:+ t) with (String x (s +:+ t)).
  rewrite !absent_cons, IH. tauto.
Qed.

Lemma IndexByte_app_absent c s t :
  absent c s ->
  IndexByte (s +:+ t) c = (fun i => (String.length s + i)%nat) <$> IndexByte t c.
Proof.
  induction s as [|x s IH]; [intros _; change ("" +:+ t) with t; by destruct (IndexByte t c)|].
  intros [Hx Hs]%absent_cons.
  change (String x s +:+ t) with (String x (s +:+ t)). cbn [IndexByte].
  rewrite decide_False, IH by done. by destruct (IndexByte t c).
Qed.

Lemma LastIndexByte_None c s : LastIndexByte s c = None <-> absent c s.
Proof.
  induction s as [|x s IH]; [done|]. rewrite absent_cons, <- IH. simpl.
  destruct (LastIndexByte s c); [split; [done|by intros [_ ?]]|].
  case_decide; split; try done; by intros [? _].
Qed.

Lemma LastIndexByte_app c s t i :
  LastIndexByte t c = Some i ->
  LastIndexByte (s +:+ t) c = Some (String.length s + i)%nat.
Proof.
  intros Ht. induction s as [|x s IH]; [done|].
  change (String x s +:+ t) with (String x (s +:+ t)). cbn [LastIndexByte].
  by rewrite IH.
Qed.

(** The colon before a port without colon is the last one. *)
Lemma LastIndexByte_port s port :
  absent ":" port ->
  LastIndexByte (s +:+ ":" +:+ port) ":" = Some (String.length s).
Proof.
  intros Hp%LastIndexByte_None.
  rewrite (LastIndexByte_app _ _ _ 0); [f_equal; lia|].
  change (":" +:+ port) with (String ":" port). cbn [LastIndexByte].
  by rewrite Hp.
Qed.

Lemma get_0_absent c s : absent c s -> String.get 0 s <> Some c.
Proof. destruct s as [|x s]; [done|]. intros [? _]%absent_cons. simpl. congruence. Qed.

Lemma absent_IndexByte c s : absent c s -> bool_decide (IndexByte s c <> None) = false.
Proof. intros Hs. by rewrite bool_decide_eq_false, Hs; intros []. Qed.

Lemma present_IndexByte c s i :
  IndexByte s c = Some i -> bool_decide (IndexByte s c <> None) = true.
Proof. intros Hs. by rewrite bool_decide_eq_true, Hs. Qed.

Lemma clean_app s t : clean (s +:+ t) <-> clean s /\ clean t.
Proof. unfold clean. rewrite !absent_app. tauto. Qed.

(** ** Splitting what was joined *)

Section split.
Implicit Types (host port : string).

(** A host without colon or bracket before a port: the text splits at its
    one colon. *)
Lemma SplitHostPort_plain host port :
  clean host -> clean port ->
  SplitHostPort (host +:+ ":" +:+ port) = (host, port, None).
Proof.
  intros (Hh & Hho & Hhc) (Hp & Hpo & Hpc).
  assert (absent "[" (host +:+ ":" +:+ port)) as Ho by by rewrite !absent_app.
  assert (absent "]" (host +:+ ":" +:+ port)) as Hc by by rewrite !absent_app.
  unfold SplitHostPort.
  rewrite LastIndexByte_port by done. cbn zeta.
  rewrite bool_decide_eq_false_2 by by apply get_0_absent.
  rewrite str_take_app, !absent_IndexByte by done.
  by rewrite str_drop_app_add.
Qed.

(** The text of a host in brackets before a port, and where its marks
    are. *)
Definition bracketed host port : string := "[" +:+ host +:+ "]:" +:+ port.

Lemma bracketed_cons host port :
  bracketed host port = String "[" (host +:+ String "]" (String ":" port)).
Proof. done. Qed.

Lemma bracketed_port host port :
  bracketed host port = ("[" +:+ host +:+ "]") +:+ ":" +:+ port.
Proof.
  unfold bracketed. change ("]:" +:+ port) with ("]" +:+ ":" +:+ port).
  by rewrite !append_assoc.
Qed.

Lemma bracketed_length host port :
  String.length (bracketed host port) =
  (String.length host + 3 + String.length port)%nat.
Proof. rewrite bracketed_cons. simpl. rewrite length_append. simpl. lia. Qed.

Lemma bracketed_colon host port :
  absent ":" port ->
  LastIndexByte (bracketed host port) ":" = Some (String.length host + 2)%nat.
Proof.
  intros Hp. rewrite bracketed_port, LastIndexByte_port by done.
  change ("[" +:+ host +:+ "]") with (String "[" (host +:+ "]")).
  simpl. rewrite length_append. simpl. f_equal. lia.
Qed.

Lemma bracketed_close host port :
  absent "]" host ->
  IndexByte (bracketed host port) "]" = Some (String.length host + 1)%nat.
Proof.
  intros Hc. rewrite bracketed_cons. cbn [IndexByte].
  rewrite decide_False, IndexByte_app_absent by done.
  cbn [IndexByte]. rewrite decide_True by done. simpl. f_equal. lia.
Qed.

Lemma bracketed_drop host port k :
  str_drop (String.length host + S k) (bracketed host port) =
  str_drop k ("]:" +:+ port).
Proof.
  rewrite bracketed_cons. replace (String.length host + S k)%nat
    with (S (String.length host + k)) by lia.
  cbn [str_drop]. by rewrite str_drop_app_add.
Qed.

(** A host in brackets: the host may hold colons, the text splits after
    the closing bracket. *)
Lemma SplitHostPort_bracketed host port :
  absent "[" host -> absent "]" host -> clean port ->
  SplitHostPort (bracketed host port) = (host, port, None).
Proof.
  intros Ho Hc (Hp & Hpo & Hpc). unfold SplitHostPort.
  rewrite bracketed_colon, bracketed_close by done. cbn zeta.
  rewrite bool_decide_eq_true_2 by done.
  rewrite bool_decide_eq_false_2 by (rewrite bracketed_length; lia).
  rewrite bool_decide_eq_true_2 by lia.
  replace (String.length host + 1 + 1)%nat with (String.length host + 2)%nat by lia.
  replace (String.length host + 2 + 1)%nat with (String.length host + 3)%nat by lia.
  rewrite !bracketed_drop. unfold slice.
  replace (String.length host + 1 - 1)%nat with (String.length host) by lia.
  change (str_drop 1 (bracketed host port)) with (host +:+ "]:" +:+ port).
  change ("]:" +:+ port) with (String "]" (String ":" port)). cbn [str_drop].
  rewrite str_take_app, !absent_IndexByte;
    [done|rewrite ?absent_app, ?absent_cons; by split_and!..].
Qed.

(** [SplitHostPort] undoes [JoinHostPort] on every host without bracket. *)
Lemma SplitHostPort_JoinHostPort host port :
  absent "[" host -> absent "]" host -> clean port ->
  SplitHostPort (JoinHostPort host port) = (host, port, None).
Proof.
  intros Ho Hc Hp. unfold JoinHostPort. case_bool_decide as Hcolon.
  - by apply SplitHostPort_bracketed.
  - apply SplitHostPort_plain; [|done]. split_and!; [|done..].
    unfold absent. by destruct (IndexByte host ":"); [destruct Hcolon|].
Qed.

(** A colon in a host that has no brackets is refused. *)
Lemma SplitHostPort_unbracketed host port c :
  String.get 0 host = Some c -> c <> "["%char ->
  ~ absent ":" host -> absent ":" port ->
  SplitHostPort (host +:+ ":" +:+ port) =
  ("", "", Some (AddrError tooManyColons (host +:+ ":" +:+ port))).
Proof.
  intros Hc Hne Hh Hp. unfold SplitHostPort.
  rewrite LastIndexByte_port by done. cbn zeta.
  rewrite bool_decide_eq_false_2; last first.
  { destruct host; [done|]. simpl in *. congruence. }
  rewrite str_take_app. by rewrite bool_decide_eq_true_2.
Qed.

(** No colon at all: the port is missing. *)
Lemma SplitHostPort_missing_port s :
  absent ":" s -> SplitHostPort s = ("", "", Some (AddrError missingPort s)).
Proof. intros Hs%LastIndexByte_None. unfold SplitHostPort. by rewrite Hs. Qed.

End split.

(** ** What [FormatIP] builds *)

Section format_split.
Context `{!net.Lib}.
Implicit Types (ip : net.IP) (port : string).

(** [FormatIP] is [net.JoinHostPort] on the text of the address when the
    addresses printed without colon are exactly the IPv4 ones. *)
Lemma FormatIP_JoinHostPort ip port :
  (net.To4 ip <> None <-> absent ":" (net.IP_String ip)) ->
  FormatIP ip port = JoinHostPort (net.IP_String ip) port.
Proof.
  intros Hv. unfold FormatIP, JoinHostPort, absent in *.
  case_decide; case_bool_decide; tauto.
Qed.

(** What [FormatIP] builds is an address on the port given. *)
Lemma FormatIP_on_port ip port :
  well_printed ip -> clean port -> on_port port (FormatIP ip port).
Proof.
  intros (Ho & Hc & Hv) Hp. exists (net.IP_String ip). unfold FormatIP.
  case_decide; [by apply SplitHostPort_plain; [split_and!; auto|]|].
  by apply SplitHostPort_bracketed.
Qed.

(** C23: what [FormatIP] builds splits back into the text of the address and
    the port: for an address printed without bracket, and without colon when
    it is IPv4, and a port without colon or bracket, [net.SplitHostPort] of
    [FormatIP ip port] is the pair, without error. *)
Theorem FormatIP_SplitHostPort ip port :
  well_printed ip -> clean port ->
  SplitHostPort (FormatIP ip port) = (net.IP_String ip, port, None).
Proof.
  intros (Ho & Hc & Hv) Hp. unfold FormatIP. case_decide as H4.
  - by apply SplitHostPort_plain; [split_and!; auto|].
  - by apply SplitHostPort_bracketed.
Qed.

End format_split.

(** ** Concrete addresses *)

Example SplitHostPort_v6_example :
  SplitHostPort "[fe80::1]:1080" = ("fe80::1", "1080", None)
  /\ SplitHostPort "fe80::1:1080" =
     ("", "", Some (AddrError tooManyColons "fe80::1:1080"))
  /\ SplitHostPort "[fe80::1]" = ("", "", Some (AddrError missingPort "[fe80::1]"))
  /\ SplitHostPort "proxy.example" =
     ("", "", Some (AddrError missingPort "proxy.example"))
  /\ SplitHostPort "proxy.example:8080" = ("proxy.example", "8080", None).
Proof. by vm_compute. Qed.

Lemma FormatIP_SplitHostPort_witness :
  SplitHostPort (@FormatIP go_lib (stub_ParseIP "10.0.0.1") "1080") =
  ("10.0.0.1", "1080", None).
Proof.
  apply (@FormatIP_SplitHostPort go_lib (stub_ParseIP "10.0.0.1") "1080");
    [split_and!; [| |intros _]|]; by vm_compute.
Defined.
