(* ===== verification/Base64.v ===== *)
(** * Base64: [encoding/base64], the standard encoding with padding

    [EncodeToString] is what Proxy.go calls on [user:pass] to build the
    [Authorization] header of the CONNECT request.  The encoder works on
    groups of three bytes as the Go encoder does; [DecodeString] is its
    inverse on well-formed text.  Sextets are numbers below 64 held in [Z]. *)

From S2P Require Import Prelude.

Module base64.

(** [encodeStd]: the alphabet of the standard encoding. *)
Definition encodeStd : string :=
  "ABCDEFGHIJKLMNOPQRSTUVWXYZabcdefghijklmnopqrstuvwxyz0123456789+/".

(** [StdPadding]. *)
Definition StdPadding : ascii := "="%char.

(** The character of a sextet. *)
Definition enc (n : Z) : ascii :=
  default StdPadding (String.get (Z.to_nat n) encodeStd).

(** The sextet of a character of the alphabet. *)
Definition dec (c : ascii) : option Z :=
  let n := Z.of_N (N_of_ascii c) in
  if (65 <=? n) && (n <=? 90) then Some (n - 65)
  else if (97 <=? n) && (n <=? 122) then Some (n - 71)
  else if (48 <=? n) && (n <=? 57) then Some (n + 4)
  else if n =? 43 then Some 62
  else if n =? 47 then Some 63
  else None.

(** The value of a byte. *)
Definition val (b : byte) : Z := Z.of_N (Byte.to_N b).

(** The 24-bit group of three bytes: [a<<16 | b<<8 | c]. *)
Definition group (a b c : byte) : Z := val a * 65536 + val b * 256 + val c.

(** [StdEncoding.EncodeToString]: four characters per group of three
    bytes, a last group of one or two bytes padded with [=]. *)
Fixpoint EncodeToString (src : list byte) : string :=
  match src with
  | [] => ""
  | [a] =>
      let v := group a x00 x00 in
      String (enc (v / 262144)) (String (enc (v / 4096 mod 64))
        (String StdPadding (String StdPadding "")))
  | [a; b] =>
      let v := group a b x00 in
      String (enc (v / 262144)) (String (enc (v / 4096 mod 64))
        (String (enc (v / 64 mod 64)) (String StdPadding "")))
  | a :: b :: c :: rest =>
      let v := group a b c in
      String (enc (v / 262144)) (String (enc (v / 4096 mod 64))
        (String (enc (v / 64 mod 64)) (String (enc (v mod 64))
          (EncodeToString rest))))
  end.

(** The byte of the low eight bits of a number. *)
Definition byte_of (n : Z) : byte :=
  default x00 (Byte.of_N (Z.to_N (n mod 256))).

(** The three bytes of four sextets. *)
Definition ungroup (s1 s2 s3 s4 : Z) : list byte :=
  let v := s1 * 262144 + s2 * 4096 + s3 * 64 + s4 in
  [byte_of (v / 65536); byte_of (v / 256); byte_of v].

(** [StdEncoding.DecodeString] on text without line breaks: [None] for
    text that no input encodes to. *)
Fixpoint DecodeString (s : string) : option (list byte) :=
  match s with
  | EmptyString => Some []
  | String c1 (String c2 (String c3 (String c4 rest))) =>
      s1 ← dec c1; s2 ← dec c2;
      if decide (c3 = StdPadding /\ c4 = StdPadding /\ rest = "") then
        if decide (s2 mod 16 = 0) then Some (take 1 (ungroup s1 s2 0 0)) else None
      else
        s3 ← dec c3;
        if decide (c4 = StdPadding /\ rest = "") then
          if decide (s3 mod 4 = 0) then Some (take 2 (ungroup s1 s2 s3 0)) else None
        else
          s4 ← dec c4; tl ← DecodeString rest; Some (ungroup s1 s2 s3 s4 ++ tl)
  | _ => None
  end.

(** Induction on a list three elements at a time. *)
Lemma list_ind3 {A} (P : list A -> Prop) :
  P [] -> (forall a, P [a]) -> (forall a b, P [a; b]) ->
  (forall a b c l, P l -> P (a :: b :: c :: l)) ->
  forall l, P l.
Proof.
  intros H0 H1 H2 H3.
  enough (forall l, P l /\ (forall a, P (a :: l)) /\ (forall a b, P (a :: b :: l)))
    as Hall by (intros l; apply Hall).
  induction l as [|x l (IH0 & IH1 & IH2)]; [by auto|].
  repeat split; auto.
Qed.

(** ** Lemmas *)

Ltac zdm := Z.div_mod_to_equations; lia.

Lemma dec_enc n : 0 <= n < 64 -> dec (enc n) = Some n.
Proof.
  intros Hn.
  assert (Forall (fun k => dec (enc (Z.of_nat k)) = Some (Z.of_nat k)) (seq 0 64))
    as Hall by (refine (bool_decide_unpack _ _); by vm_compute).
  rewrite Forall_forall in Hall.
  rewrite <- (Z2Nat.id n) by lia. apply Hall, elem_of_seq. lia.
Qed.

Lemma enc_not_padding n : 0 <= n < 64 -> enc n <> StdPadding.
Proof.
  intros Hn E. pose proof (dec_enc n Hn) as Hd. rewrite E in Hd. discriminate.
Qed.

Lemma val_range b : 0 <= val b < 256.
Proof. unfold val. pose proof (Byte.to_N_bounded b). lia. Qed.

Lemma byte_of_val b : byte_of (val b) = b.
Proof.
  unfold byte_of. rewrite Z.mod_small by apply val_range.
  unfold val. by rewrite N2Z.id, Byte.of_to_N.
Qed.

Lemma byte_of_mod n : byte_of (n mod 256) = byte_of n.
Proof. unfold byte_of. by rewrite Z.mod_mod. Qed.

Lemma group_range a b c : 0 <= group a b c < 16777216.
Proof.
  unfold group. pose proof (val_range a). pose proof (val_range b).
  pose proof (val_range c). lia.
Qed.

(** The four sextets of a number below [2^24] add up to it. *)
Lemma sextets_sum v :
  v / 262144 * 262144 + v / 4096 mod 64 * 4096 + v / 64 mod 64 * 64 + v mod 64 = v.
Proof. zdm. Qed.

Lemma sextet_range v k : 0 <= v / k mod 64 < 64.
Proof. apply Z.mod_pos_bound. lia. Qed.

Lemma low_sextet_range v : 0 <= v mod 64 < 64.
Proof. apply Z.mod_pos_bound. lia. Qed.

Lemma top_sextet_range a b c : 0 <= group a b c / 262144 < 64.
Proof. pose proof (group_range a b c). zdm. Qed.

(** The bytes of a group. *)
Lemma group_bytes a b c :
  let v := group a b c in
  [byte_of (v / 65536); byte_of (v / 256); byte_of v] = [a; b; c].
Proof.
  intros v. subst v. unfold group.
  pose proof (val_range a). pose proof (val_range b). pose proof (val_range c).
  set (v := val a * 65536 + val b * 256 + val c).
  assert (v / 65536 = val a) as -> by (subst v; zdm).
  assert (v / 256 mod 256 = val b) as E2 by (subst v; zdm).
  assert (v mod 256 = val c) as E3 by (subst v; zdm).
  by rewrite <- (byte_of_mod (v / 256)), <- (byte_of_mod v), E2, E3, !byte_of_val.
Qed.

(** Four sextets of a group give the three bytes back. *)
Lemma ungroup_group a b c :
  let v := group a b c in
  ungroup (v / 262144) (v / 4096 mod 64) (v / 64 mod 64) (v mod 64) = [a; b; c].
Proof. intros v. unfold ungroup. rewrite sextets_sum. apply group_bytes. Qed.

(** A last group of one byte has two zero sextets and four spare bits. *)
Lemma group_pad1 a :
  let v := group a x00 x00 in
  v / 64 mod 64 = 0 /\ v mod 64 = 0 /\ v / 4096 mod 64 mod 16 = 0.
Proof.
  intros v. subst v. unfold group. change (val x00) with 0.
  pose proof (val_range a). repeat split; zdm.
Qed.

(** A last group of two bytes has one zero sextet and two spare bits. *)
Lemma group_pad2 a b :
  let v := group a b x00 in v mod 64 = 0 /\ v / 64 mod 64 mod 4 = 0.
Proof.
  intros v. subst v. unfold group. change (val x00) with 0.
  pose proof (val_range a). pose proof (val_range b). split; zdm.
Qed.

(** Decoding the first two characters of an encoded group. *)
Lemma dec_enc_head a b c (k : Z -> Z -> option (list byte)) :
  let v := group a b c in
  (dec (enc (v / 262144)) ≫= fun s1 => dec (enc (v / 4096 mod 64)) ≫= k s1) =
  k (v / 262144) (v / 4096 mod 64).
Proof.
  intros v. subst v.
  rewrite (dec_enc (_ / 262144)) by apply top_sextet_range.
  rewrite (dec_enc (_ mod 64)) by apply sextet_range.
  reflexivity.
Qed.

(** [DecodeString] inverts [EncodeToString]. *)
Lemma DecodeString_EncodeToString src :
  DecodeString (EncodeToString src) = Some src.
Proof.
  induction src as [|a|a b|a b c l IH] using list_ind3; [done|..];
    cbn [EncodeToString DecodeString]; rewrite dec_enc_head.
  - destruct (group_pad1 a) as (E3 & E4 & E2).
    rewrite decide_True, decide_True by done.
    rewrite <- E3 at 1. rewrite <- E4 at 1. by rewrite ungroup_group.
  - destruct (group_pad2 a b) as (E4 & E3).
    rewrite decide_False by (intros [E _]; revert E; apply enc_not_padding, sextet_range).
    rewrite (dec_enc (_ / 64 mod 64)) by apply sextet_range.
    cbn [mbind option_bind].
    rewrite decide_True, decide_True by done.
    rewrite <- E4 at 1. by rewrite ungroup_group.
  - rewrite decide_False by (intros [E _]; revert E; apply enc_not_padding, sextet_range).
    rewrite (dec_enc (_ / 64 mod 64)) by apply sextet_range.
    cbn [mbind option_bind].
    rewrite decide_False by (intros [E _]; revert E; apply enc_not_padding, low_sextet_range).
    rewrite dec_enc by apply low_sextet_range. cbn [mbind option_bind].
    by rewrite IH, ungroup_group.
Qed.

(** The encoding of [n] bytes has [4 * ceil(n / 3)] characters. *)
Lemma EncodeToString_length src :
  Z.of_nat (String.length (EncodeToString src)) =
  4 * ((Z.of_nat (length src) + 2) / 3).
Proof.
  induction src as [|a|a b|a b c l IH] using list_ind3; try done.
  cbn [EncodeToString String.length length].
  rewrite !Nat2Z.inj_succ, IH. zdm.
Qed.

Example EncodeToString_rfc4648 :
  EncodeToString (bytes_of_string "foobar") = "Zm9vYmFy" /\
  EncodeToString (bytes_of_string "fooba") = "Zm9vYmE=" /\
  EncodeToString (bytes_of_string "foob") = "Zm9vYg==" /\
  EncodeToString (bytes_of_string "user:pass") = "dXNlcjpwYXNz".
Proof. by vm_compute. Qed.

Example DecodeString_rfc4648 :
  DecodeString "Zm9vYmE=" = Some (bytes_of_string "fooba") /\
  DecodeString "Zm9vYg==" = Some (bytes_of_string "foob") /\
  DecodeString "Zm9vYg=" = None.
Proof. by vm_compute. Qed.

End base64.
