(* ===== verification/Proxy.v ===== *)
(** * Proxy: the proxy descriptor of Proxy.go

    The struct [Proxy] and its constructor and accessors: [ParseProxy],
    [IsSocksType], [Proxy_String] (the method [String]), [User], [Pass],
    [Clone], [SetTimeout], [getTimeout] and [getSocksAuth].  A receiver
    [p *Proxy] is an [option Proxy]; the embedded [*url.URL] is the field
    [URL], an [option] as well.  The URL library is the interface [url.Lib].

    [proxy_ok] is the invariant of a descriptor that [ParseProxy] returns.
    The theorems give the result of [ParseProxy] on every branch, the
    invariant and its preservation, the timeout arithmetic at 64 bits and
    the behaviour of every accessor on nil and unset receivers.

    The tactics [drun] and [walk], which run a computation of the dialer
    step by step, are declared here, after the rewriting rules of the
    setters they use. *)

From S2P Require Import Prelude Url Net.

(** [tls.Config], by the two fields Proxy.go sets: the capacity of the
    client session cache and the switch that turns certificate checks
    off. *)
Record tls_Config : Type := mk_tls_Config {
  ClientSessionCache : nat;
  InsecureSkipVerify : bool
}.

(** [var dnsConfig]: a session cache of 32 entries, no certificate check.
    No function of Proxy.go reads it. *)
Definition dnsConfig : tls_Config := mk_tls_Config 32 true.

(** [var invalidProxy = fmt.Errorf("invalid host")]. *)
Definition invalidProxy : error := Errorf "invalid host" [].

(** [type Proxy struct]. *)
Record Proxy : Type := mkProxy {
  URL : option url.URL;
  timeout : time.Duration;
  Regexp : option (string -> bool);
  DialAddr : string
}.

(** [&Proxy{}]. *)
Definition zero_Proxy : Proxy := mkProxy None 0 None "".

Definition set_timeout (d : time.Duration) (p : Proxy) : Proxy :=
  mkProxy (URL p) d (Regexp p) (DialAddr p).

Definition set_DialAddr (a : string) (p : Proxy) : Proxy :=
  mkProxy (URL p) (timeout p) (Regexp p) a.

Definition set_Regexp (f : option (string -> bool)) (p : Proxy) : Proxy :=
  mkProxy (URL p) (timeout p) f (DialAddr p).

(** The seven spellings [ParseProxy] accepts, and the five it rewrites. *)
Definition accepted_schemes : list string :=
  ["http"; "https"; "socket"; "sock"; "socket5"; "socks5"; "socks"].

Definition socks_schemes : list string :=
  ["socket"; "sock"; "socket5"; "socks5"; "socks"].

(** The timeout [ParseProxy] stores: 30 seconds, or the first optional
    argument as milliseconds, multiplied at 64 bits. *)
Definition parse_timeout (timeout : list Z) : time.Duration :=
  match timeout with
  | t0 :: _ => time.mul t0 time.Millisecond
  | [] => 30 * time.Second
  end.

(** The scheme rewrite of [ParseProxy]. *)
Definition normalize_scheme (U : url.URL) : url.URL :=
  let Scheme := ToLower (url.Scheme U) in
  if bool_decide (Scheme = "socket" \/ Scheme = "sock" \/ Scheme = "socket5" \/
                  Scheme = "socks5" \/ Scheme = "socks")
  then url.set_Scheme "socks5" U
  else U.

Section descriptor.
Context `{url.Lib}.

(** [func ParseProxy(u string, timeout ...int)], returning [*Proxy] and
    [error]. *)
Definition ParseProxy (u : string) (timeout : list Z) : GoRes Proxy :=
  let '(U, err) := url.Parse u in
  match err with
  | Some e => (None, Some e)
  | None =>
      match U with
      | None => (None, Some invalidProxy)
      | Some U =>
          let Scheme := ToLower (url.Scheme U) in
          if bool_decide (Scheme <> "http" /\ Scheme <> "https" /\
                          Scheme <> "socket" /\ Scheme <> "sock" /\
                          Scheme <> "socket5" /\ Scheme <> "socks5" /\
                          Scheme <> "socks")
          then (None, Some (Errorf "invalid scheme: %s" [url.Scheme U]))
          else
            let U := normalize_scheme U in
            if bool_decide (String.length (url.Host U) < 3)%nat
            then (None, Some invalidProxy)
            else (Some (mkProxy (Some U) (parse_timeout timeout) None ""), err)
      end
  end.

(** [func (p *Proxy) IsSocksType() bool]. *)
Definition IsSocksType (p : option Proxy) : bool :=
  match p with
  | None => false
  | Some p =>
      match URL p with
      | None => false
      | Some U => bool_decide (url.Scheme U = "socks5")
      end
  end.

(** [func (p *Proxy) String() string]. *)
Definition Proxy_String (p : option Proxy) : string :=
  match p with
  | None => ""
  | Some p =>
      match URL p with
      | None => ""
      | Some U => url.String U
      end
  end.

(** [func (p *Proxy) User() string]. *)
Definition User (p : option Proxy) : string :=
  match p with
  | None => ""
  | Some p =>
      match URL p with
      | None => ""
      | Some U =>
          match url.User U with
          | None => ""
          | Some ui => url.Username (Some ui)
          end
      end
  end.

(** [func (p *Proxy) Pass() string]. *)
Definition Pass (p : option Proxy) : string :=
  match p with
  | None => ""
  | Some p =>
      match URL p with
      | None => ""
      | Some U =>
          match url.User U with
          | None => ""
          | Some ui => fst (url.Password (Some ui))
          end
      end
  end.

(** [func (p *Proxy) Clone() *Proxy]. *)
Definition Clone (p : option Proxy) : option Proxy :=
  match p with
  | None => None
  | Some p =>
      match URL p with
      | None => None
      | Some U =>
          if bool_decide (String.length (url.Host U) < 3)%nat then None
          else Some (mkProxy (fst (url.Parse (url.String U)))
                             (timeout p) (Regexp p) (DialAddr p))
      end
  end.

(** [func (p *Proxy) SetTimeout(d time.Duration)]: the receiver after the
    call. *)
Definition SetTimeout (p : option Proxy) (d : time.Duration) : option Proxy :=
  match p with
  | None => None
  | Some p => Some (set_timeout d p)
  end.

(** [func (p *Proxy) getTimeout() time.Duration]. *)
Definition getTimeout (p : option Proxy) : time.Duration :=
  match p with
  | None => 15 * time.Second
  | Some p =>
      if bool_decide (timeout p = 0) then 15 * time.Second else timeout p
  end.

(** [func (p *Proxy) getSocksAuth() *proxy.Auth]. *)
Definition getSocksAuth (p : option Proxy) : option proxy.Auth :=
  if bool_decide (User p = "") then None
  else Some (proxy.mkAuth (User p) (Pass p)).

(** The invariant of a parsed descriptor. *)
Definition proxy_ok (p : Proxy) : Prop :=
  exists U, URL p = Some U /\
    (3 <= String.length (url.Host U))%nat /\
    ToLower (url.Scheme U) ∈ ["http"; "https"; "socks5"] /\
    in_int64 (timeout p).

End descriptor.

Arguments set_timeout : simpl never.
Arguments set_DialAddr : simpl never.
Arguments set_Regexp : simpl never.

(** ** Lemmas on field assignment *)

Lemma URL_set_DialAddr a p : URL (set_DialAddr a p) = URL p.
Proof. reflexivity. Qed.

Lemma timeout_set_DialAddr a p : timeout (set_DialAddr a p) = timeout p.
Proof. reflexivity. Qed.

Lemma Regexp_set_DialAddr a p : Regexp (set_DialAddr a p) = Regexp p.
Proof. reflexivity. Qed.

Lemma DialAddr_set_DialAddr a p : DialAddr (set_DialAddr a p) = a.
Proof. reflexivity. Qed.

Lemma set_DialAddr_twice a b p : set_DialAddr a (set_DialAddr b p) = set_DialAddr a p.
Proof. reflexivity. Qed.

Lemma URL_set_timeout d p : URL (set_timeout d p) = URL p.
Proof. reflexivity. Qed.

Lemma timeout_set_timeout d p : timeout (set_timeout d p) = d.
Proof. reflexivity. Qed.

Lemma Regexp_set_timeout d p : Regexp (set_timeout d p) = Regexp p.
Proof. reflexivity. Qed.

Lemma DialAddr_set_timeout d p : DialAddr (set_timeout d p) = DialAddr p.
Proof. reflexivity. Qed.

#[export] Hint Rewrite URL_set_DialAddr timeout_set_DialAddr Regexp_set_DialAddr
  DialAddr_set_DialAddr set_DialAddr_twice URL_set_timeout timeout_set_timeout
  Regexp_set_timeout DialAddr_set_timeout : go.

(** Step a run of the dialer: [run], and the dialled address just
    assigned. *)
Ltac drun := repeat first [run_step | rewrite DialAddr_set_DialAddr].

(** Walk a run: step it and split on what the oracles and the guards
    answer, then close the goal with the hints of [go]. *)
Ltac walk := repeat first [progress drun | case_goal]; cbn [final returns];
  eauto 12 with go.

(** ** Lemmas on the guards of [ParseProxy] *)

Lemma accepted_guard (s : string) :
  (s <> "http" /\ s <> "https" /\ s <> "socket" /\ s <> "sock" /\
   s <> "socket5" /\ s <> "socks5" /\ s <> "socks") <-> s ∉ accepted_schemes.
Proof.
  unfold accepted_schemes. rewrite !not_elem_of_cons.
  pose proof (not_elem_of_nil s). tauto.
Qed.

Lemma socks_guard (s : string) :
  (s = "socket" \/ s = "sock" \/ s = "socket5" \/ s = "socks5" \/ s = "socks")
  <-> s ∈ socks_schemes.
Proof. unfold socks_schemes. rewrite !elem_of_cons, elem_of_nil. tauto. Qed.

Lemma accepted_split (s : string) :
  s ∈ accepted_schemes <-> s ∈ socks_schemes \/ s = "http" \/ s = "https".
Proof.
  unfold accepted_schemes, socks_schemes. rewrite !elem_of_cons, !elem_of_nil.
  tauto.
Qed.

Lemma normalize_scheme_socks U :
  ToLower (url.Scheme U) ∈ socks_schemes ->
  normalize_scheme U = url.set_Scheme "socks5" U.
Proof.
  intros Hs. unfold normalize_scheme.
  rewrite bool_decide_eq_true_2; [done|]. by apply socks_guard.
Qed.

Lemma normalize_scheme_other U :
  ToLower (url.Scheme U) ∉ socks_schemes -> normalize_scheme U = U.
Proof.
  intros Hs. unfold normalize_scheme.
  rewrite bool_decide_eq_false_2; [done|]. by rewrite socks_guard.
Qed.

Lemma normalize_scheme_Host U : url.Host (normalize_scheme U) = url.Host U.
Proof. unfold normalize_scheme. by case_bool_decide. Qed.

Lemma normalize_scheme_User U : url.User (normalize_scheme U) = url.User U.
Proof. unfold normalize_scheme. by case_bool_decide. Qed.

(** After the rewrite the scheme is [socks5] exactly for the SOCKS family. *)
Lemma normalize_scheme_is_socks U :
  url.Scheme (normalize_scheme U) = "socks5" <->
  ToLower (url.Scheme U) ∈ socks_schemes.
Proof.
  destruct (decide (ToLower (url.Scheme U) ∈ socks_schemes)) as [Hs|Hs].
  - by rewrite normalize_scheme_socks.
  - rewrite normalize_scheme_other by done. split; [|done].
    intros E. rewrite E in Hs. contradict Hs. by apply socks_guard; auto.
Qed.

Lemma normalize_scheme_lower U :
  ToLower (url.Scheme U) ∈ accepted_schemes ->
  ToLower (url.Scheme (normalize_scheme U)) ∈ ["http"; "https"; "socks5"].
Proof.
  intros Ha. destruct (decide (ToLower (url.Scheme U) ∈ socks_schemes)) as [Hs|Hs].
  - rewrite normalize_scheme_socks by done. simpl. rewrite !elem_of_cons. tauto.
  - rewrite normalize_scheme_other by done.
    apply accepted_split in Ha. rewrite !elem_of_cons. tauto.
Qed.

Lemma parse_timeout_in_int64 t : in_int64 (parse_timeout t).
Proof.
  destruct t as [|t0 t]; simpl; [|apply wrap64_range].
  by vm_compute.
Qed.

#[export] Hint Rewrite normalize_scheme_Host normalize_scheme_User : go.
#[export] Hint Resolve parse_timeout_in_int64 : go.

Section descriptor_facts.
Context `{url.Lib}.

(** The one equation behind every statement on a successful parse. *)
Lemma ParseProxy_accept u t U :
  url.Parse u = (Some U, None) ->
  ToLower (url.Scheme U) ∈ accepted_schemes ->
  (3 <= String.length (url.Host U))%nat ->
  ParseProxy u t =
    (Some (mkProxy (Some (normalize_scheme U)) (parse_timeout t) None ""), None).
Proof.
  intros HP Ha Hh. unfold ParseProxy. rewrite HP.
  rewrite bool_decide_eq_false_2 by (rewrite accepted_guard; tauto).
  rewrite normalize_scheme_Host.
  by rewrite bool_decide_eq_false_2 by lia.
Qed.

Lemma ParseProxy_inv u t p e :
  ParseProxy u t = (Some p, e) ->
  e = None /\ exists U, url.Parse u = (Some U, None) /\
    ToLower (url.Scheme U) ∈ accepted_schemes /\
    (3 <= String.length (url.Host U))%nat /\
    p = mkProxy (Some (normalize_scheme U)) (parse_timeout t) None "".
Proof.
  unfold ParseProxy. destruct (url.Parse u) as [[U|] [e'|]]; try done.
  case_bool_decide as Hs; [done|]. rewrite accepted_guard in Hs.
  rewrite normalize_scheme_Host. case_bool_decide as Hh; [done|].
  intros [= <- <-]. split; [done|]. exists U.
  repeat split; [by apply dec_stable|lia].
Qed.

(** C37: [ParseProxy] returns a descriptor or an error, never both and never
    neither, whatever the URL library returns. *)
Theorem ParseProxy_exclusive u t : exclusive (ParseProxy u t).
Proof.
  unfold ParseProxy. destruct (url.Parse u) as [[U|] [e|]]; simpl; try done.
  by repeat case_bool_decide.
Qed.

(** C9: [ParseProxy] succeeds exactly when the URL parses, its lower-cased
    scheme is one of the seven accepted spellings and its host has at least
    three bytes; the descriptor then holds the URL with the SOCKS family
    rewritten to [socks5], the parsed timeout, no bypass predicate and an
    empty dialled address. *)
Theorem ParseProxy_Some_iff u t p e :
  ParseProxy u t = (Some p, e) <->
  e = None /\ exists U, url.Parse u = (Some U, None) /\
    ToLower (url.Scheme U) ∈ accepted_schemes /\
    (3 <= String.length (url.Host U))%nat /\
    p = mkProxy (Some (normalize_scheme U)) (parse_timeout t) None "".
Proof.
  split; [apply ParseProxy_inv|].
  intros (-> & U & HP & Ha & Hh & ->). by apply ParseProxy_accept.
Qed.

(** C38: a scheme outside the seven spellings is rejected with the error
    [invalid scheme: %s] carrying the scheme as the URL spells it, before the
    host is looked at. *)
Theorem ParseProxy_invalid_scheme u t U :
  url.Parse u = (Some U, None) ->
  ToLower (url.Scheme U) ∉ accepted_schemes ->
  ParseProxy u t = (None, Some (Errorf "invalid scheme: %s" [url.Scheme U])).
Proof.
  intros HP Hs. unfold ParseProxy. rewrite HP.
  by rewrite bool_decide_eq_true_2 by (by apply accepted_guard).
Qed.

(** An accepted scheme with a host shorter than three bytes is rejected
    with [invalidProxy]. *)
Theorem ParseProxy_short_host u t U :
  url.Parse u = (Some U, None) ->
  ToLower (url.Scheme U) ∈ accepted_schemes ->
  (String.length (url.Host U) < 3)%nat ->
  ParseProxy u t = (None, Some invalidProxy).
Proof.
  intros HP Ha Hh. unfold ParseProxy. rewrite HP.
  rewrite bool_decide_eq_false_2 by (rewrite accepted_guard; tauto).
  rewrite normalize_scheme_Host. by rewrite bool_decide_eq_true_2.
Qed.

(** C10: every descriptor [ParseProxy] returns satisfies the invariant
    [proxy_ok]: a URL is set, its host has at least three bytes, its scheme
    lower-cases to http, https or socks5, and the timeout fits 64 bits. *)
Theorem ParseProxy_ok u t p e : ParseProxy u t = (Some p, e) -> proxy_ok p.
Proof.
  intros (_ & U & _ & Ha & Hh & ->)%ParseProxy_inv.
  exists (normalize_scheme U). simpl. rewrite normalize_scheme_Host.
  eauto using normalize_scheme_lower with go.
Qed.

(** A parsed descriptor is of SOCKS type exactly when the scheme of the
    URL lower-cases to one of the five SOCKS spellings; otherwise its scheme
    lower-cases to http or https. *)
Theorem ParseProxy_scheme_kind u t p e U :
  ParseProxy u t = (Some p, e) -> url.Parse u = (Some U, None) ->
  IsSocksType (Some p) = bool_decide (ToLower (url.Scheme U) ∈ socks_schemes) /\
  (IsSocksType (Some p) = false -> ToLower (url.Scheme U) ∈ ["http"; "https"]).
Proof.
  intros (_ & U' & HP & Ha & _ & ->)%ParseProxy_inv HP'.
  rewrite HP in HP'. simplify_eq/=.
  assert (bool_decide (url.Scheme (normalize_scheme U) = "socks5") =
          bool_decide (ToLower (url.Scheme U) ∈ socks_schemes)) as ->
    by apply bool_decide_ext, normalize_scheme_is_socks.
  split; [done|]. intros Hn%bool_decide_eq_false.
  apply accepted_split in Ha. rewrite !elem_of_cons. tauto.
Qed.

(** The credentials of a parsed descriptor are those of the URL: the
    scheme rewrite leaves them alone. *)
Theorem ParseProxy_credentials u t p e U :
  ParseProxy u t = (Some p, e) -> url.Parse u = (Some U, None) ->
  User (Some p) = url.Username (url.User U) /\
  Pass (Some p) = fst (url.Password (url.User U)).
Proof.
  intros (_ & U' & HP & _ & _ & ->)%ParseProxy_inv HP'.
  rewrite HP in HP'. simplify_eq/=.
  rewrite normalize_scheme_User. by destruct (url.User U).
Qed.

(** A descriptor parsed with no timeout argument dials with 30 seconds. *)
Theorem getTimeout_parsed_default u p e :
  ParseProxy u [] = (Some p, e) -> getTimeout (Some p) = 30 * time.Second.
Proof. by intros (_ & U & _ & _ & _ & ->)%ParseProxy_inv. Qed.

(** A descriptor parsed with the explicit timeout 0 dials with the
    read-time fallback of 15 seconds, not with 0 and not with the 30 seconds
    of construction. *)
Theorem getTimeout_explicit_zero u rest p e :
  ParseProxy u (0 :: rest) = (Some p, e) ->
  getTimeout (Some p) = 15 * time.Second.
Proof. by intros (_ & U & _ & _ & _ & ->)%ParseProxy_inv. Qed.

(** C39: [Clone] of a descriptor that satisfies the invariant, whose URL the
    library prints and parses back, is that descriptor: URL, timeout, bypass
    predicate and dialled address are all kept. *)
Theorem Clone_ok p U :
  proxy_ok p -> URL p = Some U -> url.roundtrips U -> Clone (Some p) = Some p.
Proof.
  intros (U' & HU & Hh & _) HU' Hr. assert (U' = U) as -> by congruence.
  unfold Clone. rewrite HU, bool_decide_eq_false_2 by lia.
  rewrite Hr. by destruct p; simplify_eq/=.
Qed.

(** [Clone] returns nil exactly for a nil receiver, an unset URL or a
    host shorter than three bytes. *)
Theorem Clone_None_iff p :
  Clone p = None <->
  match p with
  | None => True
  | Some q =>
      match URL q with
      | None => True
      | Some U => (String.length (url.Host U) < 3)%nat
      end
  end.
Proof.
  unfold Clone. destruct p as [q|]; [|done]. destruct (URL q) as [U|]; [|done].
  case_bool_decide; naive_solver.
Qed.

(** When the library fails to parse back what it printed, [Clone] still
    returns a descriptor, with its URL unset. *)
Theorem Clone_unparsed p U :
  URL p = Some U -> (3 <= String.length (url.Host U))%nat ->
  fst (url.Parse (url.String U)) = None ->
  exists q, Clone (Some p) = Some q /\ URL q = None /\
    timeout q = timeout p /\ DialAddr q = DialAddr p.
Proof.
  intros HU Hh Hp. unfold Clone. rewrite HU, Hp.
  rewrite bool_decide_eq_false_2 by lia. eauto.
Qed.

End descriptor_facts.

(** C40: the timeout stored for an explicit argument of [ms] milliseconds is
    [ms] times 1,000,000 nanoseconds exactly when [ms] lies between
    -9223372036854 and 9223372036854; outside, the product wraps. *)
Theorem parse_timeout_exact_iff ms rest :
  parse_timeout (ms :: rest) = ms * 1000000 <->
  -9223372036854 <= ms <= 9223372036854.
Proof.
  simpl. unfold time.mul. change time.Millisecond with 1000000.
  rewrite wrap64_eq_iff. unfold in_int64. lia.
Qed.

(** [getTimeout] never returns 0, and returns the stored timeout
    whenever that is not 0. *)
Theorem getTimeout_nonzero p :
  getTimeout p <> 0 /\
  (forall q, p = Some q -> timeout q <> 0 -> getTimeout p = timeout q).
Proof.
  destruct p as [q|]; simpl; [|done].
  case_bool_decide; split; try done; naive_solver.
Qed.

(** [SetTimeout] stores the duration and keeps the invariant. *)
Theorem SetTimeout_ok p d :
  proxy_ok p -> in_int64 d ->
  exists q, SetTimeout (Some p) d = Some q /\ proxy_ok q /\
    timeout q = d /\ URL q = URL p /\ DialAddr q = DialAddr p.
Proof.
  intros (U & HU & Hh & Hs & _) Hd. eexists. split; [done|].
  repeat split; try done. by exists U.
Qed.

(** [getSocksAuth] is nil exactly when the user name is empty, and
    otherwise carries the user name and the password. *)
Theorem getSocksAuth_spec p :
  (getSocksAuth p = None <-> User p = "") /\
  (User p <> "" -> getSocksAuth p = Some (proxy.mkAuth (User p) (Pass p))).
Proof.
  unfold getSocksAuth. case_bool_decide; naive_solver.
Qed.

(** ** The theorems at concrete inputs

    The URL library is the instance [url.simple]. *)

Definition example_http : url.URL :=
  url.mkURL "http" "" (Some (url.mkUserinfo "user" "pw" true))
            "proxy.example:8080" "" "" "".

Definition example_proxy : Proxy :=
  mkProxy (Some example_http) (30 * time.Second) None "".

Lemma example_proxy_ok : proxy_ok example_proxy.
Proof.
  exists example_http. repeat split; compute_done.
Qed.

Lemma ParseProxy_invalid_scheme_witness :
  @ParseProxy url.simple "short://ab" [] =
  (None, Some (Errorf "invalid scheme: %s" ["short"])).
Proof.
  apply (@ParseProxy_invalid_scheme url.simple "short://ab" []
           (url.mkURL "short" "" None "ab" "" "" ""));
    [reflexivity|compute_done].
Defined.

Lemma ParseProxy_short_host_witness :
  @ParseProxy url.simple "socks://ab" [5000] = (None, Some invalidProxy).
Proof.
  apply (@ParseProxy_short_host url.simple "socks://ab" [5000]
           (url.mkURL "socks" "" None "ab" "" "" ""));
    [reflexivity|compute_done|compute_done].
Defined.

Lemma ParseProxy_ok_witness : proxy_ok example_proxy.
Proof.
  apply (@ParseProxy_ok url.simple "http://user:pw@proxy.example:8080" []
           example_proxy None).
  reflexivity.
Defined.

Lemma ParseProxy_scheme_kind_witness :
  IsSocksType
    (fst (@ParseProxy url.simple "SOCKET5://proxy.example:1080" [])) = true.
Proof.
  refine (proj1 (@ParseProxy_scheme_kind url.simple
    "SOCKET5://proxy.example:1080" [] _ None
    (url.mkURL "socket5" "" None "proxy.example:1080" "" "" "") _ _));
    reflexivity.
Defined.

Lemma ParseProxy_credentials_witness :
  User (Some example_proxy) = "user" /\ Pass (Some example_proxy) = "pw".
Proof.
  apply (@ParseProxy_credentials url.simple "http://user:pw@proxy.example:8080"
           [] example_proxy None example_http); reflexivity.
Defined.

Lemma getTimeout_parsed_default_witness :
  getTimeout (Some example_proxy) = 30000000000.
Proof.
  apply (@getTimeout_parsed_default url.simple
           "http://user:pw@proxy.example:8080" example_proxy None).
  reflexivity.
Defined.

Lemma getTimeout_explicit_zero_witness :
  getTimeout (Some (set_timeout 0 example_proxy)) = 15000000000.
Proof.
  apply (@getTimeout_explicit_zero url.simple
           "http://user:pw@proxy.example:8080" [] _ None).
  reflexivity.
Defined.

Lemma Clone_ok_witness : @Clone url.simple (Some example_proxy) = Some example_proxy.
Proof.
  apply (@Clone_ok url.simple example_proxy example_http);
    [apply example_proxy_ok|reflexivity|reflexivity].
Defined.

Lemma Clone_unparsed_witness :
  exists q, @Clone url.garbled (Some example_proxy) = Some q /\ URL q = None /\
    timeout q = timeout example_proxy /\ DialAddr q = DialAddr example_proxy.
Proof.
  apply (@Clone_unparsed url.garbled example_proxy example_http);
    [reflexivity|compute_done|reflexivity].
Defined.

Lemma SetTimeout_ok_witness :
  exists q, SetTimeout (Some example_proxy) 5000000000 = Some q /\ proxy_ok q /\
    timeout q = 5000000000 /\ URL q = URL example_proxy /\
    DialAddr q = DialAddr example_proxy.
Proof.
  apply (SetTimeout_ok example_proxy 5000000000);
    [apply example_proxy_ok|unfold in_int64; lia].
Defined.
