(* ===== verification/Worlds.v ===== *)
(** * Worlds: the worlds of the examples

    Every theorem with hypotheses is applied to a concrete world at the end
    of its file.  The worlds are instances of [stub_env]: the proxy
    [proxy.example] resolves to 10.0.0.2, a nil entry and 10.0.0.3, and the
    worlds differ in which addresses take connections and in what the proxy
    answers to the CONNECT request. *)

From S2P Require Import Prelude Url Net Proxy.

(** The proxy [proxy.example] resolves to 10.0.0.2, a nil entry and
    10.0.0.3; only 10.0.0.3 takes connections on port 8080. *)

Definition example_ips : list net.IP :=
  [stub_ParseIP "10.0.0.2"; None; stub_ParseIP "10.0.0.3"].

(** The proxy answers the CONNECT request with [200]. *)
Definition example_env : Env :=
  stub_env ["10.0.0.3:8080"] [] [("proxy.example", example_ips)]
    (bytes_of_string "HTTP/1.1 200 Connection established", None).

(** The proxy answers with eight bytes and no error. *)
Definition short_env : Env :=
  stub_env ["10.0.0.3:8080"] [] [("proxy.example", example_ips)]
    (bytes_of_string "HTTP/1.1", None).

(** The proxy refuses the tunnel. *)
Definition refusing_env : Env :=
  stub_env ["10.0.0.3:8080"] [] [("proxy.example", example_ips)]
    (bytes_of_string "HTTP/1.1 407 Proxy Authentication Required", None).

(** A world outside the contract [EnvOK]: every dial returns neither a
    connection nor an error. *)
Definition silent_env : Env := {|
  env_dial _ _ _ _ := (None, None);
  env_socks5_new _ _ _ := None;
  env_socks5_dial _ _ _ _ := (None, None);
  env_lookup _ _ _ := ([], None);
  env_write _ _ _ := None;
  env_read _ _ := ([], None);
  env_close _ _ := None
|}.

(** The resolver's first address of the proxy, 10.0.0.1, takes
    connections. *)
Definition remembered_env : Env :=
  stub_env ["10.0.0.1:8080"] [] [("proxy.example", example_ips)]
    (bytes_of_string "HTTP/1.1 200 Connection established", None).

(** A SOCKS5 proxy at [proxy.example:1080] that opens a tunnel to
    10.0.0.1:1080, its own address, and to nothing else. *)
Definition socks_env : Env :=
  stub_env ["proxy.example:1080"] ["10.0.0.1:1080"]
    [("proxy.example", example_ips)] ([], None).

(** The address 10.0.0.1. *)
Definition remembered_ip : list byte := [x0a; x00; x00; x01].

(** [example_proxy] with a bypass predicate that accepts [skip.me]. *)
Definition bypass_proxy : Proxy :=
  set_Regexp (Some (String.eqb "skip.me")) example_proxy.

(** A SOCKS5 descriptor without credentials. *)
Definition socks_proxy : Proxy :=
  mkProxy (Some (url.mkURL "socks5" "" None "proxy.example:1080" "" "" ""))
          (30 * time.Second) None "".

(** The dialer of the examples and its first connection to 10.0.0.3. *)
Definition example_dialer : direct := mkDirect (30 * time.Second).

Definition example_conn : net.Conn := net.mkConn 0 "10.0.0.3:8080".

(** A world in which [example_conn] is open. *)
Definition connected_world : World :=
  note_open (Some example_conn, None)
    (log (EvDial example_dialer "tcp" "10.0.0.3:8080" (Some example_conn, None))
       empty_world).
