(* ===== verification/Handshake.v ===== *)
(** * Handshake: the CONNECT exchange of Proxy.go

    Lines 236-253 of [Dial]: on a connection to the proxy, write the
    CONNECT request ([connect_request]: request line, [Host] header, the
    [Authorization] header when there is a user name), read at most 128
    bytes ([connect_bufsize]) and classify the reply: fewer than 13 bytes
    close the connection, a reply that does not start with [HTTP/1.1 200] is
    an error, anything else hands the connection to the caller.

    The theorems give the result of the exchange on each outcome of the
    write and of the read, when exactly a connection is returned, which
    connection is left open, and the text of the request with its
    credentials. *)

From S2P Require Import Prelude Url Net Base64 Proxy Worlds.

#[local] Open Scope go_scope.

(** The line terminator of HTTP. *)
Definition CRLF : string := String (ascii_of_nat 13) (String (ascii_of_nat 10) "").

(** [b := make([]byte, 128)]. *)
Definition connect_bufsize : nat := 128.

(** The text written to the proxy: request line, [Host] header, the
    [Authorization] header when the user name is not empty, blank line. *)
Definition connect_request (addr user pass : string) : string :=
  let us :=
    if bool_decide (user <> "")
    then "Authorization: Basic " +:+
         base64.EncodeToString (bytes_of_string (user +:+ ":" +:+ pass)) +:+ CRLF
    else "" in
  "CONNECT " +:+ addr +:+ " HTTP/1.1" +:+ CRLF +:+ "Host: " +:+ addr +:+ CRLF +:+
  us +:+ CRLF.

Section exchange.
Context `{Env}.

(** Lines 236-253: the CONNECT exchange on a connection to the proxy. *)
Definition connect_handshake (p : option Proxy) (conn : net.Conn) (addr : string)
  : M World (GoRes net.Conn) :=
  e <- conn_Write conn
         (bytes_of_string (connect_request addr (User p) (Pass p))) ;;
  match e with
  | Some e => ret (None, Some e)
  | None =>
      let* (n, b, er) := conn_Read conn connect_bufsize in
      if bool_decide (n < 13)
      then conn_Close conn ;;; ret (None, er)
      else if bool_decide (string_of_bytes (take 12 b) <> "HTTP/1.1 200")
      then ret (None, Some (Errorf (string_of_bytes b) []))
      else ret (Some conn, er)
  end.

End exchange.

(** ** The exchange extends the world and returns *)

Section runs.
Context `{Env}.

Lemma connect_handshake_extends dd p c a w :
  extends (dialer_is dd) w (final (connect_handshake p c a w)).
Proof. unfold connect_handshake. walk. Qed.

Lemma connect_handshake_returns p c a w : returns (connect_handshake p c a w).
Proof. unfold connect_handshake. walk. Qed.

(** The exchange leaves the resolver's memory as it is. *)
Lemma connect_handshake_firstIP p c a w :
  post (fun _ w' => firstIP w' = firstIP w) (connect_handshake p c a w).
Proof.
  unfold connect_handshake.
  repeat first [progress drun | case_goal]; cbn [post]; by autorewrite with go.
Qed.

End runs.

(** ** The CONNECT exchange *)

Section handshake.
Context `{net.Lib} `{Env}.
Variables (p : option Proxy) (c : net.Conn) (addr : string) (w : World).

(** The request, the world after a successful write, the bytes read into
    the buffer, the error of the read and the world after the read. *)
Let req := bytes_of_string (connect_request addr (User p) (Pass p)).
Let w1 := log (EvWrite c req None) w.
Let data := take connect_bufsize (fst (env_read (trace w1) c)).
Let er := snd (env_read (trace w1) c).
Let w2 := log (EvRead c data er) w1.

Lemma status_line_dec (b : list byte) :
  string_of_bytes (take 12 b) = "HTTP/1.1 200" <->
  take 12 b = bytes_of_string "HTTP/1.1 200".
Proof.
  split; [intros <-|intros ->]; by autorewrite with go.
Qed.

(** The exchange after a successful write, on its three outcomes. *)
Lemma connect_handshake_run :
  env_write (trace w) c req = None ->
  connect_handshake p c addr w =
  if bool_decide (length data < 13)%nat
  then Returns (None, er)
         (set_opened (opened w2 ∖ {[ net.conn_id c ]}) (log (EvClose c) w2))
  else if bool_decide (take 12 data = bytes_of_string "HTTP/1.1 200")
  then Returns (Some c, er) w2
  else Returns (None, Some (Errorf (string_of_bytes
                                      (fill_buffer connect_bufsize data)) [])) w2.
Proof.
  intros Hw. unfold connect_handshake. drun. fold req. rewrite Hw. drun.
  fold w1 data er w2.
  destruct (decide (length data < 13)%nat) as [Hn|Hn].
  { rewrite !bool_decide_eq_true_2 by lia. by drun. }
  rewrite (bool_decide_eq_false_2 (_ < 13)), (bool_decide_eq_false_2 (_ < _)%nat)
    by lia.
  rewrite fill_buffer_take by (unfold connect_bufsize; lia).
  case_bool_decide as Hs; rewrite status_line_dec in Hs.
  - by rewrite bool_decide_eq_false_2.
  - by rewrite bool_decide_eq_true_2.
Qed.

(** C4: the exchange returns a connection exactly when the write
    succeeded, at least 13 bytes were read and the first twelve are
    [HTTP/1.1 200]; the connection is then the one to the proxy, the world
    has the write and the read and nothing else, and the error returned
    beside the connection is the error of the read, whatever it is. *)
Theorem connect_handshake_accepts_iff c' e' w' :
  connect_handshake p c addr w = Returns (Some c', e') w' <->
  env_write (trace w) c req = None /\
  (13 <= length data)%nat /\ take 12 data = bytes_of_string "HTTP/1.1 200" /\
  c' = c /\ e' = er /\ w' = w2.
Proof.
  destruct (env_write (trace w) c req) as [ew|] eqn:Hw.
  { unfold connect_handshake. drun. fold req. rewrite Hw. drun.
    split; [done|]. by intros [[=] _]. }
  rewrite connect_handshake_run by done.
  repeat case_bool_decide; split; try done; try (intros (_ & ? & ? & _); done || lia).
  - intros [=]. subst. split_and!; auto. lia.
  - by intros (_ & _ & _ & -> & -> & ->).
Qed.

(** C26: a reply of fewer than 13 bytes closes the connection and returns
    no connection together with the error of the read; when the read
    reported no error, the caller gets neither a connection nor an error. *)
Theorem connect_handshake_short_reply :
  env_write (trace w) c req = None -> (length data < 13)%nat ->
  connect_handshake p c addr w =
  Returns (None, er)
    (set_opened (opened w2 ∖ {[ net.conn_id c ]}) (log (EvClose c) w2)).
Proof.
  intros Hw Hn. by rewrite connect_handshake_run, bool_decide_eq_true_2.
Qed.

(** C27: a reply of 13 bytes or more that does not start with
    [HTTP/1.1 200] returns an error whose text is the whole 128-byte buffer
    used as a format; the world ends with the read: the connection is not
    closed. *)
Theorem connect_handshake_rejected :
  env_write (trace w) c req = None -> (13 <= length data)%nat ->
  take 12 data <> bytes_of_string "HTTP/1.1 200" ->
  connect_handshake p c addr w =
  Returns (None, Some (Errorf (string_of_bytes
                                 (fill_buffer connect_bufsize data)) [])) w2.
Proof.
  intros Hw Hn Hs.
  by rewrite connect_handshake_run, !bool_decide_eq_false_2 by (done || lia).
Qed.

(** C30: the exchange closes the connection only on a short reply: after a
    failed write and after a rejected reply the connection is as open as it
    was, although the caller gets no connection. *)
Theorem connect_handshake_opened :
  opened (final (connect_handshake p c addr w)) =
  if bool_decide (env_write (trace w) c req = None /\ (length data < 13)%nat)
  then opened w ∖ {[ net.conn_id c ]}
  else opened w.
Proof.
  destruct (env_write (trace w) c req) as [ew|] eqn:Hw.
  { unfold connect_handshake. drun. fold req. rewrite Hw. drun.
    by rewrite bool_decide_eq_false_2 by (by intros [? _]). }
  rewrite connect_handshake_run by done.
  destruct (decide (length data < 13)%nat).
  - by rewrite !bool_decide_eq_true_2.
  - rewrite (bool_decide_eq_false_2 (_ < _)%nat) by done.
    rewrite (bool_decide_eq_false_2 (_ /\ _)) by (by intros [_ ?]).
    by case_bool_decide.
Qed.

End handshake.

(** ** The request *)

(** C8: with a user name the request carries one [Authorization] header
    whose token decodes, by [base64.DecodeString], to [user:pass]; the
    request is the request line, the [Host] header, that header and a blank
    line. *)
Theorem connect_request_authorization addr user pass :
  user <> "" ->
  exists tok,
    connect_request addr user pass =
      "CONNECT " +:+ addr +:+ " HTTP/1.1" +:+ CRLF +:+ "Host: " +:+ addr +:+ CRLF +:+
      "Authorization: Basic " +:+ tok +:+ CRLF +:+ CRLF /\
    base64.DecodeString tok = Some (bytes_of_string (user +:+ ":" +:+ pass)).
Proof.
  intros Hu. eexists. split; [|apply base64.DecodeString_EncodeToString].
  unfold connect_request. rewrite bool_decide_eq_true_2 by done.
  by rewrite !append_assoc.
Qed.

(** Without a user name the request has no [Authorization] header,
    whatever the password. *)
Theorem connect_request_anonymous addr pass :
  connect_request addr "" pass =
  "CONNECT " +:+ addr +:+ " HTTP/1.1" +:+ CRLF +:+ "Host: " +:+ addr +:+ CRLF +:+ CRLF.
Proof.
  unfold connect_request. rewrite bool_decide_eq_false_2 by (by intros []).
  reflexivity.
Qed.

(** ** The theorems at concrete inputs *)

Lemma connect_handshake_short_reply_witness :
  exists w', opened w' = ∅ /\
    @connect_handshake short_env (Some example_proxy) example_conn
      "example.org:443" connected_world = Returns (None, None) w'.
Proof.
  eexists. split; [|apply (@connect_handshake_short_reply short_env);
                     [done|vm_compute; lia]].
  by vm_compute.
Defined.

Lemma connect_handshake_rejected_witness :
  exists msg w', opened w' = opened connected_world /\
    @connect_handshake refusing_env (Some example_proxy) example_conn
      "example.org:443" connected_world = Returns (None, Some (Errorf msg [])) w'.
Proof.
  eexists _, _. split; [|apply (@connect_handshake_rejected refusing_env);
                          [done|vm_compute; lia|by vm_compute]].
  done.
Defined.

Lemma connect_request_authorization_witness :
  exists tok,
    connect_request "example.org:443" "user" "pw" =
      "CONNECT example.org:443 HTTP/1.1" +:+ CRLF +:+ "Host: example.org:443" +:+
      CRLF +:+ "Authorization: Basic " +:+ tok +:+ CRLF +:+ CRLF /\
    base64.DecodeString tok = Some (bytes_of_string "user:pw").
Proof. by apply (connect_request_authorization "example.org:443" "user" "pw"). Defined.
