(* ===== verification/Search.v ===== *)
(** * Search: trying a list of attempts in order

    Both proxy paths of [Dial] reach the proxy the same way: a list of
    attempts is tried in order, each attempt is one dial, the first
    connection ends the search and may leave something to do (remembering
    the address), and the result of the last dial is returned when every
    attempt failed.  This file holds that search on its own, over any type
    of attempts and any dial:

    - [search], the search as a computation in [M World];
    - [step], the same search as a machine that makes one attempt per step,
      with the executable [next], the measure [remaining] and the theorems
      that the machine is deterministic, always halts, and halts in the
      result of [search]; [search_result] carries what holds of every dial
      to the result of the search;
    - [Logged], what a dial and its follow-up must log for the order of
      attempts to be read off the trace, and under it the order theorem
      [search_in_order], the bound [in_order_length], termination within
      one step per attempt ([search_terminates]) and the liveness theorem
      [search_connects]. *)

From stdpp Require Import relations.
From S2P Require Import Prelude Net.

#[local] Open Scope go_scope.

(** The last attempt made, if any, and the result of the last dial. *)
Definition Tried (A : Type) : Type := (option A * GoRes net.Conn)%type.

Section search.
Context {A : Type}.
Variables (dial : A -> M World (GoRes net.Conn)) (hit : A -> M World unit).

(** Try the attempts in order; stop at the first connection. *)
Fixpoint search (plan : list A) (last : Tried A) : M World (Tried A) :=
  match plan with
  | [] => ret last
  | a :: rest =>
      let* (conn, e) := dial a in
      match conn with
      | Some _ => hit a ;;; ret (Some a, (conn, e))
      | None => search rest (Some a, (conn, e))
      end
  end.

(** The configurations of the search as a machine: attempts left to try,
    a result, or a panic. *)
Inductive config : Type :=
| Trying (plan : list A) (last : Tried A) (w : World)
| Done (x : Tried A) (w : World)
| Crashed (w : World).

(** One attempt. *)
Inductive step : config -> config -> Prop :=
| step_exhausted last w :
    step (Trying [] last w) (Done last w)
| step_hit a rest last w c e w1 w2 :
    dial a w = Returns (Some c, e) w1 -> hit a w1 = Returns tt w2 ->
    step (Trying (a :: rest) last w) (Done (Some a, (Some c, e)) w2)
| step_miss a rest last w e w1 :
    dial a w = Returns (None, e) w1 ->
    step (Trying (a :: rest) last w) (Trying rest (Some a, (None, e)) w1)
| step_dial_panics a rest last w w1 :
    dial a w = Panics w1 ->
    step (Trying (a :: rest) last w) (Crashed w1)
| step_hit_panics a rest last w c e w1 w2 :
    dial a w = Returns (Some c, e) w1 -> hit a w1 = Panics w2 ->
    step (Trying (a :: rest) last w) (Crashed w2).

(** The step as a function. *)
Definition next (c : config) : option config :=
  match c with
  | Trying [] last w => Some (Done last w)
  | Trying (a :: rest) _ w =>
      match dial a w with
      | Returns (Some c, e) w1 =>
          match hit a w1 with
          | Returns _ w2 => Some (Done (Some a, (Some c, e)) w2)
          | Panics w2 => Some (Crashed w2)
          end
      | Returns (None, e) w1 => Some (Trying rest (Some a, (None, e)) w1)
      | Panics w1 => Some (Crashed w1)
      end
  | _ => None
  end.

(** The configuration an outcome halts in. *)
Definition halted (o : outcome World (Tried A)) : config :=
  match o with
  | Returns x w => Done x w
  | Panics w => Crashed w
  end.

(** What is left to do: one step per attempt and one to finish. *)
Definition remaining (c : config) : nat :=
  match c with
  | Trying plan _ _ => S (length plan)
  | _ => 0
  end.

(** The invariant of the machine: while it is trying, the last dial gave no
    connection. *)
Definition still_trying (c : config) : Prop :=
  match c with
  | Trying _ last _ => fst (snd last) = None
  | _ => True
  end.

(** ** The machine *)

Lemma step_next c c' : step c c' <-> next c = Some c'.
Proof.
  split.
  - destruct 1; simpl; repeat match goal with H : _ = _ |- _ => rewrite H end;
      done.
  - destruct c as [[|a rest] last w| |]; simpl; try done.
    + intros [= <-]. constructor.
    + destruct (dial a w) as [[[c|] e] w1|w1] eqn:Hd.
      * destruct (hit a w1) as [[] w2|w2] eqn:Hh; intros [= <-];
          eauto using step.
      * intros [= <-]. by constructor.
      * intros [= <-]. by constructor.
Qed.

Lemma step_det c c1 c2 : step c c1 -> step c c2 -> c1 = c2.
Proof. rewrite !step_next. congruence. Qed.

Lemma step_remaining c c' : step c c' -> (remaining c' < remaining c)%nat.
Proof. destruct 1; simpl; lia. Qed.

Lemma step_still_trying c c' : step c c' -> still_trying c'.
Proof. by destruct 1. Qed.

(** A halted configuration makes no step. *)
Lemma halted_nf o : nf step (halted o).
Proof. intros [c Hc]. apply step_next in Hc. by destruct o. Qed.

(** A configuration that is trying makes a step. *)
Lemma trying_red plan last w : red step (Trying plan last w).
Proof.
  destruct (next (Trying plan last w)) as [c|] eqn:Hn.
  - exists c. by apply step_next.
  - destruct plan as [|a rest]; simpl in Hn; [done|].
    destruct (dial a w) as [[[c|] e] w1|w1]; [destruct (hit a w1)|..]; done.
Qed.

(** The machine stops: no infinite sequence of steps starts anywhere. *)
Lemma step_sn c : sn step c.
Proof.
  apply (wf_projected lt remaining); [|apply lt_wf].
  intros c1 c2. apply step_remaining.
Qed.

(** The number of steps from a configuration is bounded by what remains. *)
Lemma nsteps_remaining n c c' :
  nsteps step n c c' -> (n + remaining c' <= remaining c)%nat.
Proof.
  induction 1 as [|n c1 c2 c3 Hs _ IH]; [done|].
  apply step_remaining in Hs. lia.
Qed.

(** The machine halts in the outcome of [search]. *)
Lemma search_halts plan last w :
  rtc step (Trying plan last w) (halted (search plan last w)).
Proof.
  revert last w. induction plan as [|a rest IH]; intros last w.
  { apply rtc_once. constructor. }
  cbn [search]. unfold bind.
  destruct (dial a w) as [[[c|] e] w1|w1] eqn:Hd.
  - destruct (hit a w1) as [[] w2|w2] eqn:Hh; apply rtc_once; simpl;
      eauto using step.
  - eapply rtc_l; [by apply step_miss|]. apply IH.
  - apply rtc_once. by constructor.
Qed.

(** A deterministic relation reaches at most one normal form. *)
Lemma rtc_nf_unique c c1 c2 :
  rtc step c c1 -> nf step c1 -> rtc step c c2 -> nf step c2 -> c1 = c2.
Proof.
  induction 1 as [c|c c' c1 Hs _ IH]; intros Hn1 H2 Hn2.
  - destruct H2 as [|c c' c2 Hs _]; [done|]. destruct Hn1. by exists c'.
  - destruct H2 as [|c c'' c2 Hs' H2]; [destruct Hn2; by exists c'|].
    rewrite (step_det _ _ _ Hs' Hs) in H2. by apply IH.
Qed.

(** What holds of the result of every dial holds of the result of the
    search, when it holds of the result the search starts from. *)
Lemma search_result (P : GoRes net.Conn -> Prop) plan last w x w' :
  (forall a w r w1, dial a w = Returns r w1 -> P r) -> P (snd last) ->
  search plan last w = Returns x w' -> P (snd x).
Proof.
  intros Hd. revert last w. induction plan as [|a rest IH]; intros last w Hl.
  { by intros [= <- <-]. }
  cbn [search]. unfold bind at 1.
  destruct (dial a w) as [[[c|] e] w1|] eqn:Ha; [..|done].
  - unfold bind. destruct (hit a w1) as [[] w2|]; [|done].
    intros [= <- <-]. apply (Hd _ _ _ _ Ha).
  - apply IH. apply (Hd _ _ _ _ Ha).
Qed.

End search.

Arguments config : clear implicits.
Arguments Trying {A} plan last w.
Arguments Done {A} x w.
Arguments Crashed {A} w.

(** ** What the trace shows of a search *)

(** The dials and the follow-ups of a search log their events: a dial
    returns, logs one event that [obs] shows as the address and the answer,
    and opens the connection it returns; a follow-up returns and logs
    nothing that [obs] shows. *)
Class Logged {A : Type} (addr : A -> string)
    (dial : A -> M World (GoRes net.Conn)) (hit : A -> M World unit)
    (obs : list Event -> list (string * GoRes net.Conn)) : Prop := {
  obs_nil : obs [] = [];
  obs_app evs1 evs2 : obs (evs1 ++ evs2) = obs evs1 ++ obs evs2;
  dial_logged a w :
    exists r ev, dial a w = Returns r (note_open r (log ev w)) /\
      obs [ev] = [(addr a, r)];
  hit_logged a w :
    exists w' evs, hit a w = Returns tt w' /\ trace w' = trace w ++ evs /\
      obs evs = [] /\ opened w' = opened w
}.

(** The order of attempts, read off what [obs] shows of the events of a
    search over [plan] that ended in [x]: the dials are those of an initial
    segment [pre ++ [a]] of the plan, in order; every dial of [pre] failed;
    the search ended at [a] with the answer of its dial; it ended before the
    end of the plan only on a connection. *)
Definition in_order {A : Type} (addr : A -> string) (plan : list A)
    (seen : list (string * GoRes net.Conn)) (x : Tried A) : Prop :=
  exists spre pre a post,
    plan = pre ++ a :: post /\
    seen = spre ++ [(addr a, snd x)] /\
    fst <$> spre = addr <$> pre /\
    Forall (fun d => fst (snd d) = None) spre /\
    fst x = Some a /\
    (fst (snd x) = None -> post = []).

(** What holds of the address of every attempt of the plan holds of every
    address seen. *)
Lemma in_order_Forall {A : Type} (P : string -> Prop) (addr : A -> string)
    plan seen x :
  (forall a, a ∈ plan -> P (addr a)) ->
  in_order addr plan seen x -> Forall (fun d => P (fst d)) seen.
Proof.
  intros HP (spre & pre & a & post & -> & -> & Hf & _).
  apply Forall_app. split; [|constructor; [apply HP; set_solver|done]].
  apply (Forall_fmap fst P). rewrite Hf. apply Forall_fmap, Forall_forall.
  intros b Hb. apply HP. set_solver.
Qed.

Section logged.
Context {A : Type} (addr : A -> string)
  (dial : A -> M World (GoRes net.Conn)) (hit : A -> M World unit)
  (obs : list Event -> list (string * GoRes net.Conn)).
Context `{!Logged addr dial hit obs}.

Lemma obs_cons ev evs : obs (ev :: evs) = obs [ev] ++ obs evs.
Proof. apply (obs_app [ev]). Qed.

Lemma in_order_first a rest r :
  (fst r = None -> rest = []) ->
  in_order addr (a :: rest) [(addr a, r)] (Some a, r).
Proof. intros Hr. exists [], [], a, rest. by repeat split. Qed.

Lemma in_order_cons a rest e seen x :
  in_order addr rest seen x ->
  in_order addr (a :: rest) ((addr a, (None, e)) :: seen) x.
Proof.
  intros (spre & pre & b & post & -> & -> & Hpre & Hf & Hx & Hp).
  exists ((addr a, (None, e)) :: spre), (a :: pre), b, post.
  rewrite !fmap_cons, Hpre. repeat split; auto.
Qed.

(** A search never panics. *)
Lemma search_returns plan last w : returns (search dial hit plan last w).
Proof.
  revert last w. induction plan as [|a rest IH]; intros last w; [done|].
  cbn [search]. destruct (dial_logged a w) as ([[c|] e] & ev & Hd & _);
    rewrite (bind_returns _ _ _ _ _ Hd); [|apply IH].
  destruct (hit_logged a (note_open (Some c, e) (log ev w)))
    as (w' & evs & Hh & _).
  by rewrite (bind_returns _ _ _ _ _ Hh).
Qed.

(** The search tries the attempts in order and stops at the first
    connection. *)
Lemma search_in_order plan last w :
  plan <> [] ->
  exists x w' evs,
    search dial hit plan last w = Returns x w' /\
    trace w' = trace w ++ evs /\
    in_order addr plan (obs evs) x.
Proof.
  revert last w. induction plan as [|a rest IH]; intros last w Hne; [done|].
  cbn [search]. destruct (dial_logged a w) as ([[c|] e] & ev & Hd & Hev);
    rewrite (bind_returns _ _ _ _ _ Hd).
  - destruct (hit_logged a (note_open (Some c, e) (log ev w)))
      as (w' & evs & Hh & Ht & Ho & _).
    rewrite (bind_returns _ _ _ _ _ Hh). exists (Some a, (Some c, e)), w', (ev :: evs).
    split; [done|]. split; [rewrite Ht; autorewrite with go; by rewrite <- app_assoc|].
    rewrite obs_cons, Hev, Ho. by apply in_order_first.
  - destruct rest as [|b rest].
    + exists (Some a, (None, e)), (note_open (None, e) (log ev w)), [ev].
      split; [done|]. split; [by autorewrite with go|].
      rewrite Hev. by apply in_order_first.
    + destruct (IH (Some a, (None, e)) (note_open (None, e) (log ev w)))
        as (x & w' & evs & -> & Ht & Ho); [done|].
      exists x, w', (ev :: evs). split; [done|].
      split; [rewrite Ht; autorewrite with go; by rewrite <- app_assoc|].
      rewrite obs_cons, Hev. by apply in_order_cons.
Qed.

(** What [in_order] says of the number of dials. *)
Lemma in_order_length plan seen x :
  in_order addr plan seen x -> (1 <= length seen <= length plan)%nat.
Proof.
  intros (spre & pre & a & post & -> & -> & Hpre & _).
  apply (f_equal length) in Hpre. rewrite !length_fmap in Hpre.
  rewrite !length_app. simpl. lia.
Qed.

(** The set of open connections after a search: that before it and the
    connection returned. *)
Lemma search_opened plan last w x w' :
  fst (snd last) = None ->
  search dial hit plan last w = Returns x w' ->
  opened w' = match fst (snd x) with
              | Some c => {[ net.conn_id c ]} ∪ opened w
              | None => opened w
              end.
Proof.
  revert last w. induction plan as [|a rest IH]; intros last w Hl.
  { intros [= <- <-]. by destruct last as [? [[c|] ?]]. }
  cbn [search]. destruct (dial_logged a w) as ([[c|] e] & ev & Hd & _);
    rewrite (bind_returns _ _ _ _ _ Hd).
  - destruct (hit_logged a (note_open (Some c, e) (log ev w)))
      as (w1 & evs & Hh & _ & _ & Ho).
    rewrite (bind_returns _ _ _ _ _ Hh). intros [= <- <-].
    rewrite Ho. by autorewrite with go.
  - intros Hs. rewrite (IH (Some a, (None, e)) _ eq_refl Hs).
    by autorewrite with go.
Qed.

(** Liveness: if the dial of some attempt of the plan gives a connection
    whenever it is made, the search ends with a connection, at that attempt
    or at an earlier one. *)
Lemma search_connects plan last w a :
  a ∈ plan ->
  (forall w1, exists c e w2, dial a w1 = Returns (Some c, e) w2) ->
  exists pre b post c e w',
    plan = pre ++ b :: post /\ (a ∉ pre) /\
    search dial hit plan last w = Returns (Some b, (Some c, e)) w'.
Proof.
  intros Hin Hlive. revert last w.
  induction plan as [|b rest IH]; intros last w; [by apply elem_of_nil in Hin|].
  cbn [search]. destruct (dial_logged b w) as ([[c|] e] & ev & Hd & _).
  - destruct (hit_logged b (note_open (Some c, e) (log ev w)))
      as (w' & evs & Hh & _).
    exists [], b, rest, c, e, w'. split; [done|]. split; [apply not_elem_of_nil|].
    by rewrite (bind_returns _ _ _ _ _ Hd), (bind_returns _ _ _ _ _ Hh).
  - assert (a <> b) as Hab.
    { intros ->. destruct (Hlive w) as (c & e' & w2 & Hd'). congruence. }
    apply elem_of_cons in Hin as [?|Hin]; [done|].
    destruct (IH Hin (Some b, (None, e)) (note_open (None, e) (log ev w)))
      as (pre & b' & post & c & e' & w' & -> & Hpre & Hs).
    exists (b :: pre), b', post, c, e', w'. split; [done|].
    split; [by rewrite not_elem_of_cons|].
    by rewrite (bind_returns _ _ _ _ _ Hd).
Qed.

(** Termination with a bound: the machine reaches the result of the search
    in at most one step per attempt and one more. *)
Lemma search_terminates plan last w :
  exists k x w',
    nsteps (step dial hit) k (Trying plan last w) (Done x w') /\
    (k <= S (length plan))%nat /\
    search dial hit plan last w = Returns x w'.
Proof.
  pose proof (search_returns plan last w) as Hr.
  pose proof (search_halts dial hit plan last w) as Hh.
  destruct (search dial hit plan last w) as [x w'|]; [|done].
  apply rtc_nsteps_1 in Hh as [k Hk]. exists k, x, w'.
  split_and!; [done| |done].
  apply nsteps_remaining in Hk. simpl in Hk. lia.
Qed.

(** Every run of the machine that can go no further has reached the result
    of the search. *)
Lemma search_machine plan last w c :
  rtc (step dial hit) (Trying plan last w) c /\ nf (step dial hit) c <->
  c = halted (search dial hit plan last w).
Proof.
  split.
  - intros [Hc Hn]. eapply rtc_nf_unique; eauto using search_halts, halted_nf.
  - intros ->. eauto using search_halts, halted_nf.
Qed.

End logged.
