(* ===== verification/Reach.v ===== *)
(** * Reach: reaching the proxy on the HTTP path

    Lines 213-232 of [Dial]: the remembered address of the proxy host, then
    the candidates of the resolver in order ([http_try_ips]), then the proxy
    address as written ([http_literal]); each attempt assigns [p.DialAddr]
    and dials it, the first connection ends the search and a candidate that
    connected is written to the resolver.  [http_reach] is that code.

    [run_plan] is the reference search: try a list of attempts in order,
    stop at the first connection; [plan_run] is the same search as a step
    relation, [http_plan] the list of attempts and [tried_in_order] the
    order of dials read off a trace.

    The theorems: [http_reach] equals the reference search over
    [http_plan]; it only extends the world; and the order, the number and
    the resolver effect of its attempts. *)

From S2P Require Import Prelude Url Net Proxy Worlds.

#[local] Open Scope go_scope.

(** What the HTTP path tries, in order. *)
Inductive Attempt : Type :=
| Remembered (ip : net.IP)
| Candidate (ip : net.IP)
| Literal.

#[export] Instance Attempt_eq_dec : EqDecision Attempt.
Proof. solve_decision. Defined.

(** The candidates the loops dial: the non-nil addresses, in order. *)
Definition non_nil (ips : list net.IP) : list net.IP :=
  filter (fun ip : net.IP => ip <> None) ips.

(** The plan of the HTTP path. *)
Definition http_plan (first : net.IP) (ips : list net.IP) : list Attempt :=
  match first with Some _ => [Remembered first] | None => [] end ++
  (Candidate <$> non_nil ips) ++ [Literal].

Section reach.
Context `{net.Lib} `{Env}.

(** Lines 218-227: the candidate loop of the HTTP path, on the variables
    [p.DialAddr], [conn] and [e]; it stops at the first connection. *)
Fixpoint http_try_ips (directDialer : direct) (network proxyHost proxyPort : string)
    (ips : list net.IP) (st : Proxy * GoRes net.Conn)
  : M World (Proxy * GoRes net.Conn) :=
  match ips with
  | [] => ret st
  | ip :: rest =>
      match ip with
      | None => http_try_ips directDialer network proxyHost proxyPort rest st
      | Some _ =>
          let p := set_DialAddr (FormatIP ip proxyPort) (fst st) in
          let* (conn, e) := direct_Dial directDialer network (DialAddr p) in
          match conn with
          | Some _ => dns_SetFirstIP proxyHost "" ip ;;; ret (p, (conn, e))
          | None =>
              http_try_ips directDialer network proxyHost proxyPort rest (p, (conn, e))
          end
      end
  end.

(** Lines 228-231: after the loop, with no connection, dial the proxy
    address as it is written. *)
Definition http_literal (directDialer : direct) (network proxyAddr : string)
    (st : Proxy * GoRes net.Conn) : M World (Proxy * GoRes net.Conn) :=
  match fst (snd st) with
  | Some _ => ret st
  | None =>
      let p := set_DialAddr proxyAddr (fst st) in
      r <- direct_Dial directDialer network proxyAddr ;;
      ret (p, r)
  end.

(** Lines 213-232: reach the proxy over TCP.  [e] enters as the error of
    splitting the proxy address. *)
Definition http_reach (directDialer : direct) (p : Proxy)
    (network proxyAddr proxyHost proxyPort : string)
    (ips : list net.IP) (first : net.IP) (e : option error)
  : M World (Proxy * GoRes net.Conn) :=
  st1 <- match first with
         | Some _ =>
             let p := set_DialAddr (FormatIP first proxyPort) p in
             r <- direct_Dial directDialer network (DialAddr p) ;;
             ret (p, r)
         | None => ret (p, (None, e))
         end ;;
  match fst (snd st1) with
  | Some _ => ret st1
  | None =>
      st2 <- http_try_ips directDialer network proxyHost proxyPort ips st1 ;;
      http_literal directDialer network proxyAddr st2
  end.

(** The address of an attempt of the HTTP path. *)
Definition attempt_addr (proxyAddr proxyPort : string) (a : Attempt) : string :=
  match a with
  | Remembered ip | Candidate ip => FormatIP ip proxyPort
  | Literal => proxyAddr
  end.

(** The reference search: dial the attempts in order, recording each
    address before its dial; at the first connection stop, and remember the
    address if it was a candidate. *)
Fixpoint run_plan (directDialer : direct) (network proxyAddr proxyHost proxyPort : string)
    (plan : list Attempt) (st : Proxy * GoRes net.Conn)
  : M World (Proxy * GoRes net.Conn) :=
  match plan with
  | [] => ret st
  | a :: rest =>
      let p := set_DialAddr (attempt_addr proxyAddr proxyPort a) (fst st) in
      let* (conn, e) := direct_Dial directDialer network (DialAddr p) in
      match conn with
      | Some _ =>
          match a with
          | Candidate ip => dns_SetFirstIP proxyHost "" ip
          | _ => ret tt
          end ;;;
          ret (p, (conn, e))
      | None =>
          run_plan directDialer network proxyAddr proxyHost proxyPort rest
                   (p, (conn, e))
      end
  end.

(** The order of attempts, read off the events [evs] of a run over [plan]
    that ended with the variables [st]: the dials are those of an initial
    segment [pre ++ [a]] of the plan, in order; every dial of [pre] failed;
    the result and the recorded address are those of [a]; the run stopped
    before the end of the plan only on a connection. *)
Definition tried_in_order (proxyAddr proxyPort : string) (plan : list Attempt)
    (evs : list Event) (st : Proxy * GoRes net.Conn) : Prop :=
  exists dpre pre a post,
    plan = pre ++ a :: post /\
    dials evs = dpre ++ [(attempt_addr proxyAddr proxyPort a, snd st)] /\
    fst <$> dpre = attempt_addr proxyAddr proxyPort <$> pre /\
    Forall (fun d => fst (snd d) = None) dpre /\
    DialAddr (fst st) = attempt_addr proxyAddr proxyPort a /\
    (fst (snd st) = None -> post = []).

(** What a successful attempt leaves in the resolver. *)
Definition after_hit (proxyHost : string) (a : Attempt) (w : World) : World :=
  match a with
  | Candidate ip => final (dns_SetFirstIP proxyHost "" ip w)
  | _ => w
  end.

(** The reference search as a relation: from a plan, the variables
    ([p.DialAddr], [conn], [e]) and a world, to the variables and the world
    at the end. *)
Inductive plan_run (directDialer : direct)
    (network proxyAddr proxyHost proxyPort : string)
  : list Attempt -> Proxy * GoRes net.Conn -> World ->
    Proxy * GoRes net.Conn -> World -> Prop :=
| plan_done st w :
    plan_run directDialer network proxyAddr proxyHost proxyPort [] st w st w
| plan_hit a rest st w c e :
    let addr := attempt_addr proxyAddr proxyPort a in
    env_dial (trace w) directDialer network addr = (Some c, e) ->
    plan_run directDialer network proxyAddr proxyHost proxyPort (a :: rest) st w
      (set_DialAddr addr (fst st), (Some c, e))
      (after_hit proxyHost a
         (note_open (Some c, e)
            (log (EvDial directDialer network addr (Some c, e)) w)))
| plan_miss a rest st w e st' w' :
    let addr := attempt_addr proxyAddr proxyPort a in
    env_dial (trace w) directDialer network addr = (None, e) ->
    plan_run directDialer network proxyAddr proxyHost proxyPort rest
      (set_DialAddr addr (fst st), (None, e))
      (log (EvDial directDialer network addr (None, e)) w) st' w' ->
    plan_run directDialer network proxyAddr proxyHost proxyPort (a :: rest) st w
      st' w'.

End reach.

(** ** The HTTP path is the reference search over [http_plan] *)

Section plan.
Context `{net.Lib} `{Env}.
Variables (directDialer : direct) (network proxyAddr proxyHost proxyPort : string).

(** The candidate loop followed by the literal attempt is the reference
    search over the non-nil candidates and the literal address. *)
Lemma http_try_ips_plan ips st w :
  fst (snd st) = None ->
  bind (http_try_ips directDialer network proxyHost proxyPort ips st)
       (http_literal directDialer network proxyAddr) w =
  run_plan directDialer network proxyAddr proxyHost proxyPort
    ((Candidate <$> non_nil ips) ++ [Literal]) st w.
Proof.
  revert st w. induction ips as [|[b|] ips IH]; intros [p [conn e]] w Hc;
    simpl in Hc; subst conn.
  - cbn [http_try_ips non_nil filter list_filter fmap list_fmap app run_plan].
    unfold http_literal. drun.
    by destruct (env_dial _ _ _ _) as [[c|] e'].
  - unfold non_nil. rewrite filter_cons_True by done.
    cbn [http_try_ips fmap list_fmap app run_plan attempt_addr]. drun.
    destruct (env_dial _ _ _ _) as [[c|] e'] eqn:Hd; drun; [done|].
    apply (IH (_, (None, e'))). done.
  - unfold non_nil. rewrite filter_cons_False by (by intros []).
    apply (IH (p, (None, e))). done.
Qed.

(** The HTTP path reaches the proxy by the reference search over
    [http_plan]: the remembered address if there is one, the non-nil
    candidates in resolver order, then the literal address. *)
Lemma http_reach_plan p ips first e w :
  http_reach directDialer p network proxyAddr proxyHost proxyPort ips first e w =
  run_plan directDialer network proxyAddr proxyHost proxyPort
    (http_plan first ips) (p, (None, e)) w.
Proof.
  unfold http_reach, http_plan. destruct first as [b|]; drun.
  - cbn [app run_plan attempt_addr]. drun.
    destruct (env_dial _ _ _ _) as [[c|] e'] eqn:Hd; drun; [done|].
    apply (http_try_ips_plan ips (_, (None, e'))). done.
  - apply (http_try_ips_plan ips (p, (None, e))). done.
Qed.

(** [run_plan] never panics, and its runs are those of [plan_run]. *)
Lemma run_plan_plan_run plan st w :
  exists st' w',
    run_plan directDialer network proxyAddr proxyHost proxyPort plan st w
      = Returns st' w' /\
    plan_run directDialer network proxyAddr proxyHost proxyPort plan st w st' w'.
Proof.
  revert st w. induction plan as [|a plan IH]; intros st w.
  - eexists _, _. split; [done|constructor].
  - cbn [run_plan]. drun.
    destruct (env_dial _ _ _ _) as [[c|] e] eqn:Hd.
    + eexists _, _. split; [|by apply plan_hit].
      unfold after_hit. by destruct a as [ip|[b|]|]; drun.
    + destruct (IH (set_DialAddr (attempt_addr proxyAddr proxyPort a) st.1,
                    (None, e))
                   (log (EvDial directDialer network
                           (attempt_addr proxyAddr proxyPort a) (None, e)) w))
        as (st' & w' & Hr & Hp).
      exists st', w'. split; [done|]. by eapply plan_miss.
Qed.

Lemma plan_run_run_plan plan st w st' w' :
  plan_run directDialer network proxyAddr proxyHost proxyPort plan st w st' w' ->
  run_plan directDialer network proxyAddr proxyHost proxyPort plan st w
    = Returns st' w'.
Proof.
  induction 1 as [st w|a rest st w c e addr Hd|a rest st w e st' w' addr Hd _ IH].
  - done.
  - cbn [run_plan]. drun. fold addr. rewrite Hd. unfold after_hit.
    by destruct a as [ip|[b|]|]; drun.
  - cbn [run_plan]. drun. fold addr. rewrite Hd. drun. apply IH.
Qed.

(** What a successful attempt adds to the world: at most one event, which
    is not a dial, and no connection. *)
Lemma after_hit_world a w :
  exists evs, trace (after_hit proxyHost a w) = trace w ++ evs /\
    dials evs = [] /\ opened (after_hit proxyHost a w) = opened w.
Proof.
  destruct a as [ip|ip|]; simpl.
  - exists []. by rewrite app_nil_r.
  - by exists [EvSetFirstIP proxyHost "" ip].
  - exists []. by rewrite app_nil_r.
Qed.

(** The resolver after a successful attempt. *)
Lemma after_hit_firstIP a w :
  firstIP (after_hit proxyHost a w) =
  match a with
  | Candidate (Some b) => <[(proxyHost, "") := b]> (firstIP w)
  | Candidate None => delete (proxyHost, "") (firstIP w)
  | _ => firstIP w
  end.
Proof. by destruct a as [ip|[b|]|]. Qed.

Section order.
Let addr := attempt_addr proxyAddr proxyPort.

(** A run that stops at its first attempt. *)
Lemma tried_in_order_first a rest r evs0 p :
  dials evs0 = [] -> (fst r = None -> rest = []) ->
  tried_in_order proxyAddr proxyPort (a :: rest)
    (EvDial directDialer network (addr a) r :: evs0) (set_DialAddr (addr a) p, r).
Proof.
  intros Hd Hr. exists [], [], a, rest. rewrite dials_EvDial, Hd.
  by repeat split.
Qed.

(** A run that goes on after a failed first attempt. *)
Lemma tried_in_order_cons a rest e evs st :
  tried_in_order proxyAddr proxyPort rest evs st ->
  tried_in_order proxyAddr proxyPort (a :: rest)
    (EvDial directDialer network (addr a) (None, e) :: evs) st.
Proof.
  intros (dpre & pre & b & post & -> & Hd & Hpre & Hf & Ha & Hp).
  exists ((addr a, (None, e)) :: dpre), (a :: pre), b, post.
  rewrite dials_EvDial, Hd, !fmap_cons, Hpre. repeat split; auto.
Qed.

(** Every run over a non-empty plan tries the attempts in order. *)
Lemma plan_run_order plan st w st' w' :
  plan_run directDialer network proxyAddr proxyHost proxyPort plan st w st' w' ->
  plan <> [] ->
  exists evs, trace w' = trace w ++ evs /\
    tried_in_order proxyAddr proxyPort plan evs st'.
Proof.
  induction 1 as [st w|a rest st w c e ad Hd|a rest st w e st' w' ad Hd Hr IH];
    intros Hne; [done|..].
  - destruct (after_hit_world a (note_open (Some c, e)
      (log (EvDial directDialer network ad (Some c, e)) w))) as (evs0 & Ht & Hd0 & _).
    exists (EvDial directDialer network ad (Some c, e) :: evs0).
    split; [rewrite Ht; autorewrite with go; by rewrite <- app_assoc|].
    by apply tried_in_order_first.
  - destruct rest as [|b rest].
    + inversion Hr; subst. exists [EvDial directDialer network ad (None, e)].
      split; [done|]. by apply tried_in_order_first.
    + destruct IH as (evs & Ht & Ho); [done|].
      exists (EvDial directDialer network ad (None, e) :: evs).
      split; [rewrite Ht; autorewrite with go; by rewrite <- app_assoc|].
      by apply tried_in_order_cons.
Qed.

End order.

End plan.

(** ** The search only extends the world *)

Section extends.
Context `{net.Lib} `{Env}.
Implicit Types (dd : direct) (w : World).

Lemma http_try_ips_extends dd n h port ips st w :
  extends (dialer_is dd) w (final (http_try_ips dd n h port ips st w)).
Proof.
  revert st w. induction ips as [|[b|] ips IH]; intros st w; cbn [http_try_ips];
    [walk| |done].
  drun. destruct (env_dial _ _ _ _) as [[c|] e]; [walk|].
  etrans; [|apply IH]. auto with go.
Qed.

Lemma http_literal_extends dd n a st w :
  extends (dialer_is dd) w (final (http_literal dd n a st w)).
Proof. unfold http_literal. walk. Qed.

Lemma http_reach_extends dd p n a h port ips first e w :
  extends (dialer_is dd) w (final (http_reach dd p n a h port ips first e w)).
Proof.
  unfold http_reach. apply (final_bind (extends _)); [walk|].
  intros st1 w1 _. destruct (fst (snd st1)); [walk|].
  apply (final_bind (extends _));
    auto using http_try_ips_extends, http_literal_extends.
Qed.

End extends.

(** ** A connection or an error *)

Section exclusive.
Context `{net.Lib} `{Env} `{!EnvOK}.

Lemma plan_run_exclusive dd n pa h port plan st w st' w' :
  plan_run dd n pa h port plan st w st' w' -> plan <> [] -> exclusive (snd st').
Proof.
  induction 1 as [st w|a rest st w c e ad Hd|a rest st w e st' w' ad Hd Hr IH];
    intros Hne; [done|..].
  - cbn [snd]. rewrite <- Hd. apply env_dial_exclusive.
  - destruct rest as [|b rest]; [|by apply IH].
    inversion Hr; subst. cbn [snd]. rewrite <- Hd. apply env_dial_exclusive.
Qed.

(** The HTTP path always comes back from reaching the proxy, with a
    connection or an error. *)
Lemma http_reach_exclusive dd p n pa h port ips first e w :
  exists st' w', http_reach dd p n pa h port ips first e w = Returns st' w' /\
    exclusive (snd st').
Proof.
  destruct (run_plan_plan_run dd n pa h port (http_plan first ips) (p, (None, e)) w)
    as (st' & w' & Hr & Hp).
  exists st', w'. rewrite http_reach_plan. split; [done|].
  eapply plan_run_exclusive; [done|].
  unfold http_plan. by destruct first, (Candidate <$> non_nil ips).
Qed.

End exclusive.

(** ** The HTTP path: order of attempts, their number, the resolver *)

Section http_path.
Context `{net.Lib} `{Env}.
Variables (dd : direct) (n pa h port : string).

Lemma http_plan_ne first ips : http_plan first ips <> [].
Proof.
  unfold http_plan. destruct first; [done|]. by destruct (Candidate <$> _).
Qed.

Lemma http_plan_length first ips :
  (length (http_plan first ips) <= length ips + 2)%nat.
Proof.
  unfold http_plan, non_nil. rewrite !length_app, length_fmap.
  pose proof (length_filter (fun ip : net.IP => ip <> None) ips).
  destruct first; simpl; lia.
Qed.

Lemma http_plan_candidate first ips ip :
  Candidate ip ∈ http_plan first ips -> exists b, ip = Some b /\ ip ∈ ips.
Proof.
  unfold http_plan, non_nil.
  rewrite !elem_of_app, list_elem_of_fmap, list_elem_of_singleton.
  intros [Hf|[(ip' & [= <-] & [Hn Hi]%list_elem_of_filter)|[=]]].
  - destruct first; [apply list_elem_of_singleton in Hf|apply elem_of_nil in Hf]; done.
  - destruct ip as [b|]; [by exists b|done].
Qed.

(** Reasoning on a run of [http_reach] is reasoning on the run of the
    reference search over [http_plan]. *)
Lemma http_reach_elim (Q : outcome World (Proxy * GoRes net.Conn) -> Prop)
    p ips first e w :
  (forall st' w',
     plan_run dd n pa h port (http_plan first ips) (p, (None, e)) w st' w' ->
     Q (Returns st' w')) ->
  Q (http_reach dd p n pa h port ips first e w).
Proof.
  intros HQ. rewrite http_reach_plan.
  destruct (run_plan_plan_run dd n pa h port (http_plan first ips)
              (p, (None, e)) w) as (st' & w' & -> & Hp).
  by apply HQ.
Qed.

(** The resolver after a run of the search: untouched, or holding the
    candidate the run stopped at. *)
Lemma plan_run_firstIP plan st w st' w' :
  plan_run dd n pa h port plan st w st' w' ->
  firstIP w' = firstIP w \/
  exists ip, Candidate ip ∈ plan /\ is_Some (fst (snd st')) /\
    DialAddr (fst st') = FormatIP ip port /\
    firstIP w' = firstIP (after_hit h (Candidate ip) w).
Proof.
  induction 1 as [st w|a rest st w c e ad Hd|a rest st w e st' w' ad Hd Hr IH].
  - by left.
  - rewrite after_hit_firstIP. autorewrite with go.
    destruct a as [ip|ip|]; auto.
    right. exists ip. split_and!; [by left|by eexists|done..].
  - destruct IH as [?|(ip & ? & ?)]; [left; by autorewrite with go in *|].
    right. exists ip. split; [by right|done].
Qed.

(** C5: the HTTP path refines the reference search: for any answers of the
    world it returns, and its result and final world are those the search
    relation [plan_run] gives over [http_plan]: the remembered address if
    there is one, the non-nil candidates in resolver order, the proxy
    address as written. *)
Theorem http_reach_refines p ips first e w :
  exists st' w',
    http_reach dd p n pa h port ips first e w = Returns st' w' /\
    plan_run dd n pa h port (http_plan first ips) (p, (None, e)) w st' w'.
Proof. apply http_reach_elim. eauto. Qed.

(** C2: the HTTP path dials the attempts of [http_plan] in order and stops
    at the first connection: the dials it makes are those of an initial
    segment of the plan, all but the last failed, the result and the
    recorded [DialAddr] are those of the last dial, and a failure is returned
    only after the whole plan was tried. *)
Theorem http_reach_in_order p ips first e w :
  exists st' w' evs,
    http_reach dd p n pa h port ips first e w = Returns st' w' /\
    trace w' = trace w ++ evs /\
    tried_in_order pa port (http_plan first ips) evs st'.
Proof.
  apply http_reach_elim. intros st' w' Hp.
  destruct (plan_run_order _ _ _ _ _ _ _ _ _ _ Hp (http_plan_ne _ _))
    as (evs & Ht & Ho).
  by exists st', w', evs.
Qed.

(** The HTTP path makes at least one dial and at most one per
    candidate plus two (the remembered address and the literal address). *)
Theorem http_reach_attempts p ips first e w :
  exists st' w' evs,
    http_reach dd p n pa h port ips first e w = Returns st' w' /\
    trace w' = trace w ++ evs /\
    (1 <= length (dials evs) <= length ips + 2)%nat.
Proof.
  apply http_reach_elim. intros st' w' Hp.
  destruct (plan_run_order _ _ _ _ _ _ _ _ _ _ Hp (http_plan_ne _ _))
    as (evs & Ht & dpre & pre & a & post & Hplan & Hd & Hpre & _).
  exists st', w', evs. split_and!; [done..| |]; rewrite Hd, length_app; simpl; [lia|].
  pose proof (http_plan_length first ips) as Hl.
  rewrite Hplan, length_app in Hl. simpl in Hl.
  apply (f_equal length) in Hpre. rewrite !length_fmap in Hpre. lia.
Qed.

(** C7: the HTTP path leaves the resolver's memory as it was, or sets the
    entry of the proxy host to a candidate of the list, and then only to the
    one it connected to and recorded in [DialAddr]; in particular a
    remembered address that stopped answering stays remembered until a
    candidate answers. *)
Theorem http_reach_resolver p ips first e w :
  exists st' w',
    http_reach dd p n pa h port ips first e w = Returns st' w' /\
    (firstIP w' = firstIP w \/
     exists b, Some b ∈ ips /\ is_Some (fst (snd st')) /\
       DialAddr (fst st') = FormatIP (Some b) port /\
       firstIP w' = <[(h, "") := b]> (firstIP w)).
Proof.
  apply http_reach_elim. intros st' w' Hp. exists st', w'. split; [done|].
  destruct (plan_run_firstIP _ _ _ _ _ Hp) as [?|(ip & Hin & ?)]; [by left|].
  destruct (http_plan_candidate _ _ _ Hin) as (b & -> & ?).
  right. by exists b.
Qed.

(** When the resolver remembers an address and the proxy answers
    there, the HTTP path makes that one dial: no candidate is dialled and
    the resolver is not written. *)
Theorem http_reach_remembered p ips b e w c e' :
  let a := FormatIP (Some b) port in
  env_dial (trace w) dd n a = (Some c, e') ->
  http_reach dd p n pa h port ips (Some b) e w =
  Returns (set_DialAddr a p, (Some c, e'))
    (note_open (Some c, e') (log (EvDial dd n a (Some c, e')) w)).
Proof. intros a Hd. unfold http_reach. drun. fold a. rewrite Hd. by drun. Qed.

(** The error of splitting the proxy address never leaves the HTTP
    path: the literal address is dialled whether it splits or not, and the
    result is that of the dials. *)
Theorem http_reach_split_error p ips first e e0 w :
  http_reach dd p n pa h port ips first e w =
  http_reach dd p n pa h port ips first e0 w.
Proof.
  rewrite !http_reach_plan. pose proof (http_plan_ne first ips) as Hne.
  destruct (http_plan first ips) as [|a plan]; [done|].
  cbn [run_plan]. by drun.
Qed.

End http_path.

(** ** The theorems at concrete inputs *)

Lemma http_reach_remembered_witness :
  let c := net.mkConn 0 "10.0.0.1:8080" in
  @http_reach stub_lib remembered_env example_dialer example_proxy "tcp"
    "proxy.example:8080" "proxy.example" "8080" example_ips (Some remembered_ip)
    None empty_world =
  Returns (set_DialAddr "10.0.0.1:8080" example_proxy, (Some c, None))
    (note_open (Some c, None)
       (log (EvDial example_dialer "tcp" "10.0.0.1:8080" (Some c, None))
          empty_world)).
Proof.
  by apply (@http_reach_remembered stub_lib remembered_env example_dialer "tcp"
              "proxy.example:8080" "proxy.example" "8080" example_proxy).
Defined.
