(* ===== verification/Socks5.v ===== *)
(** * Socks5: the SOCKS5 path of Dial

    Lines 184-211 of [Dial]: the SOCKS5 dialer is built on the proxy address
    as written; the remembered address, then the candidates of the resolver
    ([socks5_try_ips]), then the destination ([socks5_last]) are given to
    the dialer as the target of the tunnel; [DialAddr] is assigned after a
    dial that connected.  [dial_socks5] is that code.

    The theorems: the path only extends the world and always returns;
    every dial goes through the one dialer built on the proxy address; what
    the path is asked to connect to, and what it records in [DialAddr]. *)

From S2P Require Import Prelude Url Net Proxy Worlds.

#[local] Open Scope go_scope.

Section socks5.
Context `{net.Lib} `{Env}.

(** Lines 196-205: the candidate loop of the SOCKS5 path.  [Some] is the
    early return of the function. *)
Fixpoint socks5_try_ips (d : Socks5Dialer) (p : Proxy)
    (network proxyHost proxyPort : string) (ips : list net.IP)
  : M World (option (Proxy * GoRes net.Conn)) :=
  match ips with
  | [] => ret None
  | ip :: rest =>
      match ip with
      | None => socks5_try_ips d p network proxyHost proxyPort rest
      | Some _ =>
          let* (conn, e) := socks5_Dial d network (FormatIP ip proxyPort) in
          match conn with
          | Some _ =>
              dns_SetFirstIP proxyHost "" ip ;;;
              ret (Some (set_DialAddr (FormatIP ip proxyPort) p, (conn, e)))
          | None => socks5_try_ips d p network proxyHost proxyPort rest
          end
      end
  end.

(** Lines 206-210: the last attempt of the SOCKS5 path, a SOCKS5 dial of
    the destination. *)
Definition socks5_last (d : Socks5Dialer) (p : Proxy) (network addr : string)
  : M World (option Proxy * GoRes net.Conn) :=
  let* (conn, e) := socks5_Dial d network addr in
  match conn with
  | Some _ => ret (Some (set_DialAddr addr p), (conn, e))
  | None => ret (Some p, (conn, e))
  end.

(** Lines 196-210: the SOCKS5 path after the remembered address: the
    candidates, then the last attempt. *)
Definition socks5_candidates (d : Socks5Dialer) (p : Proxy)
    (network addr proxyHost proxyPort : string) (ips : list net.IP)
  : M World (option Proxy * GoRes net.Conn) :=
  r2 <- socks5_try_ips d p network proxyHost proxyPort ips ;;
  match r2 with
  | Some (p', r) => ret (Some p', r)
  | None => socks5_last d p network addr
  end.

(** Lines 184-211: the SOCKS5 path. *)
Definition dial_socks5 (directDialer : direct) (p : Proxy)
    (network addr proxyAddr proxyHost proxyPort : string)
    (ips : list net.IP) (first : net.IP)
  : M World (option Proxy * GoRes net.Conn) :=
  match SOCKS5 "tcp" proxyAddr (getSocksAuth (Some p)) directDialer with
  | (_, Some err1) => ret (Some p, (None, Some err1))
  | (None, None) => panic
  | (Some d, None) =>
      r1 <- match first with
            | Some _ =>
                let* (conn, e) := socks5_Dial d network (FormatIP first proxyPort) in
                match conn with
                | Some _ =>
                    ret (Some (set_DialAddr (FormatIP first proxyPort) p, (conn, e)))
                | None => ret None
                end
            | None => ret None
            end ;;
      match r1 with
      | Some (p', r) => ret (Some p', r)
      | None => socks5_candidates d p network addr proxyHost proxyPort ips
      end
  end.

End socks5.

(** ** The path only extends the world, and returns *)

Section extends.
Context `{net.Lib} `{Env}.
Implicit Types (dd : direct) (w : World).

Lemma socks5_try_ips_extends d p n h port ips w :
  extends (socks_via d) w (final (socks5_try_ips d p n h port ips w)).
Proof.
  revert w. induction ips as [|[b|] ips IH]; intros w; cbn [socks5_try_ips];
    [walk| |done].
  drun. destruct (env_socks5_dial _ _ _ _) as [[c|] e]; [walk|].
  etrans; [|apply IH]. auto with go.
Qed.

(** The SOCKS5 path makes no direct dial, and every SOCKS5 dial goes
    through the one dialer built on the proxy address as written. *)
Lemma dial_socks5_run_via dd p n a pa h port ips first w :
  extends (socks_via (mkSocks5 "tcp" pa (getSocksAuth (Some p)) dd)) w
    (final (dial_socks5 dd p n a pa h port ips first w)).
Proof.
  unfold dial_socks5, SOCKS5. destruct (env_socks5_new _ _ _); [done|].
  apply (final_bind (extends _)); [walk|].
  intros [[p' r]|] w1 _; [done|]. unfold socks5_candidates.
  apply (final_bind (extends _)); [apply socks5_try_ips_extends|].
  intros [[p' r]|] w2 _; [done|]. unfold socks5_last. walk.
Qed.

Lemma dial_socks5_extends dd p n a pa h port ips first w :
  extends (dialer_is dd) w (final (dial_socks5 dd p n a pa h port ips first w)).
Proof.
  eapply extends_mono; [|apply dial_socks5_run_via].
  intros ev Hev. by apply socks_via_dialer_is in Hev.
Qed.

(** C32: on the SOCKS5 path [Dial] itself makes no direct dial, and every
    SOCKS5 dial goes through one dialer, built on the proxy address as the
    URL writes it with the credentials of the descriptor: the addresses the
    resolver returned are never used to reach the proxy. *)
Theorem dial_socks5_via dd p n a pa h port ips first w :
  exists evs,
    trace (final (dial_socks5 dd p n a pa h port ips first w)) = trace w ++ evs /\
    Forall (socks_via (mkSocks5 "tcp" pa (getSocksAuth (Some p)) dd)) evs.
Proof. apply extends_events, dial_socks5_run_via. Qed.

Lemma socks5_try_ips_returns d p n h port ips w :
  returns (socks5_try_ips d p n h port ips w).
Proof.
  revert w. induction ips as [|[b|] ips IH]; intros w; cbn [socks5_try_ips];
    [walk| |done].
  drun. destruct (env_socks5_dial _ _ _ _) as [[c|] e]; [walk|done].
Qed.

Lemma dial_socks5_returns dd p n a pa h port ips first w :
  returns (dial_socks5 dd p n a pa h port ips first w).
Proof.
  unfold dial_socks5, SOCKS5. destruct (env_socks5_new _ _ _); [done|].
  apply returns_bind; [walk|]. intros [[p' r]|] w1 _; [done|].
  unfold socks5_candidates.
  apply returns_bind; [apply socks5_try_ips_returns|].
  intros [[p' r]|] w2 _; [done|]. unfold socks5_last. walk.
Qed.

End extends.

(** ** The SOCKS5 path *)

Section socks5_path.
Context `{net.Lib} `{Env}.
Variables (dd : direct) (p : Proxy) (n addr pa h port : string).
Let d := mkSocks5 "tcp" pa (getSocksAuth (Some p)) dd.

(** C28: when the resolver remembers an address of the proxy host and the
    SOCKS5 dial to it succeeds, the SOCKS5 path makes that one dial and
    returns its connection: the proxy was asked to connect to its own
    remembered address and port, and the destination [addr] of the call
    appears nowhere in the run. *)
Theorem dial_socks5_remembered ips b w c e :
  env_socks5_new "tcp" pa (getSocksAuth (Some p)) = None ->
  let target := FormatIP (Some b) port in
  env_socks5_dial (trace w) d n target = (Some c, e) ->
  dial_socks5 dd p n addr pa h port ips (Some b) w =
  Returns (Some (set_DialAddr target p), (Some c, e))
    (note_open (Some c, e) (log (EvSocksDial d n target (Some c, e)) w)).
Proof.
  intros Hnew target Hd. unfold dial_socks5, SOCKS5. rewrite Hnew.
  drun. fold d target. rewrite Hd. by drun.
Qed.

(** The candidate loop leaves the descriptor alone unless it returns. *)
Lemma socks5_try_ips_hit ips w :
  exists r w', socks5_try_ips d p n h port ips w = Returns r w' /\
    match r with
    | Some (p', (conn, _)) =>
        is_Some conn /\ exists ip, ip ∈ ips /\ p' = set_DialAddr (FormatIP ip port) p
    | None => True
    end.
Proof.
  revert w. induction ips as [|[b|] ips IH]; intros w; cbn [socks5_try_ips].
  - by eexists _, _.
  - drun. destruct (env_socks5_dial _ _ _ _) as [[c|] e]; drun.
    + eexists _, _. split; [done|]. split; [by eexists|].
      eexists. split; [by left|done].
    + destruct (IH (note_open (None, e)
                   (log (EvSocksDial d n (FormatIP (Some b) port) (None, e)) w)))
        as (r & w' & -> & Hr).
      exists r, w'. split; [done|]. destruct r as [[p' [conn e']]|]; [|done].
      destruct Hr as (? & ip & ? & ?). split; [done|]. exists ip. by split; [right|].
  - destruct (IH w) as (r & w' & -> & Hr). exists r, w'. split; [done|].
    destruct r as [[p' [conn e']]|]; [|done].
    destruct Hr as (? & ip & ? & ?). split; [done|]. exists ip. by split; [right|].
Qed.

(** What the SOCKS5 path records in [DialAddr] for a result: nothing
    without a connection, the target of the dial with one. *)
Definition socks5_records (ips : list net.IP) (first : net.IP)
    (o : outcome World (option Proxy * GoRes net.Conn)) : Prop :=
  exists p' r w', o = Returns (Some p', r) w' /\
    match fst r with
    | None => p' = p
    | Some _ =>
        exists target, p' = set_DialAddr target p /\
          (target = FormatIP first port /\ first <> None \/
           (exists ip, ip ∈ ips /\ target = FormatIP ip port) \/
           target = addr)
    end.

Lemma socks5_candidates_records ips first w :
  socks5_records ips first (socks5_candidates d p n addr h port ips w).
Proof.
  unfold socks5_candidates.
  destruct (socks5_try_ips_hit ips w) as (r & w' & Hr & Hm).
  rewrite (bind_returns _ _ _ _ _ Hr).
  destruct r as [[p' [conn e]]|].
  - destruct Hm as ([c ->] & ip & ? & ->). drun. eexists _, _, _. split; [done|].
    eexists. split; [done|]. right; left. by exists ip.
  - unfold socks5_last. drun.
    destruct (env_socks5_dial _ _ _ _) as [[c|] e]; drun;
      eexists _, _, _; (split; [done|]); [|done].
    eexists. split; [done|]. by right; right.
Qed.

(** C31: the SOCKS5 path always returns, and it records a dialled address
    only on success: when it returns no connection, the descriptor is as it
    was on entry, so that [DialAddr] does not name any address that was
    tried; when it returns a connection, [DialAddr] is the target of the
    SOCKS5 dial that gave it, one of the remembered address, a candidate or
    the destination. *)
Theorem dial_socks5_DialAddr ips first w :
  exists p' r w',
    dial_socks5 dd p n addr pa h port ips first w = Returns (Some p', r) w' /\
    match fst r with
    | None => p' = p
    | Some _ =>
        exists target, p' = set_DialAddr target p /\
          (target = FormatIP first port /\ first <> None \/
           (exists ip, ip ∈ ips /\ target = FormatIP ip port) \/
           target = addr)
    end.
Proof.
  change (socks5_records ips first (dial_socks5 dd p n addr pa h port ips first w)).
  unfold dial_socks5, SOCKS5.
  destruct (env_socks5_new _ _ _); [by eexists _, _, _|].
  fold d. destruct first as [b|]; drun; [|apply socks5_candidates_records].
  destruct (env_socks5_dial _ _ _ _) as [[c|] e]; drun;
    [|apply socks5_candidates_records].
  eexists _, _, _. split; [done|]. eexists. split; [done|]. by left.
Qed.

End socks5_path.

(** ** The theorems at concrete inputs *)

Lemma dial_socks5_remembered_witness :
  let d := mkSocks5 "tcp" "proxy.example:1080" None example_dialer in
  let c := net.mkConn 0 "proxy.example:1080" in
  @dial_socks5 stub_lib socks_env example_dialer socks_proxy "tcp"
    "example.org:443" "proxy.example:1080" "proxy.example" "1080" example_ips
    (Some remembered_ip) empty_world =
  Returns (Some (set_DialAddr "10.0.0.1:1080" socks_proxy), (Some c, None))
    (note_open (Some c, None)
       (log (EvSocksDial d "tcp" "10.0.0.1:1080" (Some c, None)) empty_world)).
Proof.
  by apply (@dial_socks5_remembered stub_lib socks_env example_dialer socks_proxy
              "tcp" "example.org:443" "proxy.example:1080" "proxy.example" "1080").
Defined.
