(* ===== verification/Dial.v ===== *)
(** * Dial: the dial orchestrator of Proxy.go

    [Dial] follows [func (p *Proxy) Dial] statement by statement, in the
    monad [M World]; it returns the receiver after the call (the code assigns
    [p.DialAddr] through the pointer) and the Go result pair.  Its parts are
    definitions of their own so that each can be stated and proved alone:

    - [bypasses] and [dial_plain]: the bypass test and the direct dial of
      the unset-descriptor and bypass paths;
    - [resolve_proxy]: candidates and remembered address of the proxy host;
    - [dial_socks5] of [Socks5]: the SOCKS5 path;
    - [dial_http]: the HTTP path, made of [http_reach] of [Reach] and of
      [connect_handshake] of [Handshake];
    - [DialWithTimeout].

    [Dial_cases] is the eliminator of [Dial]: a property of the four paths
    (nil receiver, direct dial, SOCKS5, HTTP) is a property of [Dial].  The
    theorems come in groups: every part only extends the world, so every
    dial of a call carries the timeout of the receiver; [Dial] never panics
    under the contract [EnvOK]; the paths that never contact the proxy;
    runs of [Dial] in the worlds of [Worlds]; and the theorems applied at
    concrete inputs. *)

From S2P Require Import Prelude Url Net Proxy Worlds Handshake Reach Socks5.

#[local] Open Scope go_scope.

Section dial.
Context `{url.Lib} `{net.Lib} `{Env}.

(** The direct dial of lines 156-160 and 164-168: on a connection, record
    its remote address. *)
Definition dial_plain (directDialer : direct) (p : Proxy) (network addr : string)
  : M World (option Proxy * GoRes net.Conn) :=
  let* (a, e) := direct_Dial directDialer network addr in
  match a with
  | Some c => ret (Some (set_DialAddr (net.RemoteAddr c) p), (a, e))
  | None => ret (Some p, (a, e))
  end.

(** Lines 175-182: candidates and remembered address of the proxy host,
    asked only when the host splits and is not an IP literal. *)
Definition resolve_proxy (proxyHost : string) (e : option error)
  : M World (list net.IP * net.IP) :=
  match e with
  | None =>
      if bool_decide (net.ParseIP proxyHost = None)
      then
        let* (ips, _) := dns_LookupIP proxyHost "" in
        first <- dns_GetFirstIP proxyHost "" ;;
        ret (ips, first)
      else ret ([], None)
  | Some _ => ret ([], None)
  end.

(** Lines 213-253: the HTTP path.  A nil [conn] with a nil [e] makes
    [conn.Write] panic. *)
Definition dial_http (directDialer : direct) (p : Proxy)
    (network addr proxyAddr proxyHost proxyPort : string)
    (ips : list net.IP) (first : net.IP) (e : option error)
  : M World (option Proxy * GoRes net.Conn) :=
  let* (p, (conn, e)) :=
    http_reach directDialer p network proxyAddr proxyHost proxyPort ips first e in
  match e with
  | Some e => ret (Some p, (None, Some e))
  | None =>
      match conn with
      | None => panic
      | Some c =>
          r <- connect_handshake (Some p) c addr ;;
          ret (Some p, r)
      end
  end.

(** Lines 162-163: the bypass test, [p.Regexp != nil] and then
    [Host != "" && p.Regexp(Host)]. *)
Definition bypasses (p : Proxy) (Host : string) : bool :=
  match Regexp p with
  | Some f => bool_decide (Host <> "") && f Host
  | None => false
  end.

(** [func (p *Proxy) Dial(network, addr string) (net.Conn, error)]. *)
Definition Dial (p : option Proxy) (network addr : string)
  : M World (option Proxy * GoRes net.Conn) :=
  let directDialer := mkDirect (getTimeout p) in
  let '(Host, _, _) := net.SplitHostPort addr in
  match p with
  | None =>
      r <- direct_Dial directDialer network addr ;;
      ret (None, r)
  | Some p =>
      let p := set_DialAddr Host p in
      match URL p with
      | None => dial_plain directDialer p network addr
      | Some U =>
          if bypasses p Host
          then dial_plain directDialer p network addr
          else
            let proxyAddr := url.Host U in
            let '(proxyHost, proxyPort, e) := net.SplitHostPort proxyAddr in
            let* (ips, first) := resolve_proxy proxyHost e in
            if IsSocksType (Some p)
            then dial_socks5 directDialer p network addr proxyAddr
                             proxyHost proxyPort ips first
            else dial_http directDialer p network addr proxyAddr
                           proxyHost proxyPort ips first e
      end
  end.

(** [func (p *Proxy) DialWithTimeout(network, addr string, Timeout
    time.Duration)]: the clone is local, so only the result comes back. *)
Definition DialWithTimeout (p : option Proxy) (network addr : string)
    (Timeout : time.Duration) : M World (GoRes net.Conn) :=
  let pp := default zero_Proxy (Clone p) in
  let pp := set_timeout Timeout pp in
  let* (_, r) := Dial (Some pp) network addr in
  ret r.

End dial.

(** ** The paths of Dial *)

Section paths.
Context `{net.Lib} `{Env}.

(** Reasoning on [Dial] is reasoning on its four paths: the direct dial of
    a nil receiver; the direct dial of a descriptor without URL or of a
    bypassed destination; and, after the resolution of the proxy host, the
    SOCKS5 path or the HTTP path. *)
Lemma Dial_cases (Q : M World (option Proxy * GoRes net.Conn) -> Prop) p n a :
  let dd := mkDirect (getTimeout p) in
  let Host := fst (fst (net.SplitHostPort a)) in
  (p = None -> Q (r <- direct_Dial dd n a ;; ret (None, r))) ->
  (forall q, p = Some q -> Q (dial_plain dd (set_DialAddr Host q) n a)) ->
  (forall q U h port e, p = Some q -> URL q = Some U ->
     Q (let* (ips, first) := resolve_proxy h e in
        dial_socks5 dd (set_DialAddr Host q) n a (url.Host U) h port ips first)) ->
  (forall q U h port e, p = Some q -> URL q = Some U ->
     Q (let* (ips, first) := resolve_proxy h e in
        dial_http dd (set_DialAddr Host q) n a (url.Host U) h port ips first e)) ->
  Q (Dial p n a).
Proof.
  intros dd Host Hnil Hplain Hsocks Hhttp. unfold Dial. subst Host. fold dd.
  destruct (net.SplitHostPort a) as [[Host port] e0]. cbn [fst] in *.
  destruct p as [p|]; [|auto].
  destruct (URL (set_DialAddr Host p)) as [U|] eqn:HU; [|auto].
  destruct (bypasses _ _); [auto|].
  destruct (net.SplitHostPort (url.Host U)) as [[h port'] e].
  destruct (IsSocksType _); eauto.
Qed.

End paths.

(** ** Every part of the dialer only extends the world *)

Section extends.
Context `{net.Lib} `{Env}.
Implicit Types (dd : direct) (w : World).

Lemma dial_plain_extends dd p n a w :
  extends (dialer_is dd) w (final (dial_plain dd p n a w)).
Proof. unfold dial_plain. walk. Qed.

Lemma resolve_proxy_extends dd h e w :
  extends (dialer_is dd) w (final (resolve_proxy h e w)).
Proof. unfold resolve_proxy. walk. Qed.

Lemma dial_http_extends dd p n a pa h port ips first e w :
  extends (dialer_is dd) w (final (dial_http dd p n a pa h port ips first e w)).
Proof.
  unfold dial_http. apply (final_bind (extends _)); [apply http_reach_extends|].
  intros [p' [[c|] [e'|]]] w1 _; drun; try done.
  apply (final_bind (extends _)); [apply connect_handshake_extends|done].
Qed.

End extends.

Section dial_extends.
Context `{url.Lib} `{net.Lib} `{Env}.

(** Whatever the world answers, [Dial] only appends events to the trace;
    every dial among them goes through a dialer whose timeout is
    [getTimeout] of the receiver; and the resolver's memory and the set of
    open connections change exactly as the appended events say.  This holds
    at a panic too. *)
Lemma Dial_run_extends p n a w :
  extends (dialer_is (mkDirect (getTimeout p))) w (final (Dial p n a w)).
Proof.
  apply (Dial_cases (fun c => extends _ w (final (c w)))); intros;
    [walk|apply dial_plain_extends|..];
    (apply (final_bind (extends _)); [apply resolve_proxy_extends|]);
    intros [ips first] w1 _;
    auto using dial_socks5_extends, dial_http_extends.
Qed.

(** [Dial] keeps the state true to the trace: if the resolver's memory
    and the set of open connections are what the events so far say, they
    still are after the call, every connection opened and closed by the call
    accounted for.  This holds at a panic too. *)
Theorem Dial_world_ok p n a w :
  world_ok w -> world_ok (final (Dial p n a w)).
Proof. apply extends_world_ok with (dialer_is (mkDirect (getTimeout p))), Dial_run_extends. Qed.

(** C6: [Dial] only appends events to the trace, and every dial among them,
    direct or forwarded by the SOCKS5 dialer, is made with the timeout
    [getTimeout] of the receiver. *)
Theorem Dial_timeout p n a w :
  exists evs, trace (final (Dial p n a w)) = trace w ++ evs /\
    Forall (dialer_is (mkDirect (getTimeout p))) evs.
Proof. apply extends_events, Dial_run_extends. Qed.

(** C33: [DialWithTimeout] makes every dial with the timeout of the call, or
    with 15 seconds when that is zero, whatever the timeout of the
    receiver; this holds on a nil receiver and on one that [Clone] refuses,
    which are dialled as an unset descriptor. *)
Theorem DialWithTimeout_timeout p n a T w :
  exists evs, trace (final (DialWithTimeout p n a T w)) = trace w ++ evs /\
    Forall (dialer_is (mkDirect (if bool_decide (T = 0)
                                 then 15 * time.Second else T))) evs.
Proof.
  unfold DialWithTimeout.
  set (pp := set_timeout T _).
  replace (final _) with (final (Dial (Some pp) n a w))
    by (unfold bind; by destruct (Dial _ _ _ _) as [[? ?] ?|]).
  apply extends_events.
  by apply (Dial_run_extends (Some pp)).
Qed.

(** C34: the timeout 0 given to [ParseProxy] is stored as it is and read as
    15 seconds: every dial [Dial] makes on the descriptor, on every path, is
    made with the read-time fallback, not with 0 and not with the 30
    seconds of a descriptor parsed without timeout. *)
Theorem Dial_parsed_zero u rest p e n a w :
  ParseProxy u (0 :: rest) = (Some p, e) ->
  timeout p = 0 /\
  exists evs, trace (final (Dial (Some p) n a w)) = trace w ++ evs /\
    Forall (dialer_is (mkDirect (15 * time.Second))) evs.
Proof.
  intros Hp. rewrite <- (getTimeout_explicit_zero u rest p e Hp).
  split; [by apply ParseProxy_inv in Hp as (_ & U & _ & _ & _ & ->)|].
  apply extends_events, Dial_run_extends.
Qed.

End dial_extends.

(** ** Absence of panics *)

Section returns.
Context `{net.Lib} `{Env}.
Implicit Types (dd : direct) (w : World).

Lemma dial_plain_returns dd p n a w : returns (dial_plain dd p n a w).
Proof. unfold dial_plain. walk. Qed.

Lemma resolve_proxy_returns h e w : returns (resolve_proxy h e w).
Proof. unfold resolve_proxy. walk. Qed.

(** From here on the dialers keep their contract. *)
Context `{!EnvOK}.

Lemma dial_http_returns dd p n a pa h port ips first e w :
  returns (dial_http dd p n a pa h port ips first e w).
Proof.
  unfold dial_http.
  destruct (http_reach_exclusive dd p n pa h port ips first e w)
    as ([p' [[c|] [e'|]]] & w' & Hr & Hx); try done;
    rewrite (bind_returns _ _ _ _ _ Hr); drun; [|done].
  apply returns_bind; [apply connect_handshake_returns|done].
Qed.

(** C1: when the dialers keep their contract (a connection or an error,
    never both, never neither), [Dial] never panics: every run returns. *)
Theorem Dial_no_panic p n a w : returns (Dial p n a w).
Proof.
  apply (Dial_cases (fun c => returns (c w))); intros;
    [walk|apply dial_plain_returns|..];
    (apply returns_bind; [apply resolve_proxy_returns|]);
    intros [ips first] w1 _;
    auto using dial_socks5_returns, dial_http_returns.
Qed.

End returns.

(** ** The paths that never contact the proxy *)

Section direct_paths.
Context `{url.Lib} `{net.Lib} `{Env}.

Lemma dial_plain_run dd p n a w :
  let r := env_dial (trace w) dd n a in
  dial_plain dd p n a w =
  Returns (Some (match fst r with
                 | Some c => set_DialAddr (net.RemoteAddr c) p
                 | None => p
                 end), r)
          (note_open r (log (EvDial dd n a r) w)).
Proof. unfold dial_plain. drun. by destruct (env_dial _ _ _ _) as [[c|] e]. Qed.

(** C3: when the bypass predicate is set and accepts the destination host,
    and that host is not empty, [Dial] makes exactly one call, a direct dial
    of the destination with the receiver's timeout, and returns its result;
    the proxy is never dialled and the resolver is neither asked nor
    written.  The dialled address is the remote address of the connection,
    or the destination host when the dial failed. *)
Theorem Dial_bypass p U f n a w :
  URL p = Some U -> Regexp p = Some f ->
  let Host := fst (fst (net.SplitHostPort a)) in
  Host <> "" -> f Host = true ->
  let dd := mkDirect (getTimeout (Some p)) in
  let r := env_dial (trace w) dd n a in
  Dial (Some p) n a w =
  Returns (Some (set_DialAddr (match fst r with
                               | Some c => net.RemoteAddr c
                               | None => Host
                               end) p), r)
          (note_open r (log (EvDial dd n a r) w)).
Proof.
  intros HU Hf Host Hne Hacc dd r. unfold Dial. subst Host.
  destruct (net.SplitHostPort a) as [[Host port] e0]. cbn [fst] in *.
  rewrite URL_set_DialAddr, HU. unfold bypasses.
  rewrite Regexp_set_DialAddr, Hf, Hacc, bool_decide_eq_true_2 by done.
  cbn [andb]. rewrite dial_plain_run. cbn zeta. fold dd r.
  destruct (fst r); by rewrite ?set_DialAddr_twice.
Qed.

(** C29: on a nil receiver or a descriptor with no URL, [Dial] makes exactly
    one call, a direct dial of the destination, and returns its result; a
    nil receiver dials with the 15 second fallback. *)
Theorem Dial_without_proxy p n a w :
  match p with Some q => URL q = None | None => True end ->
  let Host := fst (fst (net.SplitHostPort a)) in
  let dd := mkDirect (getTimeout p) in
  let r := env_dial (trace w) dd n a in
  Dial p n a w =
  Returns ((fun q => set_DialAddr (match fst r with
                                   | Some c => net.RemoteAddr c
                                   | None => Host
                                   end) q) <$> p, r)
          (note_open r (log (EvDial dd n a r) w)).
Proof.
  intros HU Host dd r. unfold Dial. subst Host.
  destruct (net.SplitHostPort a) as [[Host port] e0]. cbn [fst] in *.
  destruct p as [p|]; [|by drun].
  rewrite URL_set_DialAddr, HU, dial_plain_run. cbn zeta. fold dd r.
  destruct (fst r); by rewrite ?set_DialAddr_twice.
Qed.

(** C36: the resolver is asked only for a proxy address that splits into
    host and port and whose host is not an IP literal; it is then asked for
    the candidates first and for the remembered address second, whatever
    the remembered address turns out to be. *)
Theorem resolve_proxy_spec h e w :
  resolve_proxy h e w =
  if bool_decide (e = None /\ net.ParseIP h = None)
  then Returns (fst (env_lookup (trace w) h ""), firstIP w !! (h, ""))
         (log (EvGetFirstIP h "" (firstIP w !! (h, "")))
            (log (EvLookupIP h "" (fst (env_lookup (trace w) h ""))) w))
  else Returns ([], None) w.
Proof.
  unfold resolve_proxy. destruct e as [e|].
  - by rewrite bool_decide_eq_false_2 by (by intros [? _]).
  - case_bool_decide as Hp.
    + rewrite bool_decide_eq_true_2 by done. drun.
      by destruct (env_lookup _ _ _).
    + by rewrite bool_decide_eq_false_2 by (by intros [_ ?]).
Qed.

(** C35: a receiver that [Clone] refuses (nil, without URL, or with a host
    shorter than three characters) is dialled by [DialWithTimeout] as an
    unset descriptor: one direct dial of the destination with the timeout
    of the call, the proxy never contacted. *)
Theorem DialWithTimeout_unclonable p n a T w :
  Clone p = None ->
  let dd := mkDirect (if bool_decide (T = 0) then 15 * time.Second else T) in
  let r := env_dial (trace w) dd n a in
  DialWithTimeout p n a T w = Returns r (note_open r (log (EvDial dd n a r) w)).
Proof.
  intros HC dd r. unfold DialWithTimeout, Dial. rewrite HC.
  destruct (net.SplitHostPort a) as [[Host port] e0]. cbn [default].
  rewrite URL_set_DialAddr, URL_set_timeout. cbn [URL zero_Proxy].
  unfold bind. by rewrite dial_plain_run.
Qed.

End direct_paths.

(** ** Runs of [Dial] in the example worlds *)

(** With candidates 10.0.0.2, nil and 10.0.0.3 of which only 10.0.0.3
    takes connections, and nothing remembered, [Dial] through the HTTP proxy
    dials 10.0.0.2 and then 10.0.0.3 on the proxy port, remembers 10.0.0.3
    for the proxy host, records it in [DialAddr] and returns the connection
    after the exchange, without an error. *)
Example Dial_candidates_example :
  exists p' c w',
    @Dial stub_lib example_env (Some example_proxy) "tcp" "example.org:443"
      empty_world = Returns (Some p', (Some c, None)) w' /\
    DialAddr p' = "10.0.0.3:8080" /\ net.RemoteAddr c = "10.0.0.3:8080" /\
    fst <$> dials (trace w') = ["10.0.0.2:8080"; "10.0.0.3:8080"] /\
    firstIP w' !! ("proxy.example", "") = stub_ParseIP "10.0.0.3".
Proof. eexists _, _, _. split; [by vm_compute|]. by vm_compute. Qed.

(** A proxy that answers the CONNECT request with eight bytes and no
    read error makes [Dial] return neither a connection nor an error. *)
Example Dial_short_reply_example :
  exists p' w',
    @Dial stub_lib short_env (Some example_proxy) "tcp" "example.org:443"
      empty_world = Returns (p', (None, None)) w'.
Proof. eexists _, _. by vm_compute. Qed.

(** A proxy that answers the CONNECT request with [407] makes [Dial]
    return an error while the connection to the proxy stays open: the last
    event is the read, and no close follows. *)
Example Dial_rejected_example :
  exists p' e w' c data er,
    @Dial stub_lib refusing_env (Some example_proxy) "tcp" "example.org:443"
      empty_world = Returns (p', (None, Some e)) w' /\
    last (trace w') = Some (EvRead c data er) /\
    net.conn_id c ∈ opened w'.
Proof.
  eexists _, _, _, _, _, _. split; [by vm_compute|].
  split; [by vm_compute|]. refine (bool_decide_unpack _ _). by vm_compute.
Qed.

(** The contract of the dial primitive is needed for [Dial] not to
    panic: in a world whose dials return neither a connection nor an error,
    the HTTP path reaches [conn.Write] on a nil connection. *)
Example Dial_panics_example :
  exists w',
    @Dial stub_lib silent_env (Some example_proxy) "tcp" "example.org:443"
      empty_world = Panics w'.
Proof. eexists. by vm_compute. Qed.

(** ** The theorems at concrete inputs *)

Lemma Dial_no_panic_witness :
  returns (@Dial stub_lib example_env (Some example_proxy) "tcp"
             "example.org:443" empty_world).
Proof.
  apply (@Dial_no_panic stub_lib example_env (stub_env_ok _ _ _ _)).
Defined.

Lemma Dial_parsed_zero_witness :
  timeout (set_timeout 0 example_proxy) = 0 /\
  exists evs,
    trace (final (@Dial stub_lib example_env (Some (set_timeout 0 example_proxy))
                    "tcp" "example.org:443" empty_world)) =
      trace empty_world ++ evs /\
    Forall (dialer_is (mkDirect (15 * time.Second))) evs.
Proof.
  apply (@Dial_parsed_zero url.simple stub_lib example_env
           "http://user:pw@proxy.example:8080" [] _ None).
  reflexivity.
Defined.

Lemma Dial_world_ok_witness :
  world_ok (final (@Dial stub_lib example_env (Some example_proxy) "tcp"
                     "example.org:443" empty_world)).
Proof. by apply (@Dial_world_ok stub_lib example_env). Defined.

Lemma Dial_bypass_witness :
  @Dial stub_lib example_env (Some bypass_proxy) "tcp" "skip.me:443" empty_world =
  Returns (Some (set_DialAddr "skip.me" bypass_proxy), (None, Some refused))
    (log (EvDial example_dialer "tcp" "skip.me:443" (None, Some refused))
       empty_world).
Proof.
  by apply (@Dial_bypass stub_lib example_env bypass_proxy example_http
              (String.eqb "skip.me")).
Defined.

Lemma Dial_without_proxy_witness :
  @Dial stub_lib example_env None "tcp" "example.org:443" empty_world =
  Returns (None, (None, Some refused))
    (log (EvDial (mkDirect (15 * time.Second)) "tcp" "example.org:443"
            (None, Some refused)) empty_world).
Proof. by apply (@Dial_without_proxy stub_lib example_env None). Defined.

Lemma DialWithTimeout_unclonable_witness :
  @DialWithTimeout url.simple stub_lib example_env None "tcp" "example.org:443"
    time.Second empty_world =
  Returns (None, Some refused)
    (log (EvDial (mkDirect time.Second) "tcp" "example.org:443"
            (None, Some refused)) empty_world).
Proof.
  by apply (@DialWithTimeout_unclonable url.simple stub_lib example_env None).
Defined.

