(* ===== verification/Routes.v ===== *)
(** * Routes: the two proxy paths of Dial as searches

    The HTTP path and the SOCKS5 path of [Dial] are both instances of the
    search of [Search]: the same plan of attempts ([http_plan]: the
    remembered address, the non-nil candidates, a last attempt), dialled by
    [http_dial] or [socks_dial], with [remember] as the follow-up of a
    candidate that connected.  They differ in the address of the last
    attempt (the proxy address as written, or the destination) and in what
    is recorded in [DialAddr] ([recorded]: every address tried; [kept]: only
    the one that connected).

    The theorems: each path equals its search; the order of the SOCKS5
    targets; liveness, for the search of the HTTP path, for
    [Dial] as a whole when the proxy takes connections and answers [200]
    ([Dial_http_connects]) and for [Dial] through a SOCKS5 proxy that opens
    the tunnel to the destination ([Dial_socks5_connects]); and, with Go's
    [SplitHostPort] of [HostPort], that the HTTP path dials the proxy's
    port only and that a destination without port is never bypassed. *)

From stdpp Require Import relations.
From S2P Require Import Prelude Url Net HostPort Proxy Search Worlds Handshake Reach Socks5 Dial.

#[local] Open Scope go_scope.

Section routes.
Context `{net.Lib} `{Env}.

(** [directDialer.Dial(network, p.DialAddr)] on the address of an attempt:
    the address the code has just stored in [DialAddr], which is what the
    read gives when no other goroutine writes the descriptor; [Goroutines]
    has the store and the read as two actions. *)
Definition http_dial (dd : direct) (network proxyAddr proxyPort : string)
    (a : Attempt) : M World (GoRes net.Conn) :=
  direct_Dial dd network (attempt_addr proxyAddr proxyPort a).

(** [d.Dial(network, ...)] on the target of an attempt; the last attempt is
    the destination. *)
Definition socks_dial (d : Socks5Dialer) (network addr proxyPort : string)
    (a : Attempt) : M World (GoRes net.Conn) :=
  socks5_Dial d network (attempt_addr addr proxyPort a).

(** [dns.SetFirstIP(proxyHost, "", ip)] after a candidate connected. *)
Definition remember (proxyHost : string) (a : Attempt) : M World unit :=
  match a with
  | Candidate ip => dns_SetFirstIP proxyHost "" ip
  | _ => ret tt
  end.

(** What the HTTP path records: the address of the last attempt made,
    connected or not. *)
Definition recorded (addr : Attempt -> string) (p : Proxy) (x : Tried Attempt)
  : Proxy * GoRes net.Conn :=
  (match fst x with
   | Some a => set_DialAddr (addr a) p
   | None => p
   end, snd x).

(** What the SOCKS5 path records: the target of the attempt that
    connected. *)
Definition kept (addr : Attempt -> string) (p : Proxy) (x : Tried Attempt)
  : option Proxy * GoRes net.Conn :=
  (Some match fst x, fst (snd x) with
        | Some a, Some _ => set_DialAddr (addr a) p
        | _, _ => p
        end, snd x).

(** The proxy takes connections at an address: whatever happened before, a
    dial of it gives a connection. *)
Definition reachable (dd : direct) (network addr : string) : Prop :=
  forall tr, is_Some (fst (env_dial tr dd network addr)).

(** The SOCKS5 proxy opens a tunnel to a target: whatever happened before,
    the dialer's [Dial] of it gives a connection. *)
Definition relays (d : Socks5Dialer) (network target : string) : Prop :=
  forall tr, is_Some (fst (env_socks5_dial tr d network target)).

(** The proxy accepts every CONNECT request: writes succeed, and every read
    gives at least 13 bytes that start with [HTTP/1.1 200], without error. *)
Definition tunnels : Prop :=
  (forall tr c data, env_write tr c data = None) /\
  (forall tr c,
     snd (env_read tr c) = None /\
     (13 <= length (fst (env_read tr c)))%nat /\
     take 12 (fst (env_read tr c)) = bytes_of_string "HTTP/1.1 200").

End routes.

(** ** The paths are instances of the search *)

Section instances.
Context `{net.Lib} `{Env}.
Variables (dd : direct) (d : Socks5Dialer) (n pa dest h port : string).

Lemma remember_logged (obs : list Event -> list (string * GoRes net.Conn)) a w :
  (forall t ip, obs [EvSetFirstIP h t ip] = []) -> obs [] = [] ->
  exists w' evs, remember h a w = Returns tt w' /\ trace w' = trace w ++ evs /\
    obs evs = [] /\ opened w' = opened w.
Proof.
  intros Hset Hnil.
  assert (exists w' evs, ret tt w = Returns tt w' /\ trace w' = trace w ++ evs /\
            obs evs = [] /\ opened w' = opened w) as Hret.
  { exists w, []. by rewrite app_nil_r. }
  destruct a as [ip|ip|]; simpl; try done;
    eexists _, [_]; by split_and!; [destruct ip|..].
Qed.

#[export] Instance http_logged :
  Logged (attempt_addr pa port) (http_dial dd n pa port) (remember h) dials.
Proof.
  split; [done|apply dials_app| |].
  - intros a w. by eexists _, _.
  - intros a w. by apply remember_logged.
Qed.

#[export] Instance socks_logged :
  Logged (attempt_addr dest port) (socks_dial d n dest port) (remember h)
    socks_dials.
Proof.
  split; [done|apply socks_dials_app| |].
  - intros a w. by eexists _, _.
  - intros a w. by apply remember_logged.
Qed.

End instances.

(** ** Each path equals its search *)

Section equivalence.
Context `{net.Lib} `{Env}.
Variables (dd : direct) (n pa h port : string).

Lemma recorded_again addr a p x :
  set_DialAddr a (fst (recorded addr p x)) = set_DialAddr a p.
Proof. unfold recorded. destruct (fst x); simpl; by rewrite ?set_DialAddr_twice. Qed.

(** The reference search of the HTTP path is the search with every address
    recorded. *)
Lemma run_plan_search plan p last :
  run_plan dd n pa h port plan (recorded (attempt_addr pa port) p last) ≃
  (x <- search (http_dial dd n pa port) (remember h) plan last ;;
   ret (recorded (attempt_addr pa port) p x)).
Proof.
  revert last. induction plan as [|a rest IH]; intros last w; [done|].
  cbn [run_plan search]. unfold http_dial at 1. drun. rewrite recorded_again.
  destruct (env_dial _ _ _ _) as [[c|] e]; drun.
  - by destruct a; drun.
  - apply (IH (Some a, (None, e))).
Qed.

(** Reaching the proxy on the HTTP path is a search over [http_plan]. *)
Lemma http_reach_search p ips first e :
  http_reach dd p n pa h port ips first e ≃
  (x <- search (http_dial dd n pa port) (remember h) (http_plan first ips)
         (None, (None, e)) ;;
   ret (recorded (attempt_addr pa port) p x)).
Proof.
  intros w. rewrite http_reach_plan.
  apply (run_plan_search _ p (None, (None, e))).
Qed.

(** C17: the HTTP path of [Dial] is equal, as a computation, to the search
    over [http_plan] with [http_dial] and [remember], followed by the test
    of the last dial's error and the CONNECT exchange on the connection
    found, with the address of the last attempt recorded in [DialAddr]. *)
Theorem dial_http_search p a ips first e :
  dial_http dd p n a pa h port ips first e ≃
  (x <- search (http_dial dd n pa port) (remember h) (http_plan first ips)
         (None, (None, e)) ;;
   let p' := fst (recorded (attempt_addr pa port) p x) in
   match snd (snd x), fst (snd x) with
   | Some e', _ => ret (Some p', (None, Some e'))
   | None, None => panic
   | None, Some c => r <- connect_handshake (Some p') c a ;; ret (Some p', r)
   end).
Proof.
  unfold dial_http. rewrite http_reach_search, meq_bind_assoc.
  apply bind_proper; [done|]. intros [x [c e']] w. by rewrite bind_ret_l.
Qed.

(** The SOCKS5 path after the remembered address is the search over the
    candidates and the destination. *)
Lemma socks5_candidates_search d p dest ips last :
  socks5_candidates d p n dest h port ips ≃
  (x <- search (socks_dial d n dest port) (remember h)
         ((Candidate <$> non_nil ips) ++ [Literal]) last ;;
   ret (kept (attempt_addr dest port) p x)).
Proof.
  revert last. unfold socks5_candidates.
  induction ips as [|[b|] ips IH]; intros last w.
  - cbn [socks5_try_ips non_nil filter list_filter fmap list_fmap app search].
    unfold socks5_last, socks_dial. drun.
    by destruct (env_socks5_dial _ _ _ _) as [[c|] e].
  - unfold non_nil. rewrite filter_cons_True by done.
    cbn [socks5_try_ips fmap list_fmap app search].
    unfold socks_dial at 1. drun.
    destruct (env_socks5_dial _ _ _ _) as [[c|] e]; drun; [done|].
    apply (IH (Some (Candidate (Some b)), (None, e))).
  - unfold non_nil. rewrite filter_cons_False by (by intros []).
    apply (IH last).
Qed.

(** The SOCKS5 path with a dialer is the search over [http_plan] with the
    destination as last attempt. *)
Lemma dial_socks5_run p dest ips first w :
  env_socks5_new "tcp" pa (getSocksAuth (Some p)) = None ->
  let d := mkSocks5 "tcp" pa (getSocksAuth (Some p)) dd in
  dial_socks5 dd p n dest pa h port ips first w =
  bind (search (socks_dial d n dest port) (remember h) (http_plan first ips)
          (None, (None, None)))
       (fun x => ret (kept (attempt_addr dest port) p x)) w.
Proof.
  intros Hnew d. unfold dial_socks5, SOCKS5, http_plan. rewrite Hnew. fold d.
  destruct first as [b|]; drun; [|apply socks5_candidates_search].
  cbn [app search]. unfold socks_dial at 1. drun.
  destruct (env_socks5_dial _ _ _ _) as [[c|] e]; drun; [done|].
  apply socks5_candidates_search.
Qed.

(** C18: the SOCKS5 path of [Dial] is equal, as a computation, to the error
    of the constructor when it fails and otherwise to the search over the
    same plan as the HTTP path, dialled through the SOCKS5 dialer with the
    destination as last attempt, with the target recorded in [DialAddr]
    only when it connected. *)
Theorem dial_socks5_search p dest ips first :
  dial_socks5 dd p n dest pa h port ips first ≃
  match env_socks5_new "tcp" pa (getSocksAuth (Some p)) with
  | Some err1 => ret (Some p, (None, Some err1))
  | None =>
      x <- search (socks_dial (mkSocks5 "tcp" pa (getSocksAuth (Some p)) dd)
                     n dest port)
             (remember h) (http_plan first ips) (None, (None, None)) ;;
      ret (kept (attempt_addr dest port) p x)
  end.
Proof.
  intros w. destruct (env_socks5_new _ _ _) as [err1|] eqn:Hnew.
  - unfold dial_socks5, SOCKS5. by rewrite Hnew.
  - by apply dial_socks5_run.
Qed.

End equivalence.

(** ** Termination, order and liveness of the paths *)

Section paths.
Context `{net.Lib} `{Env}.
Variables (dd : direct) (n pa h port : string).

(** C25: with a dialer, the SOCKS5 path asks the proxy for the targets of
    [http_plan] in order, the destination last, and stops at the first
    connection: the SOCKS5 dials it makes are those of an initial segment of
    the plan, all but the last failed, the result is that of the last dial,
    and a failure is returned only after the destination itself was
    tried. *)
Theorem dial_socks5_in_order p dest ips first w :
  env_socks5_new "tcp" pa (getSocksAuth (Some p)) = None ->
  exists x w' evs,
    dial_socks5 dd p n dest pa h port ips first w =
      Returns (kept (attempt_addr dest port) p x) w' /\
    trace w' = trace w ++ evs /\
    in_order (attempt_addr dest port) (http_plan first ips) (socks_dials evs) x.
Proof.
  intros Hnew. rewrite dial_socks5_run by done.
  destruct (search_in_order (attempt_addr dest port)
              (socks_dial (mkSocks5 "tcp" pa (getSocksAuth (Some p)) dd) n dest port)
              (remember h) socks_dials (http_plan first ips)
              (None, (None, None)) w (http_plan_ne _ _))
    as (x & w' & evs & Hs & Ht & Ho).
  exists x, w', evs. by rewrite (bind_returns _ _ _ _ _ Hs).
Qed.

(** Under the contract of the library, a dial through the SOCKS5 dialer
    that gives a connection gives no error. *)
Lemma socks_dial_clean `{!EnvOK} d dest a w r w1 :
  socks_dial d n dest port a w = Returns r w1 -> is_Some (fst r) -> snd r = None.
Proof.
  unfold socks_dial, socks5_Dial. intros [= <- _].
  pose proof (env_socks5_dial_exclusive (trace w) d n (attempt_addr dest port a)).
  destruct (env_socks5_dial _ _ _ _) as [[?|] [?|]]; try done. by intros [? [=]].
Qed.

(** A dial of an address that takes connections gives one. *)
Lemma reachable_dial a :
  reachable dd n (attempt_addr pa port a) ->
  forall w1, exists c e w2, http_dial dd n pa port a w1 = Returns (Some c, e) w2.
Proof.
  intros Hr w1. destruct (Hr (trace w1)) as [c Hc].
  unfold http_dial, direct_Dial.
  destruct (env_dial _ _ _ _) as [[c'|] e]; [by eexists _, _, _|done].
Qed.

Lemma Literal_in_http_plan first ips : Literal ∈ http_plan first ips.
Proof.
  unfold http_plan. rewrite !elem_of_app, list_elem_of_singleton. auto.
Qed.

(** Liveness of the HTTP path: if one of the addresses of the plan
    takes connections whenever it is dialled, [http_reach] returns a
    connection, made at that attempt or at an earlier one, and records the
    address it connected to. *)
Theorem http_reach_connects p ips first e w a :
  a ∈ http_plan first ips -> reachable dd n (attempt_addr pa port a) ->
  exists pre b post c e' w',
    http_plan first ips = pre ++ b :: post /\ (a ∉ pre) /\
    http_reach dd p n pa h port ips first e w =
      Returns (set_DialAddr (attempt_addr pa port b) p, (Some c, e')) w'.
Proof.
  intros Hin Hr.
  destruct (search_connects (attempt_addr pa port) (http_dial dd n pa port)
              (remember h) dials (http_plan first ips) (None, (None, e)) w a
              Hin (reachable_dial a Hr))
    as (pre & b & post & c & e' & w' & Hp & Hpre & Hs).
  exists pre, b, post, c, e', w'. split_and!; [done..|].
  by rewrite (http_reach_search dd n pa h port p ips first e w),
    (bind_returns _ _ _ _ _ Hs).
Qed.

(** A dial through a proxy that opens a tunnel to the target gives a
    connection. *)
Lemma relays_dial d dest a :
  relays d n (attempt_addr dest port a) ->
  forall w1, exists c e w2, socks_dial d n dest port a w1 = Returns (Some c, e) w2.
Proof.
  intros Hr w1. destruct (Hr (trace w1)) as [c Hc].
  unfold socks_dial, socks5_Dial.
  destruct (env_socks5_dial _ _ _ _) as [[c'|] e]; [by eexists _, _, _|done].
Qed.

(** Liveness of the SOCKS5 path: with a dialer, if the proxy opens a tunnel
    to the destination whenever it is asked to, [dial_socks5] returns a
    connection, made to the destination or to a candidate address tried
    before it, without error, leaves it open and records its target. *)
Lemma dial_socks5_connects `{!EnvOK} p dest ips first w :
  env_socks5_new "tcp" pa (getSocksAuth (Some p)) = None ->
  relays (mkSocks5 "tcp" pa (getSocksAuth (Some p)) dd) n dest ->
  exists b c w',
    (b ∈ http_plan first ips) /\
    dial_socks5 dd p n dest pa h port ips first w =
      Returns (Some (set_DialAddr (attempt_addr dest port b) p), (Some c, None)) w' /\
    net.conn_id c ∈ opened w'.
Proof.
  intros Hnew Hr. set (d := mkSocks5 _ _ _ _) in Hr.
  destruct (search_connects (attempt_addr dest port) (socks_dial d n dest port)
              (remember h) socks_dials (http_plan first ips) (None, (None, None))
              w Literal (Literal_in_http_plan _ _) (relays_dial d dest Literal Hr))
    as (pre & b & post & c & e & w' & Hp & _ & Hs).
  pose proof (search_opened (attempt_addr dest port) _ _ socks_dials _
                (None, (None, None)) _ _ _ eq_refl Hs) as Ho.
  pose proof (fun Hl => search_result _ _
                (fun r => is_Some (fst r) -> snd r = None)
                _ _ _ _ _ (socks_dial_clean d dest) Hl Hs) as Hx.
  cbn [fst snd] in Hx. rewrite Hx in * by done. exists b, c, w'. split_and!.
  - rewrite Hp, elem_of_app, elem_of_cons. auto.
  - by rewrite (dial_socks5_run dd n pa h port p dest ips first w Hnew),
      (bind_returns _ _ _ _ _ Hs).
  - rewrite Ho. cbn [fst snd]. by apply elem_of_union_l, elem_of_singleton.
Qed.

End paths.

(** ** The addresses the paths dial *)

Section ports.
Context `{net.Lib} `{Env}.
Variables (dd : direct) (n pa h port : string).

(** The addresses of the plan are the non-nil ones among the remembered
    address and the candidates. *)
Lemma http_plan_non_nil first ips a :
  a ∈ http_plan first ips ->
  match a with
  | Remembered ip | Candidate ip => ip ∈ non_nil (first :: ips)
  | Literal => True
  end.
Proof.
  unfold http_plan, non_nil.
  rewrite !elem_of_app, list_elem_of_fmap, list_elem_of_singleton.
  intros [Hf|[(ip & -> & [Hn Hi]%list_elem_of_filter)| ->]];
    [|apply list_elem_of_filter; split; [done|by right]|done].
  destruct first as [b|]; [|by apply elem_of_nil in Hf].
  apply list_elem_of_singleton in Hf as ->.
  apply list_elem_of_filter. split; [done|by left].
Qed.

(** Every attempt of the plan is an address on the proxy's port. *)
Lemma attempt_addr_on_port first ips a :
  on_port port pa -> clean port ->
  Forall well_printed (non_nil (first :: ips)) ->
  a ∈ http_plan first ips -> on_port port (attempt_addr pa port a).
Proof.
  intros Hpa Hp Hw Ha%http_plan_non_nil. rewrite Forall_forall in Hw.
  destruct a as [ip|ip|]; [..|done]; apply FormatIP_on_port; auto.
Qed.

(** C24: the HTTP path dials the proxy's port and no other: when the proxy
    address splits into a host and [port], every address [http_reach] dials,
    whether the dial succeeds or not, is an address on [port], and so is the
    address it leaves in [DialAddr], that of the last attempt made. *)
Theorem http_reach_port p ips first e w :
  on_port port pa -> clean port ->
  Forall well_printed (non_nil (first :: ips)) ->
  exists x w' evs,
    http_reach dd p n pa h port ips first e w =
      Returns (recorded (attempt_addr pa port) p x) w' /\
    trace w' = trace w ++ evs /\
    Forall (fun d => on_port port (fst d)) (dials evs) /\
    on_port port (DialAddr (fst (recorded (attempt_addr pa port) p x))).
Proof.
  intros Hpa Hp Hw.
  destruct (search_in_order (attempt_addr pa port) (http_dial dd n pa port)
              (remember h) dials (http_plan first ips) (None, (None, e)) w
              (http_plan_ne _ _))
    as (x & w' & evs & Hs & Ht & Ho).
  exists x, w', evs. split_and!; [|done| |].
  - by rewrite (http_reach_search dd n pa h port p ips first e w),
      (bind_returns _ _ _ _ _ Hs).
  - eapply (in_order_Forall (on_port port)), Ho.
    intros a. by apply attempt_addr_on_port.
  - destruct Ho as (_ & pre & a & post & Hpl & _ & _ & _ & Hx & _).
    unfold recorded. rewrite Hx. cbn [fst]. rewrite DialAddr_set_DialAddr.
    apply (attempt_addr_on_port first ips); [done..|].
    rewrite Hpl, elem_of_app, elem_of_cons. auto.
Qed.

(** A destination without port never bypasses the proxy: its text does
    not split, [Host] is empty, and the predicate is not consulted. *)
Theorem bypasses_missing_port p a :
  absent ":" a -> bypasses p (fst (fst (SplitHostPort a))) = false.
Proof.
  intros Ha. rewrite SplitHostPort_missing_port by done.
  unfold bypasses. by destruct (Regexp p).
Qed.

End ports.

(** ** Liveness of Dial through an HTTP proxy *)

Section end_to_end.
Context `{net.Lib} `{Env}.

(** A proxy that accepts every request accepts this one: the exchange
    returns the connection, without error, and leaves it open. *)
Lemma connect_handshake_tunnels p c a w :
  tunnels ->
  exists w', connect_handshake p c a w = Returns (Some c, None) w' /\
    opened w' = opened w.
Proof.
  intros [Hw Hr].
  pose proof (connect_handshake_run p c a w (Hw _ _ _)) as Hh. cbv zeta in Hh.
  set (w1 := log (EvWrite c _ None) w) in *.
  destruct (Hr (trace w1) c) as (Her & Hlen & Hok).
  rewrite Her in Hh.
  rewrite bool_decide_eq_false_2, bool_decide_eq_true_2 in Hh.
  - eexists. by split.
  - rewrite take_take. by rewrite Nat.min_l by (unfold connect_bufsize; lia).
  - rewrite length_take. unfold connect_bufsize. lia.
Qed.

(** The HTTP path connects when the proxy address as written takes
    connections and the proxy accepts the request. *)
Lemma dial_http_connects `{!EnvOK} dd p n a pa h port ips first e w :
  reachable dd n pa -> tunnels ->
  exists p' c w',
    dial_http dd p n a pa h port ips first e w = Returns (Some p', (Some c, None)) w' /\
    net.conn_id c ∈ opened w'.
Proof.
  intros Hr Ht.
  destruct (search_connects (attempt_addr pa port) (http_dial dd n pa port)
              (remember h) dials (http_plan first ips) (None, (None, e)) w Literal
              (Literal_in_http_plan _ _) (reachable_dial dd n pa port Literal Hr))
    as (pre & b & post & c & e' & w1 & _ & _ & Hs).
  pose proof (search_opened (attempt_addr pa port) _ _ dials _
                (None, (None, e)) _ _ _ eq_refl Hs) as Ho.
  assert (http_reach dd p n pa h port ips first e w =
          Returns (set_DialAddr (attempt_addr pa port b) p, (Some c, e')) w1)
    as Hre by (by rewrite (http_reach_search dd n pa h port p ips first e w),
                 (bind_returns _ _ _ _ _ Hs)).
  destruct (http_reach_exclusive dd p n pa h port ips first e w)
    as (st' & w' & Hreach & Hx).
  rewrite Hre in Hreach. injection Hreach as <- <-.
  destruct e' as [e'|]; [done|].
  destruct (connect_handshake_tunnels
              (Some (set_DialAddr (attempt_addr pa port b) p)) c a w1 Ht)
    as (w2 & Hh & Ho2).
  exists (set_DialAddr (attempt_addr pa port b) p), c, w2. split.
  - unfold dial_http. rewrite (bind_returns _ _ _ _ _ Hre).
    by rewrite (bind_returns _ _ _ _ _ Hh).
  - rewrite Ho2, Ho. cbn [fst snd]. by apply elem_of_union_l, elem_of_singleton.
Qed.

(** [Dial] on a descriptor with a URL that is not of SOCKS type, for a
    destination that is not bypassed, is the resolution of the proxy host
    followed by the HTTP path. *)
Lemma Dial_http_path p U n a :
  URL p = Some U ->
  bypasses p (fst (fst (net.SplitHostPort a))) = false ->
  IsSocksType (Some p) = false ->
  Dial (Some p) n a ≃
  (let '(h, port, e) := net.SplitHostPort (url.Host U) in
   let* (ips, first) := resolve_proxy h e in
   dial_http (mkDirect (getTimeout (Some p)))
     (set_DialAddr (fst (fst (net.SplitHostPort a))) p) n a (url.Host U)
     h port ips first e).
Proof.
  intros HU Hb Hs w. unfold Dial.
  destruct (net.SplitHostPort a) as [[Host port0] e0]. cbn [fst] in *.
  rewrite URL_set_DialAddr, HU.
  replace (bypasses (set_DialAddr Host p) Host) with false
    by (unfold bypasses in *; by rewrite Regexp_set_DialAddr).
  by replace (IsSocksType (Some (set_DialAddr Host p))) with false
    by (unfold IsSocksType in *; by rewrite URL_set_DialAddr).
Qed.

(** C15: liveness of [Dial] through an HTTP proxy: for a descriptor with a
    URL that is not of SOCKS type and a destination the bypass predicate
    does not accept, if the proxy address as written takes connections and
    the proxy answers every CONNECT request with [200], then [Dial] returns
    a connection and no error, and the connection is open on return,
    whatever the resolver answers and whatever the other addresses do. *)
Theorem Dial_http_connects `{!EnvOK} p U n a w :
  URL p = Some U ->
  bypasses p (fst (fst (net.SplitHostPort a))) = false ->
  IsSocksType (Some p) = false ->
  reachable (mkDirect (getTimeout (Some p))) n (url.Host U) -> tunnels ->
  exists p' c w',
    Dial (Some p) n a w = Returns (Some p', (Some c, None)) w' /\
    net.conn_id c ∈ opened w'.
Proof.
  intros HU Hb Hs Hr Ht. rewrite (Dial_http_path p U n a HU Hb Hs w).
  destruct (net.SplitHostPort (url.Host U)) as [[h port] e].
  pose proof (resolve_proxy_returns h e w) as Hres.
  destruct (resolve_proxy h e w) as [[ips first] w1|] eqn:Hrp; [|done].
  rewrite (bind_returns _ _ _ _ _ Hrp).
  by apply dial_http_connects.
Qed.

(** [Dial] on a descriptor with a URL of SOCKS type, for a destination that
    is not bypassed, is the resolution of the proxy host followed by the
    SOCKS5 path. *)
Lemma Dial_socks5_path p U n a :
  URL p = Some U ->
  bypasses p (fst (fst (net.SplitHostPort a))) = false ->
  IsSocksType (Some p) = true ->
  Dial (Some p) n a ≃
  (let '(h, port, e) := net.SplitHostPort (url.Host U) in
   let* (ips, first) := resolve_proxy h e in
   dial_socks5 (mkDirect (getTimeout (Some p)))
     (set_DialAddr (fst (fst (net.SplitHostPort a))) p) n a (url.Host U)
     h port ips first).
Proof.
  intros HU Hb Hs w. unfold Dial.
  destruct (net.SplitHostPort a) as [[Host port0] e0]. cbn [fst] in *.
  rewrite URL_set_DialAddr, HU.
  replace (bypasses (set_DialAddr Host p) Host) with false
    by (unfold bypasses in *; by rewrite Regexp_set_DialAddr).
  by replace (IsSocksType (Some (set_DialAddr Host p))) with true
    by (unfold IsSocksType in *; by rewrite URL_set_DialAddr).
Qed.

(** C16: liveness of [Dial] through a SOCKS5 proxy: for a descriptor with a
    URL of SOCKS type and a destination the bypass predicate does not
    accept, if the dialer of the proxy can be made and the proxy opens a
    tunnel to the destination whenever it is asked to, then [Dial] returns a
    connection and no error, and the connection is open on return,
    whatever the resolver answers and whatever the candidate addresses
    do. *)
Theorem Dial_socks5_connects `{!EnvOK} p U n a w :
  URL p = Some U ->
  bypasses p (fst (fst (net.SplitHostPort a))) = false ->
  IsSocksType (Some p) = true ->
  env_socks5_new "tcp" (url.Host U) (getSocksAuth (Some p)) = None ->
  relays (mkSocks5 "tcp" (url.Host U) (getSocksAuth (Some p))
            (mkDirect (getTimeout (Some p)))) n a ->
  exists p' c w',
    Dial (Some p) n a w = Returns (Some p', (Some c, None)) w' /\
    net.conn_id c ∈ opened w'.
Proof.
  intros HU Hb Hs Hnew Hr. rewrite (Dial_socks5_path p U n a HU Hb Hs w).
  destruct (net.SplitHostPort (url.Host U)) as [[h port] e].
  pose proof (resolve_proxy_returns h e w) as Hres.
  destruct (resolve_proxy h e w) as [[ips first] w1|] eqn:Hrp; [|done].
  rewrite (bind_returns _ _ _ _ _ Hrp).
  destruct (dial_socks5_connects (mkDirect (getTimeout (Some p))) n (url.Host U)
              h port (set_DialAddr (fst (fst (net.SplitHostPort a))) p)
              a ips first w1 Hnew Hr) as (b & c & w' & _ & Hd & Ho).
  by eexists _, c, w'.
Qed.

End end_to_end.

(** ** The theorems at concrete inputs *)

(** The proxy takes connections at [proxy.example:8080] and at no address
    the resolver gives, and answers [200]. *)
Definition open_env : Env :=
  stub_env ["proxy.example:8080"] [] [("proxy.example", example_ips)]
    (bytes_of_string "HTTP/1.1 200 Connection established", None).

Lemma open_env_reachable dd n : @reachable open_env dd n "proxy.example:8080".
Proof. intros tr. vm_compute. by eexists. Qed.

Lemma open_env_tunnels : @tunnels open_env.
Proof. split; [done|]. intros tr c. split_and!; [done|vm_compute; lia|done]. Qed.

(** A SOCKS5 proxy at [proxy.example:1080] that opens a tunnel to
    [example.org:443] and to nothing else. *)
Definition relay_env : Env :=
  stub_env ["proxy.example:1080"] ["example.org:443"]
    [("proxy.example", example_ips)] ([], None).

(** The machine of the HTTP search in [example_env]: 10.0.0.2 refuses,
    10.0.0.3 connects, in two steps. *)
Example http_machine_example :
  let next := next (@http_dial stub_lib example_env example_dialer "tcp"
                      "proxy.example:8080" "8080") (remember "proxy.example") in
  exists x w',
    (next (Trying (http_plan None example_ips) (None, (None, None)) empty_world)
       ≫= next) = Some (Done x w') /\
    fst x = Some (Candidate (stub_ParseIP "10.0.0.3")) /\
    fst <$> dials (trace w') = ["10.0.0.2:8080"; "10.0.0.3:8080"].
Proof. eexists _, _. split; [by vm_compute|]. by vm_compute. Qed.

Lemma dial_socks5_in_order_witness :
  exists x w' evs,
    @dial_socks5 stub_lib socks_env example_dialer socks_proxy "tcp"
      "example.org:443" "proxy.example:1080" "proxy.example" "1080"
      example_ips None empty_world =
      Returns (kept (@attempt_addr stub_lib "example.org:443" "1080")
                 socks_proxy x) w' /\
    trace w' = trace empty_world ++ evs /\
    in_order (@attempt_addr stub_lib "example.org:443" "1080")
      (http_plan None example_ips) (socks_dials evs) x.
Proof. by apply (@dial_socks5_in_order stub_lib socks_env). Defined.

Lemma http_reach_connects_witness :
  exists pre b post c e' w',
    http_plan None example_ips = pre ++ b :: post /\ (Literal ∉ pre) /\
    @http_reach stub_lib open_env example_dialer example_proxy "tcp"
      "proxy.example:8080" "proxy.example" "8080" example_ips None None
      empty_world =
      Returns (set_DialAddr (@attempt_addr stub_lib "proxy.example:8080" "8080" b)
                 example_proxy, (Some c, e')) w'.
Proof.
  apply (@http_reach_connects stub_lib open_env);
    [apply Literal_in_http_plan|apply open_env_reachable].
Defined.

Lemma Dial_http_connects_witness :
  exists p' c w',
    @Dial stub_lib open_env (Some example_proxy) "tcp" "example.org:443"
      empty_world = Returns (Some p', (Some c, None)) w' /\
    net.conn_id c ∈ opened w'.
Proof.
  apply (@Dial_http_connects stub_lib open_env (stub_env_ok _ _ _ _)
           example_proxy example_http);
    [done..|apply open_env_reachable|apply open_env_tunnels].
Defined.

Lemma Dial_socks5_connects_witness :
  exists p' c w',
    @Dial stub_lib relay_env (Some socks_proxy) "tcp" "example.org:443"
      empty_world = Returns (Some p', (Some c, None)) w' /\
    net.conn_id c ∈ opened w'.
Proof.
  apply (@Dial_socks5_connects stub_lib relay_env (stub_env_ok _ _ _ _)
           socks_proxy (url.mkURL "socks5" "" None "proxy.example:1080" "" "" ""));
    [done..|]. intros tr. vm_compute. by eexists.
Defined.

(** Through [relay_env] the two addresses of the resolver are asked for
    first and refused, and the tunnel opens to the destination. *)
Example Dial_socks5_example :
  exists p' c w',
    @Dial stub_lib relay_env (Some socks_proxy) "tcp" "example.org:443"
      empty_world = Returns (Some p', (Some c, None)) w' /\
    DialAddr p' = "example.org:443" /\
    fst <$> socks_dials (trace w') =
      ["10.0.0.2:1080"; "10.0.0.3:1080"; "example.org:443"].
Proof. eexists _, _, _. split; [by vm_compute|]. by vm_compute. Qed.

Lemma http_reach_port_witness :
  exists x w' evs,
    @http_reach stub_lib example_env example_dialer example_proxy "tcp"
      "proxy.example:8080" "proxy.example" "8080" example_ips None None
      empty_world =
      Returns (recorded (@attempt_addr stub_lib "proxy.example:8080" "8080")
                 example_proxy x) w' /\
    trace w' = trace empty_world ++ evs /\
    Forall (fun d => on_port "8080" (fst d)) (dials evs) /\
    on_port "8080"
      (DialAddr (fst (recorded (@attempt_addr stub_lib "proxy.example:8080" "8080")
                        example_proxy x))).
Proof.
  apply (@http_reach_port stub_lib example_env);
    [by eexists; vm_compute|by vm_compute|].
  repeat (constructor; [split_and!; [| |intros _]; by vm_compute|]).
  constructor.
Defined.

(** [skip.me] without a port goes through the proxy although the predicate
    accepts it. *)
Lemma bypasses_missing_port_witness :
  Regexp bypass_proxy = Some (String.eqb "skip.me") /\
  bypasses bypass_proxy (fst (fst (SplitHostPort "skip.me"))) = false.
Proof. split; [done|]. by apply bypasses_missing_port; vm_compute. Defined.

(** [Dial] with Go's [SplitHostPort]: the destination [skip.me], without a
    port, is not dialled directly; the proxy's candidates are. *)
Example Dial_missing_port_example :
  exists r w',
    @Dial go_lib example_env (Some bypass_proxy) "tcp" "skip.me"
      empty_world = Returns r w' /\
    fst <$> dials (trace w') = ["10.0.0.2:8080"; "10.0.0.3:8080"].
Proof. eexists _, _. split; by vm_compute. Qed.
