(* ===== verification/Session.v ===== *)
(** * Session: the life of a descriptor

    The lifecycle of a descriptor (spec.md, section 3): once parsed it is
    immutable but for the timeout, changed by [SetTimeout], and the dialled
    address, changed by every dial.  No function of Proxy.go is the client;
    this file writes one down so that the lifecycle can be stated: a client
    holds one descriptor and calls it: [Dial], [DialWithTimeout],
    [SetTimeout], and [Close] on a connection it was given.  [call] is one
    call on the descriptor held, [session] a sequence of calls, each on the
    descriptor and in the world the call before left; [client_run] is the
    same as a relation, one rule per call.

    Two descriptors are equivalent ([≡]) when they differ in [DialAddr]
    only; the accessors and the dial functions respect the equivalence.

    The theorems: what a sequence of calls keeps (the endpoint of the
    descriptor, the state true to the trace, the events already there),
    which timeout a dial after [SetTimeout] uses, and that a [Dial] which
    connected through a resolved address makes the next [Dial] start
    there. *)

From stdpp Require Import relations.
From S2P Require Import Prelude Url Net Proxy Search Worlds Handshake Reach Socks5 Dial Routes.

#[local] Open Scope go_scope.

(** ** The calls of a client *)

(** The calls on a descriptor held, and [conn.Close()] on a connection a
    dial returned. *)
Inductive Call : Type :=
| CallDial (network addr : string)
| CallDialWithTimeout (network addr : string) (Timeout : time.Duration)
| CallSetTimeout (d : time.Duration)
| CallClose (c : net.Conn).

(** What a call gives back: the result of a dial, nothing otherwise. *)
Definition Reply : Type := option (GoRes net.Conn).

(** The descriptor held and the world. *)
Definition Client : Type := option Proxy * World.

(** Descriptors that differ in [DialAddr] only. *)
#[export] Instance Proxy_equiv : Equiv Proxy := fun p q =>
  URL p = URL q /\ timeout p = timeout q /\ Regexp p = Regexp q.

(** Descriptors that differ in [DialAddr] and in the timeout only: the same
    endpoint. *)
Definition same_endpoint (p q : option Proxy) : Prop :=
  option_Forall2 (fun p q => URL p = URL q /\ Regexp p = Regexp q) p q.

Section session.
Context `{url.Lib} `{net.Lib} `{Env}.

(** One call on the descriptor [p]: the descriptor after the call and the
    reply.  [DialWithTimeout] works on a clone, the descriptor held stays
    as it is. *)
Definition call (c : Call) (p : option Proxy) : M World (option Proxy * Reply) :=
  match c with
  | CallDial n a => let* (p', r) := Dial p n a in ret (p', Some r)
  | CallDialWithTimeout n a T => r <- DialWithTimeout p n a T ;; ret (p, Some r)
  | CallSetTimeout d => ret (SetTimeout p d, None)
  | CallClose c => conn_Close c ;;; ret (p, None)
  end.

(** A sequence of calls, in order. *)
Fixpoint session (cs : list Call) (p : option Proxy)
  : M World (option Proxy * list Reply) :=
  match cs with
  | [] => ret (p, [])
  | c :: cs =>
      let* (p1, r) := call c p in
      let* (p2, rs) := session cs p1 in
      ret (p2, r :: rs)
  end.

(** The same as a relation: a call that returns is a step of the client. *)
Inductive client_step : Client -> Call -> Reply -> Client -> Prop :=
| client_call c p w p' r w' :
    call c p w = Returns (p', r) w' -> client_step (p, w) c r (p', w').

Inductive client_run : Client -> list Call -> list Reply -> Client -> Prop :=
| run_nil st : client_run st [] [] st
| run_cons st c r st1 cs rs st2 :
    client_step st c r st1 -> client_run st1 cs rs st2 ->
    client_run st (c :: cs) (r :: rs) st2.

End session.

(** ** Descriptors up to [DialAddr] *)

#[export] Instance Proxy_equivalence : Equivalence (≡@{Proxy}).
Proof.
  split; [done|by intros ?? (? & ? & ?)|].
  intros ??? (? & ? & ?) (? & ? & ?). split_and!; congruence.
Qed.

Lemma set_DialAddr_equiv a p : set_DialAddr a p ≡ p.
Proof. done. Qed.

(** Equivalent descriptors are one descriptor once [DialAddr] is written. *)
Lemma equiv_set_DialAddr a p q : p ≡ q -> set_DialAddr a p = set_DialAddr a q.
Proof. destruct p, q. intros (? & ? & ?). simpl in *. by subst. Qed.

Lemma equiv_same_endpoint p q : p ≡ q -> same_endpoint p q.
Proof. destruct 1 as [?? (? & ? & ?)|]; by constructor. Qed.

#[export] Instance same_endpoint_equivalence : Equivalence same_endpoint.
Proof.
  unfold same_endpoint. split.
  - by intros [p|]; constructor.
  - by destruct 1 as [?? [? ?]|]; constructor.
  - intros ??? [?? [? ?]|] Hqr; inversion Hqr as [?? [? ?]|]; subst;
      constructor. split; congruence.
Qed.

Section accessors.
Context `{url.Lib}.

#[export] Instance getTimeout_proper : Proper ((≡) ==> (=)) getTimeout.
Proof. by destruct 1 as [?? (_ & Ht & _)|]; simpl; rewrite ?Ht. Qed.

#[export] Instance IsSocksType_proper : Proper (same_endpoint ==> (=)) IsSocksType.
Proof. by destruct 1 as [?? [HU _]|]; simpl; rewrite ?HU. Qed.

#[export] Instance User_proper : Proper (same_endpoint ==> (=)) User.
Proof. by destruct 1 as [?? [HU _]|]; simpl; rewrite ?HU. Qed.

#[export] Instance Pass_proper : Proper (same_endpoint ==> (=)) Pass.
Proof. by destruct 1 as [?? [HU _]|]; simpl; rewrite ?HU. Qed.

#[export] Instance Proxy_String_proper :
  Proper (same_endpoint ==> (=)) Proxy_String.
Proof. by destruct 1 as [?? [HU _]|]; simpl; rewrite ?HU. Qed.

#[export] Instance getSocksAuth_proper :
  Proper (same_endpoint ==> (=)) getSocksAuth.
Proof.
  intros p q Hpq. unfold getSocksAuth.
  by rewrite (User_proper p q Hpq), (Pass_proper p q Hpq).
Qed.

End accessors.

(** ** What a dial does to the descriptor *)

Section frames.
Context `{url.Lib} `{net.Lib} `{Env}.

(** [Dial] never reads [DialAddr]: on two descriptors that differ in
    [DialAddr] only it is the same computation, with the same events, the
    same result and the same descriptor returned; what an earlier dial left
    in [DialAddr] has no effect on the next. *)
Theorem Dial_ignores_DialAddr p q n a : p ≡ q -> Dial p n a = Dial q n a.
Proof.
  destruct 1 as [p q Hpq|]; [|done]. unfold Dial.
  rewrite (getTimeout_proper (Some p) (Some q)) by by constructor.
  destruct (net.SplitHostPort a) as [[Host port] e].
  by rewrite (equiv_set_DialAddr Host p q Hpq).
Qed.

Lemma plan_run_equiv dd n pa h port plan st w st' w' :
  plan_run dd n pa h port plan st w st' w' -> fst st' ≡ fst st.
Proof. induction 1; [done..|]. by etrans. Qed.

Lemma dial_plain_equiv dd p n a w :
  post (fun r _ => fst r ≡ Some p) (dial_plain dd p n a w).
Proof. rewrite dial_plain_run. simpl. destruct (fst _); by constructor. Qed.

Lemma dial_http_equiv dd p n a pa h port ips first e w :
  post (fun r _ => fst r ≡ Some p) (dial_http dd p n a pa h port ips first e w).
Proof.
  unfold dial_http. apply post_bind, http_reach_elim.
  intros [p' [[c|] [e'|]]] w' Hp%plan_run_equiv; simpl in *;
    try by constructor.
  apply post_bind. destruct (connect_handshake _ _ _ _); by try constructor.
Qed.

Lemma dial_socks5_equiv dd p n a pa h port ips first w :
  post (fun r _ => fst r ≡ Some p) (dial_socks5 dd p n a pa h port ips first w).
Proof.
  destruct (env_socks5_new "tcp" pa (getSocksAuth (Some p))) as [err|] eqn:Hnew.
  { unfold dial_socks5, SOCKS5. rewrite Hnew. simpl. reflexivity. }
  rewrite dial_socks5_run by done. apply post_bind.
  destruct (search _ _ _ _ _) as [[[b|] [[c|] e]] w'|]; by try constructor.
Qed.

(** A dial changes [DialAddr] and nothing else of the descriptor. *)
Lemma Dial_equiv p n a w : post (fun r _ => fst r ≡ p) (Dial p n a w).
Proof.
  assert (forall q Host (o : outcome World (option Proxy * GoRes net.Conn)),
            p = Some q ->
            post (fun r _ => fst r ≡ Some (set_DialAddr Host q)) o ->
            post (fun r _ => fst r ≡ p) o) as Hp.
  { intros q Host o ->. apply post_mono. intros r _ ->. by constructor. }
  apply (Dial_cases (fun c => post _ (c w))).
  - intros ->. drun. simpl. constructor.
  - intros q Hq. eapply Hp, dial_plain_equiv. done.
  - intros q U h port e Hq _. apply post_bind.
    destruct (resolve_proxy h e w) as [[ips first] w1|]; [|done].
    eapply Hp, dial_socks5_equiv. done.
  - intros q U h port e Hq _. apply post_bind.
    destruct (resolve_proxy h e w) as [[ips first] w1|]; [|done].
    eapply Hp, dial_http_equiv. done.
Qed.

End frames.

(** ** One call *)

Section calls.
Context `{url.Lib} `{net.Lib} `{Env}.

(** The clone [DialWithTimeout] dials on. *)
Definition timed_clone (p : option Proxy) (T : time.Duration) : Proxy :=
  set_timeout T (default zero_Proxy (Clone p)).

Lemma DialWithTimeout_Dial p n a T :
  DialWithTimeout p n a T ≃
  (let* (_, r) := Dial (Some (timed_clone p T)) n a in ret r).
Proof. done. Qed.

(** A call only appends events, and the state changes as they say. *)
Lemma call_extends c p w : extends (fun _ => True) w (final (call c p w)).
Proof.
  assert (forall q n a w, extends (fun _ => True) w (final (Dial q n a w))) as HD.
  { intros. by eapply extends_mono, Dial_run_extends. }
  destruct c as [n a|n a T|d|c]; cbn [call]; [| |done|walk].
  - apply (final_bind (extends _)); [apply HD|by intros [??]].
  - unfold DialWithTimeout. rewrite bind_assoc.
    apply (final_bind (extends _)); [apply HD|by intros [??]].
Qed.

(** A call keeps the endpoint of the descriptor. *)
Lemma call_endpoint c p w :
  post (fun r _ => same_endpoint (fst r) p) (call c p w).
Proof.
  destruct c as [n a|n a T|d|c]; cbn [call].
  - apply post_bind. eapply post_mono, Dial_equiv.
    intros [p' r] w' Hp. by apply equiv_same_endpoint.
  - apply post_bind. destruct (DialWithTimeout _ _ _ _ _); simpl; [reflexivity|done].
  - by destruct p; constructor.
  - drun. simpl. reflexivity.
Qed.

(** When the dialers keep their contract, a call returns. *)
Lemma call_returns `{!EnvOK} c p w : returns (call c p w).
Proof.
  assert (forall q n a w, returns (Dial q n a w)) as HD.
  { intros q n a w'. apply (Dial_cases (fun c => returns (c w'))); intros;
      [walk|apply dial_plain_returns|..];
      (apply returns_bind; [apply resolve_proxy_returns|]);
      intros [ips first] w1 _;
      auto using dial_socks5_returns, dial_http_returns. }
  destruct c as [n a|n a T|d|c]; cbn [call]; [| |done|walk].
  - apply returns_bind; [apply HD|by intros [??]].
  - unfold DialWithTimeout. rewrite bind_assoc.
    apply returns_bind; [apply HD|by intros [??]].
Qed.

End calls.

(** ** Sequences of calls *)

Section sequences.
Context `{url.Lib} `{net.Lib} `{Env}.

Lemma client_run_session_1 st cs rs st' :
  client_run st cs rs st' ->
  session cs (fst st) (snd st) = Returns (fst st', rs) (snd st').
Proof.
  induction 1 as [[p w]|? c r [p1 w1] cs rs st2 [c' p w p' r' w' Hc] _ IH];
    [done|].
  cbn [session fst snd] in *. rewrite (bind_returns _ _ _ _ _ Hc).
  by rewrite (bind_returns _ _ _ _ _ IH).
Qed.

(** The sequence as a function and as a relation: the same runs. *)
Lemma client_run_session cs p w p' rs w' :
  session cs p w = Returns (p', rs) w' <-> client_run (p, w) cs rs (p', w').
Proof.
  split; [|apply client_run_session_1].
  revert p w rs. induction cs as [|c cs IH]; intros p w rs; cbn [session].
  - intros [= -> <- ->]. constructor.
  - destruct (call c p w) as [[p1 r] w1|] eqn:Hc;
      [rewrite (bind_returns _ _ _ _ _ Hc)|by rewrite (bind_panics _ _ _ _ Hc)].
    destruct (session cs p1 w1) as [[p2 rs2] w2|] eqn:Hs;
      [rewrite (bind_returns _ _ _ _ _ Hs)|by rewrite (bind_panics _ _ _ _ Hs)].
    intros [= -> <- ->]. econstructor; [by constructor|by apply IH].
Qed.

(** A step of the client keeps the endpoint and extends the world. *)
Lemma client_step_keeps st c r st' :
  client_step st c r st' ->
  same_endpoint (fst st') (fst st) /\
  extends (fun _ => True) (snd st) (snd st').
Proof.
  intros [c' p w p' r' w' Hc]. split.
  - by apply (post_returns _ _ _ _ (call_endpoint c' p w) Hc).
  - pose proof (call_extends c' p w) as He. by rewrite Hc in He.
Qed.

(** C20: the life of a descriptor: whatever calls a client makes, in
    whatever order, the descriptor it holds keeps its URL and its bypass
    predicate; the events already in the trace stay, in place; and the
    resolver's memory and the set of open connections stay what the trace
    says. *)
Theorem client_run_keeps p w cs rs p' w' :
  client_run (p, w) cs rs (p', w') ->
  same_endpoint p' p /\ trace w `prefix_of` trace w' /\
  (world_ok w -> world_ok w').
Proof.
  intros Hr.
  enough (same_endpoint p' p /\ extends (fun _ => True) w w') as [? He].
  { eauto using extends_prefix, extends_world_ok. }
  change (same_endpoint (fst (p', w')) (fst (p, w)) /\
          extends (fun _ => True) (snd (p, w)) (snd (p', w'))).
  induction Hr as [st|st c r st1 cs rs st2 [Hp He]%client_step_keeps _ [IHp IHe]];
    [done|].
  split; by etrans.
Qed.

(** A dial after [SetTimeout] uses the timeout set: every dial of the
    call that follows [SetTimeout(d)] on a descriptor is made with [d], or
    with 15 seconds when [d] is zero, whatever the timeout was before. *)
Theorem SetTimeout_Dial_timeout q d n a w :
  exists evs,
    trace (final (session [CallSetTimeout d; CallDial n a] (Some q) w)) =
      trace w ++ evs /\
    Forall (dialer_is (mkDirect (if bool_decide (d = 0)
                                 then 15 * time.Second else d))) evs.
Proof.
  replace (final _) with (final (Dial (Some (set_timeout d q)) n a w)).
  - apply extends_events, (Dial_run_extends (Some (set_timeout d q))).
  - cbn [session call SetTimeout]. drun. unfold bind.
    by destruct (Dial _ _ _ _) as [[? ?] ?|].
Qed.

End sequences.

(** ** The resolver between two dials *)

Section remembering.
Context `{url.Lib} `{net.Lib} `{Env}.

Lemma resolve_proxy_run h w :
  net.ParseIP h = None ->
  resolve_proxy h None w =
  Returns (fst (env_lookup (trace w) h ""), firstIP w !! (h, ""))
    (log (EvGetFirstIP h "" (firstIP w !! (h, "")))
       (log (EvLookupIP h "" (fst (env_lookup (trace w) h ""))) w)).
Proof.
  intros Hp. unfold resolve_proxy. rewrite bool_decide_eq_true_2 by done.
  drun. by destruct (env_lookup _ _ _).
Qed.

Lemma plan_run_hit dd n pa h port plan st w st' w' :
  plan_run dd n pa h port plan st w st' w' ->
  fst (snd st) = None -> is_Some (fst (snd st')) ->
  exists a, a ∈ plan /\ DialAddr (fst st') = attempt_addr pa port a /\
    firstIP w' = firstIP (after_hit h a w).
Proof.
  induction 1 as [st w|a rest st w c e ad Hd|a rest st w e st' w' ad Hd Hr IH];
    intros Hn Hs.
  - rewrite Hn in Hs. by destruct Hs.
  - exists a. split_and!; [by left|done|].
    rewrite !after_hit_firstIP. by autorewrite with go.
  - destruct (IH eq_refl Hs) as (b & Hb & Hda & Hf).
    exists b. split_and!; [by right|done|].
    rewrite Hf, !after_hit_firstIP. by autorewrite with go.
Qed.

Lemma http_plan_Remembered first ips ip :
  Remembered ip ∈ http_plan first ips -> ip = first /\ is_Some first.
Proof.
  unfold http_plan.
  rewrite !elem_of_app, list_elem_of_fmap, list_elem_of_singleton.
  intros [Hf|[(? & [=] & _)|[=]]].
  destruct first as [b|]; [|by apply elem_of_nil in Hf].
  apply list_elem_of_singleton in Hf as [= ->]. by split; [|eexists].
Qed.

(** A connection the HTTP search made at another address than the proxy
    address as written was made at an address the resolver now remembers. *)
Lemma http_reach_remembers dd p n pa h port ips first e w p' c e' w' :
  http_reach dd p n pa h port ips first e w = Returns (p', (Some c, e')) w' ->
  firstIP w !! (h, "") = first -> DialAddr p' <> pa ->
  exists b, DialAddr p' = FormatIP (Some b) port /\
    firstIP w' !! (h, "") = Some b.
Proof.
  intros Hr Hf Hne. revert Hr. apply http_reach_elim.
  intros st' w'' Hp [= -> ->].
  destruct (plan_run_hit _ _ _ _ _ _ _ _ _ _ Hp eq_refl)
    as (a & Ha & Hd & Hw); [by eexists|].
  cbn [fst] in Hd. destruct a as [ip|ip|]; [..|done].
  - apply http_plan_Remembered in Ha as [-> [b Hb]].
    exists b. rewrite Hw. cbn [after_hit attempt_addr] in *. by rewrite <- Hb.
  - apply http_plan_candidate in Ha as (b & -> & _).
    exists b. split; [done|]. rewrite Hw, after_hit_firstIP. by simplify_map_eq.
Qed.

Lemma dial_http_remembers dd p n a pa h port ips first e w p' c er w' :
  dial_http dd p n a pa h port ips first e w = Returns (Some p', (Some c, er)) w' ->
  firstIP w !! (h, "") = first -> DialAddr p' <> pa ->
  exists b, DialAddr p' = FormatIP (Some b) port /\
    firstIP w' !! (h, "") = Some b.
Proof.
  unfold dial_http.
  destruct (http_reach dd p n pa h port ips first e w)
    as [[p1 [[c1|] [e1|]]] w1|] eqn:Hr;
    rewrite ?(bind_returns _ _ _ _ _ Hr), ?(bind_panics _ _ _ _ Hr); try done.
  pose proof (connect_handshake_firstIP (Some p1) c1 a w1) as Hh.
  destruct (connect_handshake _ _ _ _) as [r w2|] eqn:Hc;
    rewrite ?(bind_returns _ _ _ _ _ Hc), ?(bind_panics _ _ _ _ Hc); [|done].
  intros [= -> -> ->] Hf Hne. cbn [post] in Hh. rewrite Hh.
  by eapply http_reach_remembers.
Qed.

(** With a remembered address, the HTTP path starts there. *)
Lemma dial_http_starts dd p n a pa h port ips b e w :
  exists r evs,
    trace (final (dial_http dd p n a pa h port ips (Some b) e w)) =
    trace w ++ EvDial dd n (FormatIP (Some b) port) r :: evs.
Proof.
  remember (FormatIP (Some b) port) as addr eqn:Ha.
  remember (env_dial (trace w) dd n addr) as r eqn:Hr.
  enough (extends (dialer_is dd) (note_open r (log (EvDial dd n addr r) w))
            (final (dial_http dd p n a pa h port ips (Some b) e w)))
    as (evs & -> & _)%extends_events.
  { exists r, evs. autorewrite with go. by rewrite <- app_assoc. }
  unfold dial_http, http_reach. rewrite !bind_assoc, bind_direct_Dial.
  rewrite <- Ha, DialAddr_set_DialAddr, <- Hr. destruct r as [[c|] e'].
  - drun. destruct e'; drun; [reflexivity|].
    apply (final_bind (extends _)); [apply connect_handshake_extends|done].
  - apply (dial_http_extends dd (set_DialAddr addr p) n a pa h port ips None e').
Qed.

(** A descriptor that goes through an HTTP proxy named by a host name, and
    a destination it does not bypass. *)
Definition through_http (p : Proxy) (h port a : string) : Prop :=
  exists U, URL p = Some U /\ IsSocksType (Some p) = false /\
    net.SplitHostPort (url.Host U) = (h, port, None) /\
    net.ParseIP h = None /\
    bypasses p (fst (fst (net.SplitHostPort a))) = false.

Lemma through_http_equiv p q h port a :
  p ≡ q -> through_http p h port a -> through_http q h port a.
Proof.
  intros (HU & _ & HR) (U & ? & ? & ? & ? & ?). exists U.
  unfold IsSocksType, bypasses in *. rewrite <- HU, <- HR. by split_and!.
Qed.

(** Such a dial is the resolution of the host, then the HTTP path with the
    address the resolver remembers. *)
Lemma through_http_run p h port a n w :
  through_http p h port a ->
  exists U ips p0, URL p = Some U /\ p0 ≡ p /\
    Dial (Some p) n a w =
    dial_http (mkDirect (getTimeout (Some p))) p0 n a (url.Host U) h port ips
      (firstIP w !! (h, "")) None
      (log (EvGetFirstIP h "" (firstIP w !! (h, "")))
         (log (EvLookupIP h "" ips) w)).
Proof.
  intros (U & HU & Hs & Hsp & Hip & Hb).
  exists U, (fst (env_lookup (trace w) h "")), 
    (set_DialAddr (fst (fst (net.SplitHostPort a))) p). split_and!; [done..|].
  rewrite (Dial_http_path p U n a HU Hb Hs w), Hsp.
  by rewrite (bind_returns _ _ _ _ _ (resolve_proxy_run h w Hip)).
Qed.

(** C19: the resolver between two dials: when [Dial] through an HTTP proxy
    returns a connection made at another address than the proxy address as
    written, that address is the one the resolver remembers for the proxy
    host, and the next [Dial] on the descriptor, to any destination it does
    not bypass, dials that address first. *)
Theorem Dial_twice p h port n a a' w p1 c er w1 :
  through_http p h port a -> through_http p h port a' ->
  Dial (Some p) n a w = Returns (Some p1, (Some c, er)) w1 ->
  (forall U, URL p = Some U -> DialAddr p1 <> url.Host U) ->
  exists b r evs,
    DialAddr p1 = FormatIP (Some b) port /\
    firstIP w1 !! (h, "") = Some b /\
    trace (final (Dial (Some p1) n a' w1)) = trace w1 ++ evs /\
    head (dials evs) = Some (DialAddr p1, r).
Proof.
  intros Ha Ha' HD Hne.
  pose proof (post_returns _ _ _ _ (Dial_equiv (Some p) n a w) HD) as Hp1.
  apply (inj Some) in Hp1.
  destruct (through_http_run p h port a n w Ha) as (U & ips & p0 & HU & _ & Hrun).
  rewrite Hrun in HD.
  apply dial_http_remembers in HD as (b & Hb & Hf); [|done|by apply Hne].
  destruct (through_http_run p1 h port a' n w1) as (U1 & ips1 & q0 & _ & _ & ->).
  { by eapply through_http_equiv. }
  rewrite Hf. destruct (dial_http_starts (mkDirect (getTimeout (Some p1))) q0 n a'
    (url.Host U1) h port ips1 b None
    (log (EvGetFirstIP h "" (Some b)) (log (EvLookupIP h "" ips1) w1)))
    as (r & evs & ->).
  exists b, r, (EvLookupIP h "" ips1 :: EvGetFirstIP h "" (Some b) ::
                EvDial (mkDirect (getTimeout (Some p1))) n (FormatIP (Some b) port) r :: evs).
  rewrite Hb. split_and!; [done..| |done].
  autorewrite with go. by rewrite <- !app_assoc.
Qed.

End remembering.

(** ** The theorems at concrete inputs *)

(** A client of [example_proxy] in [example_env]: a dial, a new timeout, a
    dial with a timeout of its own, and the first connection closed. *)
Definition example_calls : list Call :=
  [CallDial "tcp" "example.org:443"; CallSetTimeout (5 * time.Second);
   CallDialWithTimeout "tcp" "example.net:80" time.Second;
   CallClose (net.mkConn 3 "10.0.0.3:8080")].

Example session_example :
  exists p' rs w',
    @session url.simple stub_lib example_env example_calls (Some example_proxy)
      empty_world = Returns (Some p', rs) w' /\
    DialAddr p' = "10.0.0.3:8080" /\ timeout p' = 5 * time.Second /\
    fst <$> dials (trace w') =
      ["10.0.0.2:8080"; "10.0.0.3:8080"; "10.0.0.3:8080"] /\
    firstIP w' !! ("proxy.example", "") = stub_ParseIP "10.0.0.3" /\
    elements (opened w') = [9%nat].
Proof. eexists _, _, _. split; [by vm_compute|]. by vm_compute. Qed.

Lemma client_run_keeps_witness :
  exists rs p' w',
    @client_run url.simple stub_lib example_env
      (Some example_proxy, empty_world) example_calls rs (p', w') /\
    same_endpoint p' (Some example_proxy) /\
    trace empty_world `prefix_of` trace w' /\
    (world_ok empty_world -> world_ok w').
Proof.
  assert (exists rs p' w',
    @client_run url.simple stub_lib example_env
      (Some example_proxy, empty_world) example_calls rs (p', w'))
    as (rs & p' & w' & Hr).
  { eexists _, _, _. apply client_run_session. by vm_compute. }
  exists rs, p', w'. split; [done|].
  exact (@client_run_keeps url.simple stub_lib example_env _ _ _ _ _ _ Hr).
Defined.

Lemma Dial_ignores_DialAddr_witness :
  @Dial stub_lib example_env (Some (set_DialAddr "10.0.0.3:8080" example_proxy))
    "tcp" "example.org:443" =
  @Dial stub_lib example_env (Some example_proxy) "tcp" "example.org:443".
Proof. by apply (@Dial_ignores_DialAddr stub_lib example_env); constructor. Defined.

Lemma Dial_twice_witness :
  exists p1 c er w1 b r evs,
    @Dial stub_lib example_env (Some example_proxy) "tcp" "example.org:443"
      empty_world = Returns (Some p1, (Some c, er)) w1 /\
    DialAddr p1 = @FormatIP stub_lib (Some b) "8080" /\
    firstIP w1 !! ("proxy.example", "") = Some b /\
    trace (final (@Dial stub_lib example_env (Some p1) "tcp" "example.net:80" w1)) =
      trace w1 ++ evs /\
    head (dials evs) = Some (DialAddr p1, r).
Proof.
  eexists _, _, _, _.
  assert (@through_http stub_lib example_proxy "proxy.example" "8080"
            "example.org:443" /\
          @through_http stub_lib example_proxy "proxy.example" "8080"
            "example.net:80") as [Ha Ha'].
  { split; exists example_http; by vm_compute. }
  assert (@Dial stub_lib example_env (Some example_proxy) "tcp" "example.org:443"
            empty_world = _) as HD by (vm_compute; reflexivity).
  destruct (@Dial_twice stub_lib example_env example_proxy "proxy.example"
              "8080" "tcp" "example.org:443" "example.net:80" empty_world
              _ _ _ _ Ha Ha' HD) as (b & r & evs & Hb);
    [by intros U [= <-]|].
  exists b, r, evs. by split.
Defined.
