(* ===== verification/Concurrent.v ===== *)
(** * Concurrent: goroutines on one shared state

    [Dial] writes [p.DialAddr] through the pointer and, on the HTTP path,
    reads it back as the address to dial.  A descriptor shared by two
    goroutines makes that field shared memory, and the resolver and the
    network are shared by all of them.  This file is the machine the
    goroutines of [Goroutines] run on: a goroutine is a program [Prog] of
    atomic actions [Act], one per access to [DialAddr] (a store or a load
    of the cell of the descriptor) and one per library call; [Crash] is a
    goroutine that panicked.  [run] executes one program alone; [pstep]
    lets one goroutine of a pool make its next action on the shared state
    [Shared], and [pruns] is a sequence of such steps, labelled with the
    goroutine and the action of each.

    An access to [DialAddr] is atomic in the machine.  In Go it is not: a
    string is a pointer and a length, and a read that races with a store
    may see a mix of two values.  By the guarantee of Go's memory model for
    programs without data race, the schedules of the machine are all the
    executions of a pool that never reaches a [race]; of a pool that races
    they are some of its executions, enough to show that a bad run exists,
    not that none does.

    The theorems hold of every pool, whatever its programs: the world only
    grows and stays true to its trace; the resolver remembers what the last
    [RememberAct] of the schedule wrote; a pool of programs that cannot
    crash when the dialers keep their contract never holds a crashed
    goroutine; a goroutine whose cell nobody else stores to dials only what
    its own program says; goroutines confined to cells of their own never
    race ([pool_race_free]).  No action blocks in the machine, so every
    schedule ends ([pool_terminates]) and a goroutine that is not done can
    always make its step ([pool_progress]). *)

From stdpp Require Import relations.
From S2P Require Import Prelude Net.

#[local] Open Scope go_scope.

(** ** Programs of atomic actions *)

(** The accesses of [Dial] to what goroutines share: [p.DialAddr = a] and
    the read of [p.DialAddr], on the descriptor in cell [c], and the
    library calls, one action each. *)
Inductive Act : Type :=
| StoreAddr (c : nat) (a : string)
| LoadAddr (c : nat)
| DialAct (dd : direct) (network addr : string)
| SocksDialAct (d : Socks5Dialer) (network addr : string)
| LookupAct (host : string)
| GetFirstAct (host : string)
| RememberAct (proxyHost : string) (ip : net.IP)
| WriteAct (conn : net.Conn) (data : list byte)
| ReadAct (conn : net.Conn) (cap : nat)
| CloseAct (conn : net.Conn).

#[export] Instance Act_eq_dec : EqDecision Act.
Proof. solve_decision. Defined.

(** What an action answers. *)
Definition Ans (a : Act) : Type :=
  match a with
  | StoreAddr _ _ | RememberAct _ _ | CloseAct _ => unit
  | LoadAddr _ => string
  | DialAct _ _ _ | SocksDialAct _ _ _ => GoRes net.Conn
  | LookupAct _ => list net.IP * option error
  | GetFirstAct _ => net.IP
  | WriteAct _ _ => option error
  | ReadAct _ _ => Z * list byte * option error
  end.

(** A goroutine: the actions it still has to make, each continued by its
    answer; [Crash] after a run-time panic. *)
Inductive Prog (R : Type) : Type :=
| Done (r : R)
| Crash
| Do (a : Act) (k : Ans a -> Prog R).
Arguments Done {R} r.
Arguments Crash {R}.
Arguments Do {R} a k.

Fixpoint bindP {R Q} (t : Prog R) (f : R -> Prog Q) : Prog Q :=
  match t with
  | Done r => f r
  | Crash => Crash
  | Do a k => Do a (fun x => bindP (k x) f)
  end.

(** The state the goroutines share: the [DialAddr] of each descriptor, and
    the world. *)
Record Shared : Type := mkShared {
  addrs : gmap nat string;
  sworld : World
}.

(** A library call, on the world of the shared state. *)
Definition on_world {X} (m : M World X) : M Shared X :=
  fun s => match m (sworld s) with
           | Returns x w => Returns x (mkShared (addrs s) w)
           | Panics w => Panics (mkShared (addrs s) w)
           end.

(** The label of a step: the goroutine and its action. *)
Definition Label : Type := nat * Act.

(** What a schedule leaves in the resolver: each [RememberAct] overwrites
    the address of its host, whoever makes it. *)
Definition remembers (m : gmap (string * string) (list byte)) (l : Label)
  : gmap (string * string) (list byte) :=
  match l.2 with
  | RememberAct h (Some b) => <[(h, "") := b]> m
  | RememberAct h None => delete (h, "") m
  | _ => m
  end.

(** The contract of the dialers, on the answer of an action. *)
Definition ok_ans (a : Act) : Ans a -> Prop :=
  match a with
  | DialAct _ _ _ | SocksDialAct _ _ _ => exclusive
  | _ => fun _ => True
  end.

(** [t] ends in a result that satisfies [Q], and never in [Crash],
    whatever the actions answer within the contract of the dialers. *)
Fixpoint ends_in {R} (Q : R -> Prop) (t : Prog R) : Prop :=
  match t with
  | Done r => Q r
  | Crash => False
  | Do a k => forall x, ok_ans a x -> ends_in Q (k x)
  end.

(** [t] never stores to cell [c]. *)
Fixpoint quiet {R} (c : nat) (t : Prog R) : Prop :=
  match t with
  | Done _ | Crash => True
  | Do a k =>
      match a with StoreAddr c' _ => c' <> c | _ => True end /\
      forall x, quiet c (k x)
  end.

(** The cell an action reads or writes, and whether it writes. *)
Definition access (a : Act) : option (nat * bool) :=
  match a with
  | StoreAddr c _ => Some (c, true)
  | LoadAddr c => Some (c, false)
  | _ => None
  end.

(** Two accesses conflict when they are to one cell and one of them
    writes. *)
Definition conflict (a b : Act) : Prop :=
  match access a, access b with
  | Some (c, wa), Some (c', wb) => c = c' /\ (wa || wb)
  | _, _ => False
  end.

#[export] Instance conflict_dec a b : Decision (conflict a b).
Proof.
  unfold conflict. destruct (access a) as [[]|], (access b) as [[]|]; apply _.
Defined.

(** A data race: the next actions of two goroutines conflict.  Nothing
    orders the two accesses, so in Go the read of a string may see the
    pointer of one store with the length of another; the machine, whose
    actions are atomic, is the program only where there is no race. *)
Definition race {R} (ts : list (Prog R)) : Prop :=
  exists i j a k b k',
    i <> j /\ ts !! i = Some (Do a k) /\ ts !! j = Some (Do b k') /\
    conflict a b.

(** [t] reads and writes no cell but [c]. *)
Fixpoint confined {R} (c : nat) (t : Prog R) : Prop :=
  match t with
  | Done _ | Crash => True
  | Do a k =>
      (forall c' w, access a = Some (c', w) -> c' = c) /\
      forall x, confined c (k x)
  end.

(** What a goroutine may do next, given the actions it made so far. *)
Definition Rule : Type := list Act -> Act -> Prop.

(** Every action of [t] is allowed by the rule [P], after the actions
    [hist] it made already, when cell [c] holds [cur] (an address it stored
    itself, or anything) and nobody else stores there. *)
Fixpoint obeys {R} (c : nat) (P : Rule) (cur : option string) (hist : list Act)
    (t : Prog R) : Prop :=
  match t with
  | Done _ | Crash => True
  | Do a k =>
      P hist a /\
      match a as a0 return (Ans a0 -> Prog R) -> Prop with
      | StoreAddr c' s => fun k =>
          obeys c P (if decide (c' = c) then Some s else cur) (hist ++ [a]) (k tt)
      | LoadAddr c' => fun k =>
          match cur with
          | Some s => if decide (c' = c) then obeys c P cur (hist ++ [a]) (k s)
                      else forall s', obeys c P cur (hist ++ [a]) (k s')
          | None => forall s', obeys c P cur (hist ++ [a]) (k s')
          end
      | _ => fun k => forall x, obeys c P cur (hist ++ [a]) (k x)
      end k
  end.

(** The rule that every dial is of an address in [P]. *)
Definition dials_in (P : string -> Prop) : Rule :=
  fun _ a => match a with DialAct _ _ addr => P addr | _ => True end.

(** The rule that the resolver is told only of an address, on port [port],
    that the goroutine dialled before. *)
Definition vouched `{net.Lib} (port : string) : Rule :=
  fun hist a =>
    match a with
    | RememberAct _ ip => exists dd n, DialAct dd n (FormatIP ip port) ∈ hist
    | _ => True
    end.

(** The actions of goroutine [i] in a schedule. *)
Definition own (i : nat) (ls : list Label) : list Act :=
  (filter (fun l => l.1 = i) ls).*2.

(** The program of one action. *)
Definition call (a : Act) : Prog (Ans a) := Do a Done.

(** [t'] is what is left of [t] after its next action, for some answer. *)
Definition next {R} (t t' : Prog R) : Prop :=
  match t with
  | Do a k => exists x, t' = k x
  | _ => False
  end.

(** A step of a pool, the state forgotten. *)
Definition advances {R} (ts ts' : list (Prog R)) : Prop :=
  exists i t t', ts !! i = Some t /\ next t t' /\ ts' = <[i := t']> ts.

(** A goroutine that has stopped: it returned or it crashed. *)
Definition stopped {R} (t : Prog R) : Prop :=
  match t with Do _ _ => False | _ => True end.

#[export] Instance stopped_dec {R} (t : Prog R) : Decision (stopped t).
Proof. destruct t; apply _. Defined.

(** A goroutine that has returned. *)
Definition returned {R} (t : Prog R) : Prop :=
  match t with Done _ => True | _ => False end.

(** Cell [c] holds [cur], when [cur] is known. *)
Definition cell_holds (c : nat) (cur : option string) (st : Shared) : Prop :=
  match cur with Some s => addrs st !! c = Some s | None => True end.

(** Goroutine [i] obeys [P] from here on, after the actions [hist], and
    the others are quiet on its cell. *)
Definition isolated {R} (i c : nat) (P : Rule) (hist : list Act)
    (cfg : list (Prog R) * Shared) : Prop :=
  (exists cur t, cfg.1 !! i = Some t /\ obeys c P cur hist t /\
     cell_holds c cur cfg.2) /\
  (forall j t, j <> i -> cfg.1 !! j = Some t -> quiet c t).

Section machine.
Context `{Env}.

(** One action, atomically. *)
Definition exec (a : Act) : M Shared (Ans a) :=
  match a with
  | StoreAddr c s => fun st => Returns tt (mkShared (<[c := s]> (addrs st)) (sworld st))
  | LoadAddr c => fun st => Returns (default "" (addrs st !! c)) st
  | DialAct dd n a => on_world (direct_Dial dd n a)
  | SocksDialAct d n a => on_world (socks5_Dial d n a)
  | LookupAct h => on_world (dns_LookupIP h "")
  | GetFirstAct h => on_world (dns_GetFirstIP h "")
  | RememberAct h ip => on_world (dns_SetFirstIP h "" ip)
  | WriteAct c data => on_world (conn_Write c data)
  | ReadAct c cap => on_world (conn_Read c cap)
  | CloseAct c => on_world (conn_Close c)
  end.

(** A program alone. *)
Fixpoint run {R} (t : Prog R) : M Shared R :=
  match t with
  | Done r => ret r
  | Crash => panic
  | Do a k => x <- exec a ;; run (k x)
  end.

(** A step of the pool: one goroutine makes its next action. *)
Inductive pstep {R} : list (Prog R) * Shared -> Label ->
    list (Prog R) * Shared -> Prop :=
| pstep_do ts st i a k x st' :
    ts !! i = Some (Do a k) -> exec a st = Returns x st' ->
    pstep (ts, st) (i, a) (<[i := k x]> ts, st').

Inductive pruns {R} : list (Prog R) * Shared -> list Label ->
    list (Prog R) * Shared -> Prop :=
| pruns_nil cfg : pruns cfg [] cfg
| pruns_cons cfg l cfg1 ls cfg2 :
    pstep cfg l cfg1 -> pruns cfg1 ls cfg2 -> pruns cfg (l :: ls) cfg2.

(** A step, whatever its label. *)
Definition steps {R} (cfg cfg' : list (Prog R) * Shared) : Prop :=
  exists l, pstep cfg l cfg'.

End machine.

(** ** A program alone *)

Section alone.
Context `{Env}.

Lemma on_world_returns {X} (m : M World X) A w x w' :
  m w = Returns x w' -> on_world m (mkShared A w) = Returns x (mkShared A w').
Proof. unfold on_world. simpl. by intros ->. Qed.

Lemma on_world_inv {X} (m : M World X) st x st' :
  on_world m st = Returns x st' ->
  exists w', m (sworld st) = Returns x w' /\ st' = mkShared (addrs st) w'.
Proof. unfold on_world. destruct (m _) as [x0 w'|]; [|done]. intros [= <- <-]. eauto. Qed.

(** No action panics, and none blocks. *)
Lemma exec_returns a st : exists x st', exec a st = Returns x st'.
Proof.
  destruct a, st as [A w]; try by eexists _, _.
  cbn [exec]. unfold on_world, conn_Read. cbn [sworld].
  destruct (env_read _ _). by eexists _, _.
Qed.

Lemma run_bindP {R Q} (t : Prog R) (f : R -> Prog Q) :
  run (bindP t f) ≃ (r <- run t ;; run (f r)).
Proof.
  induction t as [r| |a k IH]; intros st; [done..|].
  cbn [bindP run]. rewrite bind_assoc.
  destruct (exec_returns a st) as (x & st' & Hx).
  rewrite !(bind_returns _ _ _ _ _ Hx). apply IH.
Qed.

(** The run of a program, by its first action. *)
Lemma run_store {R} c s (k : unit -> Prog R) A w :
  run (Do (StoreAddr c s) k) (mkShared A w) = run (k tt) (mkShared (<[c := s]> A) w).
Proof. reflexivity. Qed.

Lemma run_load {R} c (k : string -> Prog R) A w :
  run (Do (LoadAddr c) k) (mkShared A w) =
  run (k (default "" (A !! c))) (mkShared A w).
Proof. reflexivity. Qed.

Lemma run_call {R} a (prim : M World (Ans a)) (k : Ans a -> Prog R) A w :
  (forall st, exec a st = on_world prim st) ->
  run (Do a k) (mkShared A w) =
  match prim w with
  | Returns x w' => run (k x) (mkShared A w')
  | Panics w' => Panics (mkShared A w')
  end.
Proof.
  intros Ha. cbn [run]. unfold bind. rewrite Ha. unfold on_world. cbn [sworld addrs].
  by destruct (prim w).
Qed.

(** One more step at the head of a schedule: a dial, by its answer, and a
    load, by what the cell holds. *)
Lemma pruns_dial {R} (ts : list (Prog R)) st i dd n addr k r ls cfg' :
  ts !! i = Some (Do (DialAct dd n addr) k) ->
  env_dial (trace (sworld st)) dd n addr = r ->
  pruns (<[i := k r]> ts,
         mkShared (addrs st) (note_open r (log (EvDial dd n addr r) (sworld st))))
    ls cfg' ->
  pruns (ts, st) ((i, DialAct dd n addr) :: ls) cfg'.
Proof.
  intros Hi Hd. apply pruns_cons, (pstep_do ts st i (DialAct dd n addr) k r); [done|].
  cbn [exec]. unfold on_world, direct_Dial. by rewrite Hd.
Qed.

Lemma pruns_load {R} (ts : list (Prog R)) st i c k s ls cfg' :
  ts !! i = Some (Do (LoadAddr c) k) -> addrs st !! c = Some s ->
  pruns (<[i := k s]> ts, st) ls cfg' ->
  pruns (ts, st) ((i, LoadAddr c) :: ls) cfg'.
Proof.
  intros Hi Hc. apply pruns_cons, (pstep_do ts st i (LoadAddr c) k s); [done|].
  simpl. f_equal. by apply (f_equal (default "")) in Hc.
Qed.

(** A pool of one program steps as the program runs alone. *)
Lemma pruns_run {R} (t : Prog R) st ls r st' :
  pruns ([t], st) ls ([Done r], st') -> run t st = Returns r st'.
Proof.
  intros Hr. remember ([t], st) as cfg eqn:Hc.
  remember ([Done r], st') as cfg' eqn:Hc'. revert t st Hc.
  induction Hr as [cfg|cfg l cfg1 ls cfg2 Hs _ IH]; intros t st ->.
  - by injection Hc' as -> ->.
  - inversion Hs as [ts st0 i a k x st1 Hi Hx]; subst.
    destruct i; [|done]. injection Hi as ->.
    cbn [run]. rewrite (bind_returns _ _ _ _ _ Hx). by apply IH.
Qed.

(** A program that returns does so in a pool of its own. *)
Lemma run_pruns {R} (t : Prog R) st r st' :
  run t st = Returns r st' ->
  exists ls, pruns ([t], st) ls ([Done r], st') /\
    ls.*1 = replicate (length ls) 0%nat.
Proof.
  revert st. induction t as [r0| |a k IH]; intros st; cbn [run].
  - intros [= -> ->]. exists []. split; [constructor|done].
  - done.
  - destruct (exec_returns a st) as (x & st1 & Hx).
    rewrite (bind_returns _ _ _ _ _ Hx). intros (ls & Hr & Hl)%IH.
    exists ((0%nat, a) :: ls). split; [|cbn; by rewrite Hl].
    econstructor; [|done]. by apply (pstep_do [Do a k] st 0 a k x st1).
Qed.

(** A pool of one goroutine and the program alone: the same runs. *)
Lemma pool_of_one {R} (t : Prog R) st r st' :
  run t st = Returns r st' <-> exists ls, pruns ([t], st) ls ([Done r], st').
Proof.
  split; [|by intros [ls ?%pruns_run]].
  intros (ls & Hr & _)%run_pruns. by exists ls.
Qed.

End alone.

(** ** The shared state along a schedule *)

Section shared.
Context `{Env} {R : Type}.
Implicit Types (t : Prog R) (ts : list (Prog R)) (st : Shared).
Implicit Types (cfg : list (Prog R) * Shared).

(** What an action does to the cells. *)
Lemma exec_addrs a st x st' :
  exec a st = Returns x st' ->
  addrs st' = match a with
              | StoreAddr c s => <[c := s]> (addrs st)
              | _ => addrs st
              end.
Proof.
  destruct a; cbn [exec]; try (by intros (w' & _ & ->)%on_world_inv);
    by intros [= _ <-].
Qed.

(** An action only appends events to the trace, with the state changed as
    they say. *)
Lemma exec_extends a st x st' :
  exec a st = Returns x st' ->
  extends (fun _ => True) (sworld st) (sworld st').
Proof.
  destruct a as [| | | | | |h [b|]| | |]; cbn [exec];
    try (by intros [= _ <-]);
    intros (w' & Hm & ->)%on_world_inv; cbn [sworld];
    try (unfold conn_Read in Hm; destruct (env_read _ _));
    injection Hm as _ <-; eauto with go.
  by eapply extends_step.
Qed.

Lemma pstep_extends cfg l cfg' :
  pstep cfg l cfg' -> extends (fun _ => True) (sworld cfg.2) (sworld cfg'.2).
Proof. intros [ts st i a k x st' _ Hx]. by eapply exec_extends. Qed.

Lemma pruns_extends cfg ls cfg' :
  pruns cfg ls cfg' -> extends (fun _ => True) (sworld cfg.2) (sworld cfg'.2).
Proof.
  induction 1 as [|cfg l cfg1 ls cfg2 Hs _ IH]; [done|].
  etrans; [by eapply pstep_extends|done].
Qed.

(** What an action does to the resolver. *)
Lemma exec_remembers i a st x st' :
  exec a st = Returns x st' ->
  firstIP (sworld st') = remembers (firstIP (sworld st)) (i, a).
Proof.
  destruct a as [| | | | | |h [b|]| | |]; cbn [exec];
    try (by intros [= _ <-]);
    intros (w' & Hm & ->)%on_world_inv; cbn [sworld];
    try (unfold conn_Read in Hm; destruct (env_read _ _));
    injection Hm as _ <-; by autorewrite with go.
Qed.

Lemma pruns_remembers cfg ls cfg' :
  pruns cfg ls cfg' ->
  firstIP (sworld cfg'.2) = foldl remembers (firstIP (sworld cfg.2)) ls.
Proof.
  induction 1 as [|cfg l cfg1 ls cfg2 Hs _ IH]; [done|].
  destruct Hs as [ts st i a k x st' _ Hx]. cbn [foldl snd] in *.
  by rewrite IH, <- (exec_remembers i a st x st' Hx).
Qed.

End shared.

(** ** Every schedule ends, and no goroutine waits *)

Section termination.
Context {R : Type}.
Implicit Types (t : Prog R) (ts : list (Prog R)).

Lemma advances_cons_inv t ts us :
  advances (t :: ts) us ->
  (exists t', next t t' /\ us = t' :: ts) \/
  (exists ts', advances ts ts' /\ us = t :: ts').
Proof.
  intros ([|i] & t0 & t' & Hi & Hn & ->); cbn in *.
  - injection Hi as <-. left. eauto.
  - right. exists (<[i := t']> ts). split; [by exists i, t0, t'|done].
Qed.

(** One more goroutine in a pool that always ends. *)
Lemma sn_advances_cons t ts : sn advances ts -> sn advances (t :: ts).
Proof.
  revert ts. induction t as [r| |a k IHk]; intros ts Hts;
    induction Hts as [ts Hacc IH]; constructor; intros us Hus;
    apply advances_cons_inv in Hus as [(t' & Hn & ->)|(ts' & Hs & ->)];
    [destruct Hn|exact (IH _ Hs)|destruct Hn|exact (IH _ Hs)| |exact (IH _ Hs)].
  destruct Hn as [x ->]. exact (IHk x ts (Acc_intro ts Hacc)).
Qed.

Lemma sn_advances ts : sn advances ts.
Proof.
  induction ts as [|t ts IH]; [|by apply sn_advances_cons].
  constructor. by intros us (i & t & t' & ? & _).
Qed.

End termination.

Section liveness.
Context `{Env} {R : Type}.
Implicit Types (t : Prog R) (ts : list (Prog R)) (st : Shared).
Implicit Types (cfg : list (Prog R) * Shared).

Lemma pstep_advances cfg l cfg' : pstep cfg l cfg' -> advances cfg.1 cfg'.1.
Proof. intros [ts st i a k x st' Hi Hx]. exists i, (Do a k), (k x). cbn. eauto. Qed.

(** Termination under every scheduler: no pool has an infinite schedule. *)
Lemma pool_terminates cfg : sn steps cfg.
Proof.
  destruct cfg as [ts st]. revert st.
  induction (sn_advances ts) as [ts _ IH]. intros st. constructor.
  intros [ts' st'] [l Hs]. apply IH. by apply pstep_advances in Hs.
Qed.

(** No deadlock: a goroutine that has an action left can make it, in
    every state. *)
Lemma pool_progress ts st i a k :
  ts !! i = Some (Do a k) ->
  exists x st', pstep (ts, st) (i, a) (<[i := k x]> ts, st').
Proof.
  intros Hi. destruct (exec_returns a st) as (x & st' & Hx).
  exists x, st'. by constructor.
Qed.

(** Every pool can be run until all its goroutines have stopped. *)
Lemma pool_finishes cfg :
  exists ls cfg', pruns cfg ls cfg' /\ Forall stopped cfg'.1.
Proof.
  induction (pool_terminates cfg) as [[ts st] _ IH].
  destruct (decide (Forall stopped ts)) as [?|Hn].
  { exists [], (ts, st). split; [constructor|done]. }
  apply not_Forall_Exists, Exists_exists in Hn as (t & Hin & Ht); [|apply _].
  apply list_elem_of_lookup in Hin as [i Hi]. destruct t as [| |a k]; [by destruct Ht..|].
  destruct (pool_progress ts st i a k Hi) as (x & st' & Hs).
  destruct (IH _ (ex_intro _ _ Hs)) as (ls & cfg' & Hr & Hf).
  exists ((i, a) :: ls), cfg'. split; [by econstructor|done].
Qed.

End liveness.

(** ** Programs that cannot crash *)

Section safety.
Context `{Env} `{!EnvOK} {R : Type}.
Implicit Types (t : Prog R) (ts : list (Prog R)) (st : Shared) (Q : R -> Prop).
Implicit Types (cfg : list (Prog R) * Shared).

(** The dialers keep their contract on every action. *)
Lemma exec_ok a st x st' : exec a st = Returns x st' -> ok_ans a x.
Proof.
  destruct a; cbn [exec ok_ans]; try done;
    intros (w' & Hm & _)%on_world_inv; injection Hm as <- _;
    [apply env_dial_exclusive|apply env_socks5_dial_exclusive].
Qed.

Lemma ends_in_mono (P Q : R -> Prop) t :
  (forall r, P r -> Q r) -> ends_in P t -> ends_in Q t.
Proof. intros HPQ. induction t; cbn; auto. Qed.

Lemma pstep_length cfg l cfg' : pstep cfg l cfg' -> length cfg'.1 = length cfg.1.
Proof. intros [ts st i a k x st' _ _]. apply length_insert. Qed.

Lemma pruns_length cfg ls cfg' : pruns cfg ls cfg' -> length cfg'.1 = length cfg.1.
Proof.
  induction 1 as [|cfg l cfg1 ls cfg2 Hs _ IH]; [done|].
  by rewrite IH, (pstep_length _ _ _ Hs).
Qed.

(** What a goroutine ends in does not depend on the schedule. *)
Lemma pruns_ends_in i Q cfg ls cfg' t :
  pruns cfg ls cfg' -> cfg.1 !! i = Some t -> ends_in Q t ->
  exists t', cfg'.1 !! i = Some t' /\ ends_in Q t'.
Proof.
  intros Hr. revert t.
  induction Hr as [cfg|cfg l cfg1 ls cfg2 Hs _ IH]; intros t Hi Ht; [eauto|].
  destruct Hs as [ts st j a k x st' Hj Hx]. cbn [fst] in *.
  destruct (decide (j = i)) as [->|Hne].
  - apply (IH (k x)); [apply list_lookup_insert_eq; by eapply lookup_lt_Some|].
    rewrite Hj in Hi. injection Hi as <-. eapply Ht, exec_ok, Hx.
  - apply (IH t); [by rewrite list_lookup_insert_ne|done].
Qed.

(** Programs that cannot crash stay so along every schedule. *)
Lemma pruns_safe ts st ls cfg' :
  Forall (ends_in (fun _ => True)) ts -> pruns (ts, st) ls cfg' ->
  Forall (ends_in (fun _ => True)) cfg'.1.
Proof.
  intros Hts Hr. apply Forall_lookup. intros i t' Hi.
  destruct (lookup_lt_is_Some_2 ts i) as [t Ht].
  { pose proof (pruns_length _ _ _ Hr) as Hl. apply lookup_lt_Some in Hi.
    cbn [fst] in Hl. by rewrite <- Hl. }
  destruct (pruns_ends_in i (fun _ => True) _ _ _ t Hr Ht) as (t'' & Hi' & He).
  { eapply Forall_lookup_1; eauto. }
  rewrite Hi in Hi'. by injection Hi' as <-.
Qed.

(** In a pool of programs that cannot crash, no schedule leads to a
    crashed goroutine. *)
Lemma pool_no_crash ts st ls cfg' :
  Forall (ends_in (fun _ => True)) ts -> pruns (ts, st) ls cfg' ->
  Crash ∉ cfg'.1.
Proof.
  intros Hts Hr Hin. pose proof (pruns_safe _ _ _ _ Hts Hr) as Hs.
  rewrite Forall_forall in Hs. by apply Hs in Hin.
Qed.

(** Such a pool can be run until every goroutine has returned. *)
Lemma pool_returns ts st :
  Forall (ends_in (fun _ => True)) ts ->
  exists ls cfg', pruns (ts, st) ls cfg' /\ Forall returned cfg'.1.
Proof.
  intros Hts. destruct (pool_finishes (ts, st)) as (ls & cfg' & Hr & Hf).
  exists ls, cfg'. split; [done|].
  pose proof (pruns_safe _ _ _ _ Hts Hr) as Hs.
  apply Forall_forall. intros t Ht. rewrite Forall_forall in Hf, Hs.
  specialize (Hf t Ht). specialize (Hs t Ht). by destruct t.
Qed.

End safety.

(** ** Programs in sequence *)

Section sequence.
Context {R Q : Type}.
Implicit Types (t : Prog R) (f : R -> Prog Q).

Lemma ends_in_bindP (P : Q -> Prop) f t :
  ends_in (fun r => ends_in P (f r)) t -> ends_in P (bindP t f).
Proof. induction t; cbn; auto. Qed.

Lemma ends_in_bindP_safe (P : Q -> Prop) f t :
  ends_in (fun _ => True) t -> (forall r, ends_in P (f r)) ->
  ends_in P (bindP t f).
Proof. intros Ht Hf. apply ends_in_bindP. revert Ht. induction t; cbn; auto. Qed.

Lemma quiet_bindP c f t :
  (forall r, quiet c (f r)) -> quiet c t -> quiet c (bindP t f).
Proof.
  intros Hf. induction t as [r| |a k IH]; [intros _; apply Hf|done|].
  intros [Ha Hk]. split; [done|]. intros x. by apply IH.
Qed.

Lemma obeys_bindP c (P : Rule) f t cur hist :
  (forall r cur' hist', obeys c P cur' hist' (f r)) ->
  obeys c P cur hist t -> obeys c P cur hist (bindP t f).
Proof.
  intros Hf. revert cur hist.
  induction t as [r| |a k IH]; intros cur hist; [intros _; apply Hf|done|].
  intros [HP Hk]. split; [done|]. revert Hk.
  destruct a; cbn [bindP]; try (by auto).
  destruct cur; [case_decide|]; auto.
Qed.

End sequence.

(** ** Isolation: nobody else stores to the cell *)

Section isolation.
Context `{Env} {R : Type}.
Implicit Types (t : Prog R) (ts : list (Prog R)) (st : Shared).
Implicit Types (cfg : list (Prog R) * Shared).

(** A step of the goroutine itself. *)
Lemma obeys_step c P cur hist a (k : Ans a -> Prog R) st x st' :
  obeys c P cur hist (Do a k) -> cell_holds c cur st ->
  exec a st = Returns x st' ->
  P hist a /\
  exists cur', obeys c P cur' (hist ++ [a]) (k x) /\ cell_holds c cur' st'.
Proof.
  intros [HP Hd] Hc Hx. split; [done|]. pose proof (exec_addrs _ _ _ _ Hx) as Ha.
  destruct a as [c' s|c'| | | | | | | |];
    [| |exists cur; (split; [apply Hd|]); unfold cell_holds; by rewrite Ha..].
  - destruct x. eexists. split; [done|].
    unfold cell_holds. rewrite Ha. case_decide as Hcc; [subst; by simplify_map_eq|].
    destruct cur; [by rewrite lookup_insert_ne|done].
  - exists cur. injection Hx as <- <-. split; [|done].
    destruct cur as [s|]; [|done]. case_decide as Hcc; [|done].
    subst c'. cbn in Hc. by rewrite Hc.
Qed.

(** A step of a quiet goroutine leaves the cell as it is. *)
Lemma quiet_step c cur a (k : Ans a -> Prog R) st x st' :
  quiet c (Do a k) -> cell_holds c cur st -> exec a st = Returns x st' ->
  quiet c (k x) /\ cell_holds c cur st'.
Proof.
  intros [Hq Hk] Hc Hx. split; [done|].
  unfold cell_holds. rewrite (exec_addrs _ _ _ _ Hx).
  destruct a, cur; try done. by rewrite lookup_insert_ne.
Qed.

Lemma own_cons_eq i a ls : own i ((i, a) :: ls) = a :: own i ls.
Proof. unfold own. by rewrite filter_cons_True. Qed.

Lemma own_cons_ne i j a ls : j <> i -> own i ((j, a) :: ls) = own i ls.
Proof. intros. unfold own. by rewrite filter_cons_False. Qed.

Lemma isolated_step i c P hist cfg l cfg' :
  pstep cfg l cfg' -> isolated i c P hist cfg ->
  isolated i c P (hist ++ own i [l]) cfg' /\ (l.1 = i -> P hist l.2).
Proof.
  intros [ts st j a k x st' Hj Hx] [(cur & t & Hi & Hd & Hc) Hq].
  unfold isolated. cbn [fst snd] in *. destruct (decide (j = i)) as [->|Hne].
  - rewrite Hj in Hi. injection Hi as <-. rewrite own_cons_eq.
    destruct (obeys_step _ _ _ _ _ _ _ _ _ Hd Hc Hx) as (HP & cur' & Hd' & Hc').
    split; [|done]. split.
    + exists cur', (k x). split; [|done].
      apply list_lookup_insert_eq. by eapply lookup_lt_Some.
    + intros j t' Hji. rewrite list_lookup_insert_ne by done. by apply Hq.
  - destruct (quiet_step c cur a k st x st' (Hq _ _ Hne Hj) Hc Hx) as [Hqk Hc'].
    rewrite own_cons_ne, app_nil_r by done. split; [|done]. split.
    + exists cur, t. by rewrite list_lookup_insert_ne.
    + intros j' t' Hj'. destruct (decide (j' = j)) as [->|?].
      * rewrite list_lookup_insert_eq by by eapply lookup_lt_Some.
        by intros [= <-].
      * rewrite list_lookup_insert_ne by done. by apply Hq.
Qed.

(** In every schedule of a pool in which goroutine [i] is isolated on its
    cell, each action of [i] is allowed by the rule, after the actions [i]
    made before it. *)
Lemma isolated_pruns i c P hist cfg ls cfg' :
  pruns cfg ls cfg' -> isolated i c P hist cfg ->
  forall ls1 a ls2, ls = ls1 ++ (i, a) :: ls2 -> P (hist ++ own i ls1) a.
Proof.
  intros Hr. revert hist.
  induction Hr as [cfg|cfg l cfg1 ls cfg2 Hs _ IH]; intros hist Hi ls1 a ls2 Hl.
  { by destruct ls1. }
  destruct (isolated_step _ _ _ _ _ _ _ Hs Hi) as [Hi1 HP].
  destruct ls1 as [|l1 ls1]; injection Hl as -> ->.
  - rewrite app_nil_r. by apply HP.
  - specialize (IH _ Hi1 ls1 a ls2 eq_refl). revert IH.
    destruct l1 as [j b]. destruct (decide (j = i)) as [->|Hne].
    + by rewrite !own_cons_eq, <- app_assoc.
    + by rewrite !own_cons_ne, app_nil_r by done.
Qed.

(** The same for the rule on dials, in the words of the schedule. *)
Lemma isolated_dials i c (Q : string -> Prop) P hist cfg ls cfg' :
  (forall hist a, P hist a -> dials_in Q hist a) ->
  pruns cfg ls cfg' -> isolated i c P hist cfg ->
  forall dd n addr, (i, DialAct dd n addr) ∈ ls -> Q addr.
Proof.
  intros HPQ Hr Hi dd n addr (ls1 & ls2 & ->)%list_elem_of_split.
  by apply (HPQ _ _ (isolated_pruns _ _ _ _ _ _ _ Hr Hi ls1 _ ls2 eq_refl)).
Qed.

End isolation.

(** ** Race freedom *)

Lemma confined_bindP {R Q} c (f : R -> Prog Q) t :
  confined c t -> (forall r, confined c (f r)) -> confined c (bindP t f).
Proof.
  intros Ht Hf. induction t as [r| |a k IH]; [apply Hf|done|].
  destruct Ht as [Ha Hk]. split; [done|]. intros x. by apply IH.
Qed.

Section race_free.
Context `{Env} {R : Type}.
Implicit Types (ts : list (Prog R)) (cs : list nat) (cfg : list (Prog R) * Shared).

(** A step leaves every goroutine within its cell. *)
Lemma pstep_confined cs cfg l cfg' :
  Forall2 confined cs cfg.1 -> pstep cfg l cfg' -> Forall2 confined cs cfg'.1.
Proof.
  intros Hc Hs. destruct Hs as [ts st i a k x st' Hi Hx]. cbn [fst] in *.
  destruct (Forall2_lookup_r _ _ _ _ _ Hc Hi) as (c & Hci & _ & Hk).
  rewrite <- (list_insert_id cs i c Hci). by apply Forall2_insert.
Qed.

Lemma pruns_confined cs cfg ls cfg' :
  Forall2 confined cs cfg.1 -> pruns cfg ls cfg' -> Forall2 confined cs cfg'.1.
Proof. induction 2; eauto using pstep_confined. Qed.

(** Goroutines that keep to cells of their own do not race. *)
Lemma confined_no_race cs ts : NoDup cs -> Forall2 confined cs ts -> ~ race ts.
Proof.
  intros Hnd Hc (i & j & a & k & b & k' & Hij & Hi & Hj & Hab).
  destruct (Forall2_lookup_r _ _ _ _ _ Hc Hi) as (ci & Hci & Ha & _).
  destruct (Forall2_lookup_r _ _ _ _ _ Hc Hj) as (cj & Hcj & Hb & _).
  unfold conflict in Hab.
  destruct (access a) as [[c wa]|]; [|done].
  destruct (access b) as [[c' wb]|]; [|done]. destruct Hab as [<- _].
  apply Hij, (NoDup_lookup cs i j c); [done|..].
  - by rewrite Hci, (Ha c wa).
  - by rewrite Hcj, (Hb c wb).
Qed.

(** No schedule of such a pool leads to a race. *)
Lemma pool_race_free cs ts st ls cfg' :
  NoDup cs -> Forall2 confined cs ts -> pruns (ts, st) ls cfg' ->
  ~ race cfg'.1.
Proof.
  intros Hnd Hc Hr. apply (confined_no_race cs); [done|].
  by apply (pruns_confined cs (ts, st) ls cfg').
Qed.

End race_free.


(** Confinement of a program given action by action: each access is checked
    by computation, each branch on an answer is taken apart. *)
Ltac confine :=
  repeat match goal with
  | |- confined _ (Do _ _) =>
      split; [intros ? ? Hacc; cbn in Hacc; congruence|intros ?]
  | |- confined _ (Done _) => exact I
  | |- confined _ (call _) => unfold call
  | |- confined _ (match ?x with _ => _ end) => destruct x
  | |- confined _ (if ?x then _ else _) => destruct x
  | |- confined _ (let '(_, _) := ?x in _) => destruct x
  end.

(** One step of a schedule, by goroutine [i], its answer computed. *)
Ltac step_of i :=
  eapply pruns_cons; [by eapply (pstep_do _ _ i)|];
  cbn [insert list_insert fst bindP].
