(* ===== verification/Goroutines.v ===== *)
(** * Goroutines: calls of Dial that run at the same time

    [Dial] once more, at the grain of what goroutines share: a program
    [Prog] of the machine of [Concurrent] that makes one action per access
    to [p.DialAddr] and one per library call.  [dial_prog] is the whole
    method; its parts follow the parts of [Dial]: [plain_prog] (lines 154
    and 164-168), [resolve_prog] (lines 175-182), [socks5_prog] (lines
    184-211), [reach_prog] (lines 213-232, with [attempt_prog],
    [try_ips_prog] and [literal_prog]), [handshake_prog] (lines 236-253)
    and [http_prog] (lines 213-253).  The fields of the descriptor that no
    call of [Dial] writes (the URL, the timeout, the bypass predicate) are
    read from the descriptor the goroutine was started with; [DialAddr]
    lives in a cell of the shared state.

    The theorems: alone, each program does what its part of [Dial] does
    ([follows]), so [dial_prog] alone is [Dial] ([dial_prog_alone]); calls
    of [Dial] on descriptors of their own never race on [DialAddr] and,
    when the dialers keep their contract, never crash ([dial_pool_safe]),
    while two calls on one descriptor race from their first action
    ([dial_pool_races]); a search whose cell nobody else stores to dials
    addresses of its plan only and remembers only candidates it connected
    to; and on a shared descriptor there is a schedule in which the search
    dials what another call stored, the destination itself, without the
    proxy ([reach_prog_race]), and one in which it then tells the resolver
    to remember a candidate it never connected to
    ([try_ips_prog_poisons]). *)

From stdpp Require Import relations.
From S2P Require Import Prelude Url Net Proxy Worlds Handshake Reach Socks5 Dial.
From S2P Require Import Session Concurrent.

#[local] Open Scope go_scope.

(** ** The programs of Dial *)

Section programs.
Context `{net.Lib} `{Env}.

(** Lines 219-221: [p.DialAddr = FormatIP(ip, proxyPort)], then the dial of
    [p.DialAddr], read back from the descriptor. *)
Definition attempt_prog {R} (c : nat) (dd : direct) (network addr : string)
    (k : GoRes net.Conn -> Prog R) : Prog R :=
  Do (StoreAddr c addr) (fun _ =>
  Do (LoadAddr c) (fun a =>
  Do (DialAct dd network a) k)).

(** Lines 218-227: the candidate loop of the HTTP path. *)
Fixpoint try_ips_prog (c : nat) (dd : direct) (network proxyHost proxyPort : string)
    (ips : list net.IP) (last : GoRes net.Conn) : Prog (GoRes net.Conn) :=
  match ips with
  | [] => Done last
  | ip :: rest =>
      match ip with
      | None => try_ips_prog c dd network proxyHost proxyPort rest last
      | Some _ =>
          attempt_prog c dd network (FormatIP ip proxyPort) (fun r =>
            match fst r with
            | Some _ => Do (RememberAct proxyHost ip) (fun _ => Done r)
            | None => try_ips_prog c dd network proxyHost proxyPort rest r
            end)
      end
  end.

(** Lines 228-231: the proxy address as written; this dial does not read
    [p.DialAddr]. *)
Definition literal_prog (c : nat) (dd : direct) (network proxyAddr : string)
    (last : GoRes net.Conn) : Prog (GoRes net.Conn) :=
  match fst last with
  | Some _ => Done last
  | None =>
      Do (StoreAddr c proxyAddr) (fun _ => Do (DialAct dd network proxyAddr) Done)
  end.

(** Lines 213-232: reaching the proxy on the HTTP path. *)
Definition reach_prog (c : nat) (dd : direct)
    (network proxyAddr proxyHost proxyPort : string)
    (ips : list net.IP) (first : net.IP) (e : option error)
  : Prog (GoRes net.Conn) :=
  bindP (match first with
         | Some _ => attempt_prog c dd network (FormatIP first proxyPort) Done
         | None => Done (None, e)
         end)
    (fun r1 =>
       match fst r1 with
       | Some _ => Done r1
       | None =>
           bindP (try_ips_prog c dd network proxyHost proxyPort ips r1)
                 (literal_prog c dd network proxyAddr)
       end).

(** Lines 154 and 164-168: a direct dial of the destination: [p.DialAddr =
    Host], the dial, and on a connection [p.DialAddr =
    a.RemoteAddr().String()]. *)
Definition plain_prog (c : nat) (dd : direct) (network addr Host : string)
  : Prog (GoRes net.Conn) :=
  Do (StoreAddr c Host) (fun _ =>
  Do (DialAct dd network addr) (fun r =>
  match fst r with
  | Some conn => Do (StoreAddr c (net.RemoteAddr conn)) (fun _ => Done r)
  | None => Done r
  end)).

(** Lines 175-182: the candidates and the remembered address of the proxy
    host. *)
Definition resolve_prog (proxyHost : string) (e : option error)
  : Prog (list net.IP * net.IP) :=
  match e with
  | None =>
      if bool_decide (net.ParseIP proxyHost = None)
      then Do (LookupAct proxyHost) (fun r =>
           Do (GetFirstAct proxyHost) (fun first => Done (fst r, first)))
      else Done ([], None)
  | Some _ => Done ([], None)
  end.

(** Lines 236-253: the CONNECT exchange. *)
Definition handshake_prog (p : option Proxy) (conn : net.Conn) (addr : string)
  : Prog (GoRes net.Conn) :=
  Do (WriteAct conn (bytes_of_string (connect_request addr (User p) (Pass p))))
    (fun e =>
  match e with
  | Some e => Done (None, Some e)
  | None =>
      Do (ReadAct conn connect_bufsize) (fun '(n, b, er) =>
      if bool_decide (n < 13)
      then Do (CloseAct conn) (fun _ => Done (None, er))
      else if bool_decide (string_of_bytes (take 12 b) <> "HTTP/1.1 200")
      then Done (None, Some (Errorf (string_of_bytes b) []))
      else Done (Some conn, er))
  end).

(** Lines 213-253: the HTTP path.  [conn.Write] on a nil [conn] is the
    crash. *)
Definition http_prog (c : nat) (dd : direct) (p : Proxy)
    (network addr proxyAddr proxyHost proxyPort : string)
    (ips : list net.IP) (first : net.IP) (e : option error)
  : Prog (GoRes net.Conn) :=
  bindP (reach_prog c dd network proxyAddr proxyHost proxyPort ips first e)
    (fun '(conn, e) =>
       match e with
       | Some e => Done (None, Some e)
       | None =>
           match conn with
           | None => Crash
           | Some cn => handshake_prog (Some p) cn addr
           end
       end).

(** Lines 189-195, 198-203 and 206-210: a SOCKS5 dial of [target]; on a
    connection [p.DialAddr = target], then what the code does next. *)
Definition socks5_attempt (c : nat) (d : Socks5Dialer) (network target : string)
    (after : Prog unit) : Prog (GoRes net.Conn) :=
  Do (SocksDialAct d network target) (fun r =>
  match fst r with
  | Some _ => Do (StoreAddr c target) (fun _ => bindP after (fun _ => Done r))
  | None => Done r
  end).

(** Lines 196-205: the candidate loop of the SOCKS5 path; [None] when no
    candidate connected. *)
Fixpoint socks5_try_prog (c : nat) (d : Socks5Dialer)
    (network proxyHost proxyPort : string) (ips : list net.IP)
  : Prog (option (GoRes net.Conn)) :=
  match ips with
  | [] => Done None
  | ip :: rest =>
      match ip with
      | None => socks5_try_prog c d network proxyHost proxyPort rest
      | Some _ =>
          bindP (socks5_attempt c d network (FormatIP ip proxyPort)
                   (call (RememberAct proxyHost ip)))
            (fun r =>
               match fst r with
               | Some _ => Done (Some r)
               | None => socks5_try_prog c d network proxyHost proxyPort rest
               end)
      end
  end.

(** Lines 184-211: the SOCKS5 path.  [d.Dial] on a nil dialer is the
    crash. *)
Definition socks5_prog (c : nat) (dd : direct) (p : Proxy)
    (network addr proxyAddr proxyHost proxyPort : string)
    (ips : list net.IP) (first : net.IP) : Prog (GoRes net.Conn) :=
  match SOCKS5 "tcp" proxyAddr (getSocksAuth (Some p)) dd with
  | (_, Some err1) => Done (None, Some err1)
  | (None, None) => Crash
  | (Some d, None) =>
      bindP (match first with
             | Some _ =>
                 bindP (socks5_attempt c d network (FormatIP first proxyPort)
                          (Done tt))
                   (fun r => match fst r with
                             | Some _ => Done (Some r)
                             | None => Done None
                             end)
             | None => Done None
             end)
        (fun r1 =>
           match r1 with
           | Some r => Done r
           | None =>
               bindP (socks5_try_prog c d network proxyHost proxyPort ips)
                 (fun r2 =>
                    match r2 with
                    | Some r => Done r
                    | None => socks5_attempt c d network addr (Done tt)
                    end)
           end)
  end.

End programs.

Section dial_prog.
Context `{url.Lib} `{net.Lib} `{Env}.

(** [func (p *Proxy) Dial(network, addr string) (net.Conn, error)], on the
    descriptor in cell [c]. *)
Definition dial_prog (c : nat) (p : option Proxy) (network addr : string)
  : Prog (GoRes net.Conn) :=
  let directDialer := mkDirect (getTimeout p) in
  let '(Host, _, _) := net.SplitHostPort addr in
  match p with
  | None => call (DialAct directDialer network addr)
  | Some p =>
      match URL p with
      | None => plain_prog c directDialer network addr Host
      | Some U =>
          if bypasses p Host
          then plain_prog c directDialer network addr Host
          else
            Do (StoreAddr c Host) (fun _ =>
            let proxyAddr := url.Host U in
            let '(proxyHost, proxyPort, e) := net.SplitHostPort proxyAddr in
            bindP (resolve_prog proxyHost e) (fun '(ips, first) =>
            if IsSocksType (Some p)
            then socks5_prog c directDialer p network addr proxyAddr
                             proxyHost proxyPort ips first
            else http_prog c directDialer p network addr proxyAddr
                           proxyHost proxyPort ips first e))
      end
  end.

(** A call of [Dial] by a goroutine: the cell of the descriptor it is made
    on, the descriptor as the goroutine finds it, and the arguments. *)
Record DialCall : Type := mkDialCall {
  dc_cell : nat;
  dc_recv : option Proxy;
  dc_network : string;
  dc_addr : string
}.

(** The goroutines of a list of calls. *)
Definition dial_pool (ks : list DialCall) : list (Prog (GoRes net.Conn)) :=
  (fun k => dial_prog (dc_cell k) (dc_recv k) (dc_network k) (dc_addr k)) <$> ks.

End dial_prog.

(** ** A program and the part of Dial it follows *)

(** The [DialAddr] of the descriptor a part of [Dial] returns, and its
    result. *)
Definition with_addr {X} (y : Proxy * X) : string * X := (DialAddr y.1, y.2).

(** The same for a part that returns the receiver as a pointer. *)
Definition opt_addr {X} (y : option Proxy * X) : string * X :=
  (from_option DialAddr "" y.1, y.2).

(** The same for the candidate loop of the SOCKS5 path, which leaves the
    descriptor as it is ([cur]) when no candidate connected. *)
Definition try_addr {X} (cur : string) (y : option (Proxy * X))
  : string * option X :=
  match y with
  | Some (p, r) => (DialAddr p, Some r)
  | None => (cur, None)
  end.

(** A part that does not touch the descriptor. *)
Definition no_addr {X} (cur : string) (y : X) : string * X := (cur, y).

(** [t], started with cell [c] holding [cur], does what [m] does: the same
    calls in the same world, the same result, and the cell ends holding the
    [DialAddr] of the descriptor [m] returns; a panic of [m] is a crash of
    [t] in the same world. *)
Definition follows `{Env} {X Y} (c : nat) (view : Y -> string * X) (cur : string)
    (m : M World Y) (t : Prog X) : Prop :=
  forall A w,
    match m w with
    | Returns y w' =>
        run t (mkShared (<[c := cur]> A) w) =
        Returns (view y).2 (mkShared (<[c := (view y).1]> A) w')
    | Panics w' =>
        exists A', run t (mkShared (<[c := cur]> A) w) = Panics (mkShared A' w')
    end.

(** The cells when cell [c] holds the [DialAddr] of the receiver; a nil
    receiver has no cell. *)
Definition cell_of (c : nat) (p : option Proxy) (A : gmap nat string)
  : gmap nat string :=
  match p with
  | Some q => <[c := DialAddr q]> A
  | None => A
  end.

(** The addresses of the plan of the HTTP path. *)
Definition plan_addrs `{net.Lib} (pa port : string) (first : net.IP)
    (ips : list net.IP) : list string :=
  attempt_addr pa port <$> http_plan first ips.

(** The rule of the HTTP search: it dials addresses of its plan, and tells
    the resolver only of candidates it dialled. *)
Definition search_rule `{net.Lib} (pa port : string) (first : net.IP)
    (ips : list net.IP) : Rule :=
  fun hist a =>
    dials_in (.∈ plan_addrs pa port first ips) hist a /\ vouched port hist a.

(** The steps of the race: the other goroutine dials the destination
    directly; the search stores the remembered address of the proxy; the
    other stores the remote address of its connection; the search reads the
    cell and dials what it read. *)
Definition race_schedule `{net.Lib} (c : nat) (dd : direct)
    (n addr Host port : string) (b : list byte) (conn : net.Conn) : list Label :=
  [(1%nat, StoreAddr c Host); (1%nat, DialAct dd n addr);
   (0%nat, StoreAddr c (FormatIP (Some b) port));
   (1%nat, StoreAddr c (net.RemoteAddr conn));
   (0%nat, LoadAddr c);
   (0%nat, DialAct dd n (net.RemoteAddr conn))].

(** The race, one step further: the search is in its candidate loop, the
    dial of what the other goroutine stored connects, and the search tells
    the resolver that its candidate [b] answered. *)
Definition poison_schedule `{net.Lib} (c : nat) (dd : direct)
    (n addr Host h port : string) (b : list byte) (conn : net.Conn) : list Label :=
  [(1%nat, StoreAddr c Host); (1%nat, DialAct dd n addr);
   (0%nat, StoreAddr c (FormatIP (Some b) port));
   (1%nat, StoreAddr c (net.RemoteAddr conn));
   (0%nat, LoadAddr c);
   (0%nat, DialAct dd n (net.RemoteAddr conn));
   (0%nat, RememberAct h (Some b))].

Section follows.
Context `{Env} {X Y : Type} (c : nat).
Implicit Types (view : Y -> string * X) (cur : string) (m : M World Y) (t : Prog X).

Lemma follows_ret view cur y x :
  view y = (cur, x) -> follows c view cur (ret y) (Done x).
Proof. intros Hv A w. cbn. by rewrite Hv. Qed.

Lemma follows_panic view cur : follows c view cur panic Crash.
Proof. intros A w. cbn. by eexists. Qed.

(** A store to the cell: the descriptor of [m] holds the address already. *)
Lemma follows_store view cur s m k :
  follows c view s m (k tt) -> follows c view cur m (Do (StoreAddr c s) k).
Proof. intros Hf A w. rewrite run_store, insert_insert_eq. apply Hf. Qed.

(** A load of the cell reads what the program stored last. *)
Lemma follows_load view cur m k :
  follows c view cur m (k cur) -> follows c view cur m (Do (LoadAddr c) k).
Proof. intros Hf A w. rewrite run_load, lookup_insert_eq. apply Hf. Qed.

(** A library call. *)
Lemma follows_call view cur a (prim : M World (Ans a)) (f : Ans a -> M World Y)
    (k : Ans a -> Prog X) :
  (forall st, exec a st = on_world prim st) ->
  (forall z, follows c view cur (f z) (k z)) ->
  follows c view cur (bind prim f) (Do a k).
Proof.
  intros Ha Hf A w. rewrite (run_call a prim) by done. unfold bind.
  destruct (prim w) as [z w1|w1]; [apply Hf|by eexists].
Qed.

End follows.

Section follows_bind.
Context `{Env} {X1 Y1 X2 Y2 : Type} (c : nat).

(** Two parts in sequence. *)
Lemma follows_bind (view1 : Y1 -> string * X1) (view2 : Y2 -> string * X2)
    cur m t (f : Y1 -> M World Y2) (g : X1 -> Prog X2) :
  follows c view1 cur m t ->
  (forall y, follows c view2 (view1 y).1 (f y) (g (view1 y).2)) ->
  follows c view2 cur (bind m f) (bindP t g).
Proof.
  intros Hm Hf A w. specialize (Hm A w). rewrite run_bindP. unfold bind.
  destruct (m w) as [y w1|w1].
  - rewrite Hm. apply Hf.
  - destruct Hm as [A' ->]. by eexists.
Qed.

(** The same, when the second part is followed only after results of the
    first that satisfy [Q]. *)
Lemma follows_bind_post (Q : Y1 -> Prop) (view1 : Y1 -> string * X1)
    (view2 : Y2 -> string * X2) cur m t (f : Y1 -> M World Y2) (g : X1 -> Prog X2) :
  follows c view1 cur m t -> (forall w, post (fun y _ => Q y) (m w)) ->
  (forall y, Q y -> follows c view2 (view1 y).1 (f y) (g (view1 y).2)) ->
  follows c view2 cur (bind m f) (bindP t g).
Proof.
  intros Hm HQ Hf A w. specialize (Hm A w). specialize (HQ w).
  rewrite run_bindP. unfold bind. destruct (m w) as [y w1|w1].
  - rewrite Hm. by apply Hf.
  - destruct Hm as [A' ->]. by eexists.
Qed.

(** A part whose result is only repackaged. *)
Lemma follows_fmap (view1 : Y1 -> string * X1) (view2 : Y2 -> string * X1)
    cur m t (h : Y1 -> Y2) :
  follows c view1 cur m t -> (forall y, view2 (h y) = view1 y) ->
  follows c view2 cur (bind m (fun y => ret (h y))) t.
Proof.
  intros Hm Hv A w. specialize (Hm A w). unfold bind.
  destruct (m w) as [y w1|w1]; [|done]. cbn. by rewrite Hv.
Qed.

End follows_bind.

(** Walk a program and the part of [Dial] it follows, action by action. *)
Ltac follow_call :=
  lazymatch goal with
  | |- follows _ _ _ _ (Do ?a _) => apply (follows_call _ _ _ a); [done|]
  end.

Ltac follow :=
  repeat first
    [ apply follows_panic
    | apply follows_store
    | apply follows_load
    | follow_call; intros ?
    | apply follows_ret; done ].

(** ** Each program alone *)

Section alone.
Context `{net.Lib} `{Env}.
Implicit Types (c : nat) (dd : direct) (p : Proxy) (cur : string).

Lemma try_ips_prog_follows c dd n h port ips st :
  follows c with_addr (DialAddr st.1) (http_try_ips dd n h port ips st)
    (try_ips_prog c dd n h port ips st.2).
Proof.
  revert st. induction ips as [|[b|] ips IH]; intros st;
    cbn [http_try_ips try_ips_prog]; [apply follows_ret; by destruct st| |apply IH].
  unfold attempt_prog. cbn zeta. apply follows_store, follows_load.
  follow_call. intros [[cn|] e]; cbn [fst]; [by follow|].
  exact (IH (set_DialAddr (FormatIP (Some b) port) st.1, (None, e))).
Qed.

Lemma literal_prog_follows c dd n pa st :
  follows c with_addr (DialAddr st.1) (http_literal dd n pa st)
    (literal_prog c dd n pa st.2).
Proof.
  unfold http_literal, literal_prog.
  destruct (fst (snd st)); [apply follows_ret; by destruct st|]. cbn zeta. follow.
Qed.

Lemma reach_prog_follows c dd p n pa h port ips first e :
  follows c with_addr (DialAddr p) (http_reach dd p n pa h port ips first e)
    (reach_prog c dd n pa h port ips first e).
Proof.
  unfold http_reach, reach_prog. eapply (follows_bind c with_addr with_addr).
  - destruct first; [|by follow]. unfold attempt_prog. cbn zeta. follow.
  - intros [p1 r1]. cbn [with_addr fst snd]. destruct (fst r1); [by follow|].
    eapply (follows_bind c with_addr with_addr);
      [apply (try_ips_prog_follows _ _ _ _ _ _ (p1, r1))|].
    intros st2. apply literal_prog_follows.
Qed.

Lemma plain_prog_follows c dd p n a Host cur :
  follows c opt_addr cur (dial_plain dd (set_DialAddr Host p) n a)
    (plain_prog c dd n a Host).
Proof.
  unfold dial_plain, plain_prog. apply follows_store.
  follow_call. intros [[cn|] e]; cbn [fst]; follow.
Qed.

Lemma resolve_prog_follows c h e cur :
  follows c (no_addr cur) cur (resolve_proxy h e) (resolve_prog h e).
Proof.
  unfold resolve_proxy, resolve_prog. destruct e; [by follow|].
  case_bool_decide; [|by follow].
  follow_call. intros [ips er]. follow.
Qed.

Lemma handshake_prog_follows c q cn a cur :
  follows c (no_addr cur) cur (connect_handshake q cn a) (handshake_prog q cn a).
Proof.
  unfold connect_handshake, handshake_prog.
  follow_call. intros [e|]; [by follow|].
  follow_call. intros [[n b] er].
  repeat case_bool_decide; follow.
Qed.

Lemma socks5_try_prog_follows c d p n h port ips :
  follows c (try_addr (DialAddr p)) (DialAddr p)
    (socks5_try_ips d p n h port ips) (socks5_try_prog c d n h port ips).
Proof.
  induction ips as [|[b|] ips IH]; cbn [socks5_try_ips socks5_try_prog];
    [by follow| |done].
  unfold socks5_attempt. cbn [bindP].
  follow_call. intros [[cn|] e]; cbn [fst bindP call]; [|done].
  follow.
Qed.

Lemma socks5_prog_follows c dd p n a pa h port ips first :
  follows c opt_addr (DialAddr p) (dial_socks5 dd p n a pa h port ips first)
    (socks5_prog c dd p n a pa h port ips first).
Proof.
  unfold dial_socks5, socks5_prog, socks5_attempt.
  destruct (SOCKS5 _ _ _ _) as [[d|] [err|]]; try by follow.
  eapply (follows_bind c (try_addr (DialAddr p)) opt_addr).
  - destruct first; [|by follow]. cbn [bindP].
    follow_call. intros [[cn|] e]; cbn [fst bindP]; follow.
  - intros [[p' r]|]; cbn [try_addr fst snd]; [by follow|].
    unfold socks5_candidates.
    eapply (follows_bind c (try_addr (DialAddr p)) opt_addr);
      [apply socks5_try_prog_follows|].
    intros [[p' r]|]; cbn [try_addr fst snd]; [by follow|].
    unfold socks5_last. follow_call.
    intros [[cn|] e]; cbn [fst bindP]; follow.
Qed.

End alone.

(** ** The whole call alone *)

Section whole.
Context `{url.Lib} `{net.Lib} `{Env}.
Implicit Types (c : nat) (dd : direct) (p q : Proxy) (cur : string).

(** The programs read the URL of the descriptor, not its [DialAddr]. *)
Lemma connect_handshake_endpoint (o o' : option Proxy) cn a :
  same_endpoint o o' -> connect_handshake o cn a = connect_handshake o' cn a.
Proof.
  intros Ho. unfold connect_handshake.
  by rewrite (User_proper _ _ Ho), (Pass_proper _ _ Ho).
Qed.

Lemma http_prog_endpoint c dd p q n a pa h port ips first e :
  same_endpoint (Some p) (Some q) ->
  http_prog c dd p n a pa h port ips first e =
  http_prog c dd q n a pa h port ips first e.
Proof.
  intros Ho. unfold http_prog, handshake_prog.
  by rewrite (User_proper _ _ Ho), (Pass_proper _ _ Ho).
Qed.

Lemma socks5_prog_endpoint c dd p q n a pa h port ips first :
  same_endpoint (Some p) (Some q) ->
  socks5_prog c dd p n a pa h port ips first =
  socks5_prog c dd q n a pa h port ips first.
Proof. intros Ho. unfold socks5_prog. by rewrite (getSocksAuth_proper _ _ Ho). Qed.

Lemma http_prog_follows c dd p n a pa h port ips first e :
  follows c opt_addr (DialAddr p) (dial_http dd p n a pa h port ips first e)
    (http_prog c dd p n a pa h port ips first e).
Proof.
  unfold dial_http, http_prog.
  eapply (follows_bind_post c (fun y => y.1 ≡ p) with_addr opt_addr);
    [apply reach_prog_follows| |].
  - intros w. apply http_reach_elim. by intros st' w' Hp%plan_run_equiv.
  - intros [p' [[cn|] [e'|]]] Hq; cbn [with_addr fst snd] in *; try by follow.
    rewrite (connect_handshake_endpoint (Some p') (Some p))
      by by apply equiv_same_endpoint; constructor.
    by eapply follows_fmap; [apply (handshake_prog_follows c _ _ _ (DialAddr p'))|].
Qed.

(** [dial_prog] follows [Dial], whatever the cell held before. *)
Lemma dial_prog_follows c p n a cur :
  follows c opt_addr cur (Dial (Some p) n a) (dial_prog c (Some p) n a).
Proof.
  assert (same_endpoint (Some p) (Some (set_DialAddr (net.SplitHostPort a).1.1 p)))
    as Ho by by constructor.
  unfold Dial, dial_prog. destruct (net.SplitHostPort a) as [[Host port0] e0].
  cbn zeta. cbn [fst] in Ho. rewrite URL_set_DialAddr.
  destruct (URL p) as [U|] eqn:HU; [|apply plain_prog_follows].
  replace (bypasses (set_DialAddr Host p) Host) with (bypasses p Host)
    by (unfold bypasses; by rewrite Regexp_set_DialAddr).
  destruct (bypasses p Host); [apply plain_prog_follows|]. apply follows_store.
  destruct (net.SplitHostPort (url.Host U)) as [[h port] e].
  eapply (follows_bind c (no_addr Host) opt_addr); [apply resolve_prog_follows|].
  intros [ips first]. cbn [no_addr fst snd].
  rewrite <- (IsSocksType_proper _ _ Ho). destruct (IsSocksType (Some p)).
  - rewrite (socks5_prog_endpoint _ _ _ _ _ _ _ _ _ _ _ Ho).
    apply (socks5_prog_follows c _ (set_DialAddr Host p)).
  - rewrite (http_prog_endpoint _ _ _ _ _ _ _ _ _ _ _ _ Ho).
    apply (http_prog_follows c _ (set_DialAddr Host p)).
Qed.

(** C11: alone, the program of a call is the call: started with the cell
    holding the [DialAddr] of the receiver, [dial_prog] makes the calls of
    [Dial] in the same world and returns its result, and the cell ends
    holding the [DialAddr] of the receiver after the call; where [Dial]
    panics, the program crashes in the same world. *)
Theorem dial_prog_alone c (o : option Proxy) n a A w :
  match Dial o n a w with
  | Returns (o', r) w' =>
      run (dial_prog c o n a) (mkShared (cell_of c o A) w) =
      Returns r (mkShared (cell_of c o' A) w')
  | Panics w' =>
      exists A', run (dial_prog c o n a) (mkShared (cell_of c o A) w) =
                 Panics (mkShared A' w')
  end.
Proof.
  destruct o as [p|].
  - pose proof (dial_prog_follows c p n a (DialAddr p) A w) as Hf.
    pose proof (Dial_equiv (Some p) n a w) as Hp.
    destruct (Dial _ _ _ _) as [[o' r] w'|]; [|done].
    cbn [post fst] in Hp. by inversion Hp; subst.
  - unfold Dial, dial_prog. by destruct (net.SplitHostPort a) as [[Host port0] e0].
Qed.

End whole.

(** The search alone, in the words of [run]: started with the cell holding
    the [DialAddr] of the descriptor, it makes the dials of [http_reach] in
    the same world, returns the same result, and leaves in the cell the
    [DialAddr] of the descriptor [http_reach] returns. *)
Theorem reach_prog_alone `{net.Lib} `{Env} c dd p n pa h port ips first e A w :
  exists p' r w',
    http_reach dd p n pa h port ips first e w = Returns (p', r) w' /\
    run (reach_prog c dd n pa h port ips first e)
        (mkShared (<[c := DialAddr p]> A) w) =
    Returns r (mkShared (<[c := DialAddr p']> A) w').
Proof.
  pose proof (reach_prog_follows c dd p n pa h port ips first e A w) as Hf.
  revert Hf. apply http_reach_elim. intros [p' r] w' _ Hf. by exists p', r, w'.
Qed.

(** ** No call crashes *)

Section safe.
Context `{net.Lib} `{Env}.
Implicit Types (c : nat) (dd : direct) (p : Proxy).

Lemma try_ips_prog_ends_in c dd n h port ips last :
  fst last = None ->
  ends_in (fun r => fst r = None \/ exclusive r)
    (try_ips_prog c dd n h port ips last).
Proof.
  revert last. induction ips as [|[b|] ips IH]; intros last Hl;
    cbn [try_ips_prog]; [by left| |by apply IH].
  intros _ _ s _ [[cn|] e] Hx; cbn [fst]; [by right|by apply IH].
Qed.

(** The search ends with a connection or an error, never both and never
    neither, when the dialer keeps its contract. *)
Lemma reach_prog_ends_in c dd n pa h port ips first e :
  ends_in exclusive (reach_prog c dd n pa h port ips first e).
Proof.
  assert (forall r1, fst r1 = None ->
            ends_in exclusive (bindP (try_ips_prog c dd n h port ips r1)
                                 (literal_prog c dd n pa))) as Hrest.
  { intros r1 H1. eapply ends_in_bindP, ends_in_mono, try_ips_prog_ends_in; [|done].
    intros [[cn|] e'] [Hn|Hx]; try done; by intros _ _ r Hr. }
  unfold reach_prog. apply ends_in_bindP. destruct first; [|by apply Hrest].
  intros _ _ s _ r Hr. cbn. destruct (fst r) eqn:Hc; [done|by apply Hrest].
Qed.

Lemma handshake_prog_safe q cn a :
  ends_in (fun _ => True) (handshake_prog q cn a).
Proof.
  intros [e|] _; [done|]. intros [[n b] er] _. cbn.
  by repeat case_bool_decide.
Qed.

Lemma http_prog_safe c dd p n a pa h port ips first e :
  ends_in (fun _ => True) (http_prog c dd p n a pa h port ips first e).
Proof.
  eapply ends_in_bindP, ends_in_mono, reach_prog_ends_in.
  intros [[cn|] [e'|]] Hx; try done. apply handshake_prog_safe.
Qed.

Lemma socks5_attempt_safe c d n target after :
  ends_in (fun _ => True) after ->
  ends_in (fun _ => True) (socks5_attempt c d n target after).
Proof.
  intros Ha r _. cbn. destruct (fst r); [|done].
  intros _ _. by apply ends_in_bindP_safe.
Qed.

Lemma socks5_try_prog_safe c d n h port ips :
  ends_in (fun _ => True) (socks5_try_prog c d n h port ips).
Proof.
  induction ips as [|[b|] ips IH]; cbn [socks5_try_prog]; [done| |done].
  apply ends_in_bindP_safe; [by apply socks5_attempt_safe|].
  intros r. by destruct (fst r).
Qed.

Lemma socks5_prog_safe c dd p n a pa h port ips first :
  ends_in (fun _ => True) (socks5_prog c dd p n a pa h port ips first).
Proof.
  unfold socks5_prog, SOCKS5. destruct (env_socks5_new _ _ _); [done|].
  apply ends_in_bindP_safe.
  - destruct first; [|done].
    apply ends_in_bindP_safe; [by apply socks5_attempt_safe|].
    intros r. by destruct (fst r).
  - intros [r|]; [done|]. apply ends_in_bindP_safe; [apply socks5_try_prog_safe|].
    intros [r|]; [done|]. by apply socks5_attempt_safe.
Qed.

(** ** Each part keeps to the cell of its descriptor *)

Lemma try_ips_prog_confined c dd n h port ips last :
  confined c (try_ips_prog c dd n h port ips last).
Proof.
  revert last. induction ips as [|[b|] ips IH]; intros last;
    cbn [try_ips_prog]; [done| |apply IH].
  unfold attempt_prog. confine. apply IH.
Qed.

Lemma reach_prog_confined c dd n pa h port ips first e :
  confined c (reach_prog c dd n pa h port ips first e).
Proof.
  assert (forall r1, confined c (bindP (try_ips_prog c dd n h port ips r1)
                                   (literal_prog c dd n pa))) as Hrest.
  { intros r1. apply confined_bindP; [apply try_ips_prog_confined|].
    intros r. unfold literal_prog. by confine. }
  unfold reach_prog, attempt_prog. apply confined_bindP; [by destruct first; confine|].
  intros r. destruct (fst r); [done|apply Hrest].
Qed.

Lemma handshake_prog_confined c q cn a : confined c (handshake_prog q cn a).
Proof. unfold handshake_prog. by confine. Qed.

Lemma http_prog_confined c dd p n a pa h port ips first e :
  confined c (http_prog c dd p n a pa h port ips first e).
Proof.
  apply confined_bindP; [apply reach_prog_confined|].
  intros [[cn|] [e'|]]; try done. apply handshake_prog_confined.
Qed.

Lemma socks5_attempt_confined c d n target after :
  confined c after -> confined c (socks5_attempt c d n target after).
Proof.
  intros Ha. unfold socks5_attempt. confine. by apply confined_bindP.
Qed.

Lemma socks5_try_prog_confined c d n h port ips :
  confined c (socks5_try_prog c d n h port ips).
Proof.
  induction ips as [|[b|] ips IH]; cbn [socks5_try_prog]; [done| |done].
  apply confined_bindP; [apply socks5_attempt_confined; by confine|].
  intros r. by destruct (fst r).
Qed.

Lemma socks5_prog_confined c dd p n a pa h port ips first :
  confined c (socks5_prog c dd p n a pa h port ips first).
Proof.
  unfold socks5_prog, SOCKS5. destruct (env_socks5_new _ _ _); [done|].
  apply confined_bindP.
  - destruct first; [|done].
    apply confined_bindP; [by apply socks5_attempt_confined|].
    intros r. by destruct (fst r).
  - intros [r|]; [done|]. apply confined_bindP; [apply socks5_try_prog_confined|].
    intros [r|]; [done|]. by apply socks5_attempt_confined.
Qed.

End safe.

Section pools.
Context `{url.Lib} `{net.Lib} `{Env}.

(** No call of [Dial] can crash when the dialers keep their contract. *)
Lemma dial_prog_safe c o n a : ends_in (fun _ => True) (dial_prog c o n a).
Proof.
  assert (forall dd Host, ends_in (fun _ => True) (plain_prog c dd n a Host)) as Hp.
  { intros dd Host _ _ r _. by destruct (fst r). }
  unfold dial_prog. destruct (net.SplitHostPort a) as [[Host port0] e0].
  destruct o as [p|]; [|done]. destruct (URL p) as [U|]; [|apply Hp].
  destruct (bypasses p Host); [apply Hp|]. intros _ _.
  destruct (net.SplitHostPort (url.Host U)) as [[h port] e].
  apply ends_in_bindP_safe.
  - unfold resolve_prog. destruct e; [done|]. by case_bool_decide.
  - intros [ips first]. destruct (IsSocksType _);
      [apply socks5_prog_safe|apply http_prog_safe].
Qed.

Lemma dial_pool_ends_in ks : Forall (ends_in (fun _ => True)) (dial_pool ks).
Proof. apply Forall_fmap, Forall_true. intros k. apply dial_prog_safe. Qed.

(** A call of [Dial] reads and writes the [DialAddr] of its own descriptor
    and no other. *)
Lemma dial_prog_confined c o n a : confined c (dial_prog c o n a).
Proof.
  assert (forall dd Host, confined c (plain_prog c dd n a Host)) as Hp
    by (intros dd Host; unfold plain_prog; by confine).
  unfold dial_prog. destruct (net.SplitHostPort a) as [[Host port0] e0].
  destruct o as [p|]; [|by confine]. destruct (URL p) as [U|]; [|apply Hp].
  destruct (bypasses p Host); [apply Hp|]. split; [by intros ? ? [= <- _]|intros _].
  destruct (net.SplitHostPort (url.Host U)) as [[h port] e].
  apply confined_bindP; [unfold resolve_prog; by confine|]. intros [ips first].
  destruct (IsSocksType _); [apply socks5_prog_confined|apply http_prog_confined].
Qed.

Lemma dial_pool_confined ks : Forall2 confined (dc_cell <$> ks) (dial_pool ks).
Proof.
  apply Forall2_fmap, Forall_Forall2_diag, Forall_true.
  intros k. apply dial_prog_confined.
Qed.

(** C13: calls of [Dial] that run at the same time, each on a descriptor of
    its own (a clone, as the lifecycle asks of callers that share one): no
    schedule leads to a data race on [DialAddr], so the atomic actions of
    the machine are the accesses of the program, and when the dialers keep
    their contract no schedule leads to a crashed call, whatever the other
    calls do to the network and to the resolver in between. *)
Theorem dial_pool_safe `{!EnvOK} ks st ls cfg' :
  NoDup (dc_cell <$> ks) ->
  pruns (dial_pool ks, st) ls cfg' ->
  ~ race cfg'.1 /\ Crash ∉ cfg'.1.
Proof.
  intros Hnd Hr. split.
  - by apply (pool_race_free (dc_cell <$> ks) _ _ _ _ Hnd (dial_pool_confined ks) Hr).
  - by apply (pool_no_crash _ _ _ _ (dial_pool_ends_in ks) Hr).
Qed.

(** C14: two calls of [Dial] on one descriptor race from the start, whatever
    the descriptor and the arguments: each begins by storing [Host] in
    [DialAddr] (line 154), and nothing orders the two stores. *)
Theorem dial_pool_races c p p' n a n' a' :
  race (dial_pool [mkDialCall c (Some p) n a; mkDialCall c (Some p') n' a']).
Proof.
  assert (forall q m b, exists s k, dial_prog c (Some q) m b = Do (StoreAddr c s) k)
    as Hstart.
  { intros q m b. unfold dial_prog, plain_prog.
    destruct (net.SplitHostPort b) as [[Host ?] ?].
    destruct (URL q); [destruct (bypasses q Host)|]; by eexists _, _. }
  destruct (Hstart p n a) as (s & k & Hk), (Hstart p' n' a') as (s' & k' & Hk').
  exists 0%nat, 1%nat, (StoreAddr c s), k, (StoreAddr c s'), k'.
  cbn [dial_pool fmap list_fmap dc_cell dc_recv dc_network dc_addr].
  rewrite Hk, Hk'. by split_and!.
Qed.

End pools.

(** ** The HTTP search in a pool *)

Section search.
Context `{net.Lib} `{Env}.
Implicit Types (cur : option string) (hist : list Act).

Variables (c : nat) (dd : direct) (n pa h port : string).

Lemma attempt_prog_obeys {R} first ips addr (k : GoRes net.Conn -> Prog R) cur hist :
  addr ∈ plan_addrs pa port first ips ->
  (forall r hist', DialAct dd n addr ∈ hist' ->
     obeys c (search_rule pa port first ips) (Some addr) hist' (k r)) ->
  obeys c (search_rule pa port first ips) cur hist (attempt_prog c dd n addr k).
Proof.
  intros Hin Hk. unfold attempt_prog. cbn [obeys]. rewrite !decide_True by done.
  split; [by split|]. split; [by split|]. split; [by split|].
  intros r. apply Hk, elem_of_app. right. by apply list_elem_of_singleton.
Qed.

Lemma try_ips_prog_obeys first ips0 ips last cur hist :
  (forall ip, ip ∈ ips -> ip <> None ->
     FormatIP ip port ∈ plan_addrs pa port first ips0) ->
  obeys c (search_rule pa port first ips0) cur hist
    (try_ips_prog c dd n h port ips last).
Proof.
  revert last cur hist. induction ips as [|[b|] ips IH]; intros last cur hist HP;
    cbn [try_ips_prog]; [done| |apply IH; intros ip ??; apply HP; [by right|done]].
  apply attempt_prog_obeys; [apply HP; [by left|done]|].
  intros r hist' Hd. destruct (fst r).
  - split; [|done]. split; [done|]. by exists dd, n.
  - apply IH. intros ip ??. apply HP; [by right|done].
Qed.

Lemma reach_prog_obeys ips first e cur hist :
  obeys c (search_rule pa port first ips) cur hist
    (reach_prog c dd n pa h port ips first e).
Proof.
  assert (forall a, a ∈ http_plan first ips ->
            attempt_addr pa port a ∈ plan_addrs pa port first ips) as Hin.
  { intros a. apply list_elem_of_fmap_2. }
  unfold reach_prog. apply obeys_bindP.
  - intros r cur' hist'. destruct (fst r); [done|]. apply obeys_bindP.
    + intros r' cur'' hist''. unfold literal_prog. destruct (fst r'); [done|].
      split; [by split|]. split; [|done]. split; [|done].
      apply (Hin Literal). set_solver.
    + apply try_ips_prog_obeys. intros ip Hip Hn.
      apply (Hin (Candidate ip)). unfold http_plan, non_nil.
      rewrite !elem_of_app. right; left.
      by apply list_elem_of_fmap_2, list_elem_of_filter.
  - destruct first as [b|]; [|done].
    apply attempt_prog_obeys; [|done]. apply (Hin (Remembered (Some b))).
    set_solver.
Qed.

Lemma try_ips_prog_quiet c' ips last :
  c <> c' -> quiet c' (try_ips_prog c dd n h port ips last).
Proof.
  intros Hc. revert last. induction ips as [|[b|] ips IH]; intros last;
    cbn [try_ips_prog]; [done| |apply IH].
  repeat split; try done. intros r. by destruct (fst r).
Qed.

(** A search on another cell never stores to this one. *)
Lemma reach_prog_quiet c' ips first e :
  c <> c' -> quiet c' (reach_prog c dd n pa h port ips first e).
Proof.
  intros Hc. unfold reach_prog. apply quiet_bindP.
  - intros r. destruct (fst r); [done|]. apply quiet_bindP.
    + intros r'. unfold literal_prog. by destruct (fst r').
    + by apply try_ips_prog_quiet.
  - by destruct first.
Qed.

End search.

(** ** Sharing and not sharing the descriptor *)

Section sharing.
Context `{net.Lib} `{Env}.

Lemma search_rule_dials pa port first ips hist a :
  search_rule pa port first ips hist a ->
  dials_in (.∈ plan_addrs pa port first ips) hist a.
Proof. by intros [? _]. Qed.

Lemma reach_prog_isolated_at i c dd n pa h port ips first e ts st :
  ts !! i = Some (reach_prog c dd n pa h port ips first e) ->
  (forall j t, j <> i -> ts !! j = Some t -> quiet c t) ->
  isolated i c (search_rule pa port first ips) [] (ts, st).
Proof.
  intros Hi Hq. split; [|done]. exists None, (reach_prog c dd n pa h port ips first e).
  split_and!; [done|apply reach_prog_obeys|done].
Qed.

Lemma own_elem_of i a ls : a ∈ own i ls -> (i, a) ∈ ls.
Proof.
  unfold own. intros ([j b] & Ha & [Hj Hin]%list_elem_of_filter)%list_elem_of_fmap.
  cbn in *. by subst.
Qed.

(** C21: isolation: in a pool in which no other goroutine stores to the
    cell of its descriptor, whatever the other goroutines do and however
    the steps interleave, every dial the HTTP search makes is of an address
    of its plan (the remembered address, a candidate, or the proxy address
    as written), and when it tells the resolver that a candidate answered,
    it has dialled the address of that candidate before. *)
Theorem reach_prog_isolated i c dd n pa h port ips first e ts st ls cfg' :
  ts !! i = Some (reach_prog c dd n pa h port ips first e) ->
  (forall j t, j <> i -> ts !! j = Some t -> quiet c t) ->
  pruns (ts, st) ls cfg' ->
  (forall dd' n' addr,
     (i, DialAct dd' n' addr) ∈ ls -> addr ∈ plan_addrs pa port first ips) /\
  (forall ls1 h' ip ls2,
     ls = ls1 ++ (i, RememberAct h' ip) :: ls2 ->
     exists dd' n', (i, DialAct dd' n' (FormatIP ip port)) ∈ ls1).
Proof.
  intros Hi Hq Hr.
  pose proof (reach_prog_isolated_at i c dd n pa h port ips first e ts st Hi Hq) as Hiso.
  split.
  - eapply (isolated_dials i c (.∈ plan_addrs pa port first ips));
      [apply search_rule_dials|done..].
  - intros ls1 h' ip ls2 Hl.
    destruct (isolated_pruns _ _ _ _ _ _ _ Hr Hiso ls1 _ ls2 Hl) as [_ (dd' & n' & Hin)].
    exists dd', n'. by apply own_elem_of.
Qed.

(** C12: the race on a shared descriptor: when a goroutine on the HTTP path
    and a goroutine that dials a destination directly hold the same
    descriptor, there is an interleaving in which the first, after it
    stored the address of the proxy in [DialAddr], dials what the second
    stored there meanwhile: the remote address of the destination, reached
    without the proxy. *)
Theorem reach_prog_race c dd n pa h port ips b e addr Host st conn e' :
  env_dial (trace (sworld st)) dd n addr = (Some conn, e') ->
  exists cfg',
    pruns ([reach_prog c dd n pa h port ips (Some b) e;
            plain_prog c dd n addr Host], st)
      (race_schedule c dd n addr Host port b conn) cfg'.
Proof.
  intros Hd. eexists.
  unfold race_schedule, reach_prog, plain_prog, attempt_prog. cbn [bindP].
  step_of 1%nat. eapply pruns_dial; [done..|]. cbn [insert list_insert fst].
  step_of 0%nat. step_of 1%nat.
  eapply pruns_load; [done|apply lookup_insert_eq|]. cbn [insert list_insert].
  step_of 0%nat. constructor.
Qed.

(** C22: the race reaches the resolver: with the search in its candidate loop,
    there is an interleaving in which the only dials are those of the
    destination and of its remote address, and yet the resolver is told
    that the candidate [b] of the proxy host answered.  Every later call
    for that proxy host starts with [b]. *)
Theorem try_ips_prog_poisons c dd n pa h port b ips e addr Host A w conn e' conn' e'' :
  let r := (Some conn, e') in
  let r' := (Some conn', e'') in
  env_dial (trace w) dd n addr = r ->
  env_dial (trace w ++ [EvDial dd n addr r]) dd n (net.RemoteAddr conn) = r' ->
  exists cfg',
    pruns ([reach_prog c dd n pa h port (Some b :: ips) None e;
            plain_prog c dd n addr Host], mkShared A w)
      (poison_schedule c dd n addr Host h port b conn) cfg' /\
    firstIP (sworld cfg'.2) !! (h, "") = Some b /\
    trace (sworld cfg'.2) =
      trace w ++ [EvDial dd n addr r; EvDial dd n (net.RemoteAddr conn) r';
                  EvSetFirstIP h "" (Some b)].
Proof.
  intros r r' Hd Hd'. eexists. split.
  - unfold poison_schedule, reach_prog, plain_prog, attempt_prog.
    cbn [bindP try_ips_prog fst]. unfold attempt_prog.
    step_of 1%nat. eapply pruns_dial; [done..|]. cbn [insert list_insert fst].
    step_of 0%nat. step_of 1%nat.
    eapply pruns_load; [done|apply lookup_insert_eq|]. cbn [insert list_insert].
    eapply pruns_dial; [done|by cbn; autorewrite with go|].
    cbn [insert list_insert fst bindP]. step_of 0%nat. constructor.
  - cbn [snd sworld]. autorewrite with go. split; [by simplify_map_eq|].
    by rewrite <- !app_assoc.
Qed.

(** Two searches, each on a descriptor of its own (a clone): each dials
    addresses of its own plan only, however their steps interleave. *)
Corollary reach_prog_clones c1 c2 dd n pa1 h1 port1 ips1 first1 e1
    pa2 h2 port2 ips2 first2 e2 st ls cfg' :
  c1 <> c2 ->
  pruns ([reach_prog c1 dd n pa1 h1 port1 ips1 first1 e1;
          reach_prog c2 dd n pa2 h2 port2 ips2 first2 e2], st) ls cfg' ->
  forall dd' n' addr,
    ((0%nat, DialAct dd' n' addr) ∈ ls -> addr ∈ plan_addrs pa1 port1 first1 ips1) /\
    ((1%nat, DialAct dd' n' addr) ∈ ls -> addr ∈ plan_addrs pa2 port2 first2 ips2).
Proof.
  intros Hc Hr dd' n' addr. split.
  - eapply (isolated_dials 0 c1 (.∈ plan_addrs pa1 port1 first1 ips1));
      [apply search_rule_dials|done|].
    eapply reach_prog_isolated_at; [done|].
    intros [|[|j]] t ?; [done| |done]. intros [= <-]. by apply reach_prog_quiet.
  - eapply (isolated_dials 1 c2 (.∈ plan_addrs pa2 port2 first2 ips2));
      [apply search_rule_dials|done|].
    eapply reach_prog_isolated_at; [done|].
    intros [|[|j]] t ?; [|done..]. intros [= <-]. by apply reach_prog_quiet.
Qed.

End sharing.

(** ** The theorems at concrete inputs *)

(** The proxy of [example_env], and a destination that takes connections
    when dialled directly. *)
Definition direct_env : Env :=
  stub_env ["10.0.0.3:8080"; "example.org:443"] []
    [("proxy.example", example_ips)]
    (bytes_of_string "HTTP/1.1 200 Connection established", None).

Definition empty_shared : Shared := mkShared ∅ empty_world.

(** Alone in [example_env] the search dials 10.0.0.2, then 10.0.0.3, which
    connects, and the cell holds that address. *)
Example reach_prog_example :
  exists r st',
    @run example_env _
      (@reach_prog stub_lib 0 example_dialer "tcp" "proxy.example:8080" "proxy.example"
         "8080" example_ips None None) empty_shared = Returns r st' /\
    net.RemoteAddr <$> fst r = Some "10.0.0.3:8080" /\
    addrs st' !! 0%nat = Some "10.0.0.3:8080" /\
    fst <$> dials (trace (sworld st')) = ["10.0.0.2:8080"; "10.0.0.3:8080"].
Proof. eexists _, _. split; [by vm_compute|]. by vm_compute. Qed.

Lemma reach_prog_race_witness :
  exists conn cfg',
    @pruns direct_env _
      ([@reach_prog stub_lib 0 example_dialer "tcp" "proxy.example:8080"
          "proxy.example" "8080" example_ips (Some remembered_ip) None;
        plain_prog 0 example_dialer "tcp" "example.org:443" "example.org"],
       empty_shared)
      (@race_schedule stub_lib 0 example_dialer "tcp" "example.org:443"
         "example.org" "8080" remembered_ip conn) cfg' /\
    net.RemoteAddr conn = "example.org:443".
Proof.
  assert (exists conn,
    @env_dial direct_env (trace (sworld empty_shared)) example_dialer "tcp"
      "example.org:443" = (Some conn, None) /\
    net.RemoteAddr conn = "example.org:443") as (conn & Hd & Ha).
  { eexists. split; vm_compute; reflexivity. }
  destruct (@reach_prog_race stub_lib direct_env 0 example_dialer "tcp"
              "proxy.example:8080" "proxy.example" "8080" example_ips
              remembered_ip None "example.org:443" "example.org" empty_shared
              conn None Hd) as [cfg' Hr].
  by exists conn, cfg'.
Defined.

Lemma reach_prog_isolated_witness :
  "10.0.0.1:8080" ∈ @plan_addrs stub_lib "proxy.example:8080" "8080"
                      (Some remembered_ip) example_ips.
Proof.
  eapply (@reach_prog_isolated stub_lib direct_env 0 0 example_dialer "tcp"
            "proxy.example:8080" "proxy.example" "8080" example_ips
            (Some remembered_ip) None
            [_; plain_prog 1 example_dialer "tcp" "example.org:443" "example.org"]
            empty_shared
            [(1%nat, StoreAddr 1 "example.org");
             (0%nat, StoreAddr 0 "10.0.0.1:8080"); (0%nat, LoadAddr 0);
             (0%nat, DialAct example_dialer "tcp" "10.0.0.1:8080")]);
    [done| | |do 3 right; left].
  - intros [|[|j]] t ?; [done| |done]. intros [= <-].
    repeat split; try done. intros r. by destruct (fst r).
  - unfold reach_prog, plain_prog, attempt_prog. cbn [bindP].
    step_of 1%nat. step_of 0%nat. step_of 0%nat. step_of 0%nat. constructor.
Defined.

(** A call through the HTTP proxy of the examples, on the descriptor in
    cell [c]. *)
Definition example_call (c : nat) : Prog (GoRes net.Conn) :=
  @dial_prog stub_lib direct_env c (Some example_proxy) "tcp" "example.org:443".

(** Alone in [direct_env] the call is [Dial]: it resolves the proxy, dials
    10.0.0.2 and 10.0.0.3, makes the CONNECT exchange and returns the
    connection to 10.0.0.3, which the cell then names. *)
Example dial_prog_example :
  exists p' r w',
    @Dial stub_lib direct_env (Some example_proxy) "tcp" "example.org:443"
      empty_world = Returns (Some p', r) w' /\
    @run direct_env _ (example_call 0) empty_shared =
      Returns r (mkShared {[ 0%nat := DialAddr p' ]} w') /\
    net.RemoteAddr <$> fst r = Some "10.0.0.3:8080" /\
    DialAddr p' = "10.0.0.3:8080".
Proof. eexists _, _, _. split; [by vm_compute|]. by vm_compute. Qed.

(** Two calls through the HTTP proxy of the examples, each on a clone of
    the descriptor. *)
Definition cloned_calls : list DialCall :=
  [mkDialCall 0 (Some example_proxy) "tcp" "example.org:443";
   mkDialCall 1 (Some example_proxy) "tcp" "example.org:443"].

Lemma dial_pool_safe_witness :
  exists cfg',
    @pruns direct_env _ (@dial_pool stub_lib direct_env cloned_calls, empty_shared)
      [(1%nat, StoreAddr 1 "example.org")] cfg' /\
    ~ race cfg'.1 /\ Crash ∉ cfg'.1.
Proof.
  assert (exists cfg', @pruns direct_env _
            (@dial_pool stub_lib direct_env cloned_calls, empty_shared)
            [(1%nat, StoreAddr 1 "example.org")] cfg') as [cfg' Hr].
  { eexists. econstructor; [|constructor].
    by eapply (pstep_do _ _ 1%nat (StoreAddr 1 "example.org")). }
  exists cfg'. split; [done|].
  eapply (@dial_pool_safe stub_lib direct_env (stub_env_ok _ _ _ _)
            cloned_calls empty_shared), Hr.
  by apply (bool_decide_unpack _).
Defined.

Lemma try_ips_prog_poisons_witness :
  exists cfg',
    @pruns direct_env _
      ([@reach_prog stub_lib 0 example_dialer "tcp" "proxy.example:8080"
          "proxy.example" "8080" [Some [x0a; x00; x00; x02]] None None;
        plain_prog 0 example_dialer "tcp" "example.org:443" "example.org"],
       empty_shared)
      (@poison_schedule stub_lib 0 example_dialer "tcp" "example.org:443"
         "example.org" "proxy.example" "8080" [x0a; x00; x00; x02]
         (net.mkConn 0 "example.org:443")) cfg' /\
    firstIP (sworld cfg'.2) !! ("proxy.example", "") = Some [x0a; x00; x00; x02] /\
    (dials (trace (sworld cfg'.2))).*1 = ["example.org:443"; "example.org:443"].
Proof.
  destruct (@try_ips_prog_poisons stub_lib direct_env 0 example_dialer "tcp"
              "proxy.example:8080" "proxy.example" "8080" [x0a; x00; x00; x02]
              [] None "example.org:443" "example.org" ∅ empty_world
              (net.mkConn 0 "example.org:443") None
              (net.mkConn 1 "example.org:443") None eq_refl eq_refl)
    as (cfg' & Hr & Hf & Ht).
  exists cfg'. split_and!; [done..|]. by rewrite Ht.
Defined.
